(** * Next.js templates of firebase-framework-tools

    A shallow embedding of [src/frameworks/next.js/templates.ts]:
    [firebaseJsonStuff], [newFunctionsYaml], [newServerJs] and
    [newPackageJson], together with the fragment of the JavaScript
    runtime they rely on (JSON values, truthiness, property reads,
    [JSON.stringify], [JSON.parse]). *)

From Stdlib Require Import ZArith NArith List Bool Ascii String Lia.
From Stdlib Require Import Decimal DecimalString DecimalFacts DecimalPos.
Import ListNotations.

Local Open Scope string_scope.
Local Open Scope Z_scope.

(** * The JavaScript runtime *)

(** ** JavaScript values

    The values a JSON document denotes, plus [undefined], which the code
    produces when it reads a property that is not there.  A string is the
    sequence of bytes of its UTF-8 text.  A number is an integer: the
    manifests carry status codes and generation numbers only.  An object is
    the list of its own properties in enumeration order. *)

Unset Elimination Schemes.
Inductive value : Type :=
| VUndefined
| VNull
| VBool (b : bool)
| VNum (n : Z)
| VStr (s : string)
| VArr (xs : list value)
| VObj (ps : list (string * value)).
Set Elimination Schemes.

Definition props := list (string * value).

Section ValueInd.
Variable P : value -> Prop.
Hypothesis Hundef : P VUndefined.
Hypothesis Hnull : P VNull.
Hypothesis Hbool : forall b, P (VBool b).
Hypothesis Hnum : forall n, P (VNum n).
Hypothesis Hstr : forall s, P (VStr s).
Hypothesis Harr : forall xs, Forall P xs -> P (VArr xs).
Hypothesis Hobj : forall ps, Forall (fun kv => P (snd kv)) ps -> P (VObj ps).

Fixpoint value_ind (v : value) : P v :=
  match v with
  | VUndefined => Hundef
  | VNull => Hnull
  | VBool b => Hbool b
  | VNum n => Hnum n
  | VStr s => Hstr s
  | VArr xs =>
      Harr xs ((fix go (l : list value) : Forall P l :=
                  match l with
                  | [] => Forall_nil _
                  | x :: l' => Forall_cons x (value_ind x) (go l')
                  end) xs)
  | VObj ps =>
      Hobj ps ((fix go (l : props) : Forall (fun kv => P (snd kv)) l :=
                  match l with
                  | [] => Forall_nil _
                  | kv :: l' => Forall_cons kv (value_ind (snd kv)) (go l')
                  end) ps)
  end.
End ValueInd.

(** ** Failures

    A thrown exception or a rejected promise ends the call; the model
    returns it in place of the result. *)

Inductive error : Type :=
| ENOENT (path : string)   (* readFile: no such file *)
| SyntaxError              (* JSON.parse: the text is not JSON *)
| TypeError                (* property of null/undefined, call of a non-function,
                              property creation on a primitive in strict mode *)
| OutsideModel.            (* JSON text whose value the model does not represent *)

Inductive result (A : Type) : Type :=
| Ok (a : A)
| Err (e : error).
Arguments Ok {A} a.
Arguments Err {A} e.

Definition bind {A B} (r : result A) (f : A -> result B) : result B :=
  match r with
  | Ok a => f a
  | Err e => Err e
  end.

Notation "x <- r ;; k" := (bind r (fun x => k))
  (at level 61, r at next level, right associativity).

Fixpoint mapM {A B} (f : A -> result B) (l : list A) : result (list B) :=
  match l with
  | [] => Ok []
  | x :: l' => y <- f x ;; ys <- mapM f l' ;; Ok (y :: ys)
  end.

Fixpoint filterM {A} (f : A -> result bool) (l : list A) : result (list A) :=
  match l with
  | [] => Ok []
  | x :: l' => b <- f x ;; ys <- filterM f l' ;; Ok (if b then x :: ys else ys)
  end.

(** ** The runtime operations the code uses *)

(** ToBoolean. *)
Definition truthy (v : value) : bool :=
  match v with
  | VUndefined | VNull => false
  | VBool b => b
  | VNum n => negb (n =? 0)
  | VStr s => negb (s =? "")%string
  | VArr _ | VObj _ => true
  end.

Fixpoint lookup (k : string) (ps : props) : option value :=
  match ps with
  | [] => None
  | (k', v) :: ps' => if (k =? k')%string then Some v else lookup k ps'
  end.

(** [o.k] and [{ k } = o] for the property names of this file (source,
    headers, destination, statusCode, internal, locale, has, redirects,
    rewrites, beforeFiles, dependencies, engines, node and the four package
    names).  None of them is an array index, [length], or a property of a
    built-in prototype, so only an object can hold one; reading it from
    [null] or [undefined] throws. *)
Definition get (v : value) (k : string) : result value :=
  match v with
  | VUndefined | VNull => Err TypeError
  | VObj ps => Ok (match lookup k ps with Some x => x | None => VUndefined end)
  | _ => Ok VUndefined
  end.

(** [{ k = d } = o]: the default replaces [undefined] only. *)
Definition get_default (v : value) (k : string) (d : value) : result value :=
  x <- get v k ;;
  Ok (match x with VUndefined => d | _ => x end).

(** [a.map(f)] and [a.filter(f)]: only an array has these methods; on
    anything else the call throws. *)
Definition array_map (f : value -> result value) (a : value) : result value :=
  match a with
  | VArr xs => ys <- mapM f xs ;; Ok (VArr ys)
  | _ => Err TypeError
  end.

Definition array_filter (f : value -> result bool) (a : value) : result value :=
  match a with
  | VArr xs => ys <- filterM f xs ;; Ok (VArr ys)
  | _ => Err TypeError
  end.

Definition Array_isArray (v : value) : bool :=
  match v with VArr _ => true | _ => false end.

(** ** Characters and strings *)

Definition dquote : ascii := "034"%char.
Definition backslash : ascii := "092"%char.
Definition LF : ascii := "010"%char.

Definition str1 (c : ascii) : string := String c EmptyString.

Fixpoint join (sep : string) (l : list string) : string :=
  match l with
  | [] => ""
  | [s] => s
  | s :: l' => s ++ sep ++ join sep l'
  end.

(** Number::toString for an integer the number type holds exactly, one of
    absolute value at most [MAX_SAFE_INTEGER]: its decimal digits.  Larger
    integers are outside what is modelled (a number rounds them, and prints
    an exponent from 10^21 on); what is proved of a text that holds a number
    is proved of numbers within the bound. *)
Definition Number_toString (n : Z) : string :=
  match n with
  | Z0 => "0"
  | Zpos p => NilEmpty.string_of_uint (Pos.to_uint p)
  | Zneg p => "-" ++ NilEmpty.string_of_uint (Pos.to_uint p)
  end.

(** ** JSON.stringify *)

Definition hex_digit (n : N) : ascii :=
  if (n <? 10)%N then ascii_of_N (48 + n) else ascii_of_N (87 + n).

(** One character of QuoteJSONString: the two-character escapes, [\u00xx]
    for the other control characters, the character itself otherwise. *)
Definition quote_char (c : ascii) : string :=
  if (c =? "008")%char then "\b"
  else if (c =? "009")%char then "\t"
  else if (c =? "010")%char then "\n"
  else if (c =? "012")%char then "\f"
  else if (c =? "013")%char then "\r"
  else if (c =? dquote)%char then String backslash (str1 dquote)
  else if (c =? backslash)%char then String backslash (str1 backslash)
  else if (N_of_ascii c <? 32)%N then
    "\u00" ++ String (hex_digit (N_of_ascii c / 16))
                (str1 (hex_digit (N_of_ascii c mod 16)))
  else str1 c.

Fixpoint quote_body (s : string) : string :=
  match s with
  | EmptyString => EmptyString
  | String c s' => quote_char c ++ quote_body s'
  end.

Definition QuoteJSONString (s : string) : string :=
  String dquote (quote_body s ++ str1 dquote).

(** SerializeJSONObject and SerializeJSONArray, once the members are
    serialized: [stepback] is the indentation outside, [gap] one level. *)
Definition wrap (opening closing gap stepback : string) (partial : list string)
  : string :=
  match partial with
  | [] => opening ++ closing
  | _ =>
      if (gap =? "")%string then opening ++ join "," partial ++ closing
      else
        let indent := stepback ++ gap in
        opening ++ str1 LF ++ indent
          ++ join ("," ++ str1 LF ++ indent) partial
          ++ str1 LF ++ stepback ++ closing
  end.

Definition member (gap key str : string) : string :=
  QuoteJSONString key ++ ":" ++ (if (gap =? "")%string then "" else " ") ++ str.

(** SerializeJSONProperty; [None] is [undefined].  An [undefined] array
    element is written [null] and an [undefined] property is left out. *)
Fixpoint serialize (gap indent : string) (v : value) : option string :=
  match v with
  | VUndefined => None
  | VNull => Some "null"
  | VBool true => Some "true"
  | VBool false => Some "false"
  | VNum n => Some (Number_toString n)
  | VStr s => Some (QuoteJSONString s)
  | VArr xs =>
      let partial :=
        map (fun x =>
               match serialize gap (indent ++ gap) x with
               | Some s => s
               | None => "null"
               end) xs in
      Some (wrap "[" "]" gap indent partial)
  | VObj ps =>
      let partial :=
        flat_map (fun kv =>
                    match serialize gap (indent ++ gap) (snd kv) with
                    | Some s => [member gap (fst kv) s]
                    | None => []
                    end) ps in
      Some (wrap "{" "}" gap indent partial)
  end.

(** [JSON.stringify(v)] and [JSON.stringify(v, null, 2)].  The result
    [undefined], which only an [undefined] argument gets, is written the way
    a template literal prints it; no call in this file passes [undefined]. *)
Definition JSON_stringify (v : value) : string :=
  match serialize "" "" v with Some s => s | None => "undefined" end.

Definition JSON_stringify2 (v : value) : string :=
  match serialize "  " "" v with Some s => s | None => "undefined" end.

(** ** JSON.parse

    The JSON lexical grammar, then the JSON syntactic grammar.  Both are
    run as machines over their input, one character or one token at a
    time, so that every text gets an answer. *)

Inductive token : Type :=
| TLBrace | TRBrace | TLBrack | TRBrack | TColon | TComma
| TString (s : string)
| TNumber (n : Z)
| TNull | TTrue | TFalse.

Inductive lstate : Type :=
| LStart                               (* between tokens *)
| LLit (rest : string) (t : token)     (* inside null, true or false *)
| LMinus                               (* after the sign of a number *)
| LZero (neg : bool)                   (* after the leading zero of a number *)
| LInt (neg : bool) (acc : Z)          (* inside the digits of a number *)
| LStr (acc : string)                  (* inside a string *)
| LEsc (acc : string)                  (* after a backslash *)
| LUni (acc : string) (code : N) (more : nat).  (* inside the digits of \u *)

Definition is_ws (c : ascii) : bool :=
  (c =? "009")%char || (c =? "010")%char || (c =? "013")%char || (c =? " ")%char.

Definition digit_of (c : ascii) : option Z :=
  let n := N_of_ascii c in
  if ((48 <=? n) && (n <=? 57))%N then Some (Z.of_N n - 48) else None.

Definition hex_of (c : ascii) : option N :=
  let n := N_of_ascii c in
  if ((48 <=? n) && (n <=? 57))%N then Some (n - 48)%N
  else if ((97 <=? n) && (n <=? 102))%N then Some (n - 87)%N
  else if ((65 <=? n) && (n <=? 70))%N then Some (n - 55)%N
  else None.

(** The largest integer a number holds exactly, Number.MAX_SAFE_INTEGER. *)
Definition MAX_SAFE_INTEGER : Z := 9007199254740991.

Definition number_token (neg : bool) (acc : Z) : result token :=
  if acc <=? MAX_SAFE_INTEGER then Ok (TNumber (if neg then - acc else acc))
  else Err OutsideModel.

Definition lex_start (c : ascii) : result (lstate * list token) :=
  if is_ws c then Ok (LStart, [])
  else if (c =? "{")%char then Ok (LStart, [TLBrace])
  else if (c =? "}")%char then Ok (LStart, [TRBrace])
  else if (c =? "[")%char then Ok (LStart, [TLBrack])
  else if (c =? "]")%char then Ok (LStart, [TRBrack])
  else if (c =? ":")%char then Ok (LStart, [TColon])
  else if (c =? ",")%char then Ok (LStart, [TComma])
  else if (c =? dquote)%char then Ok (LStr "", [])
  else if (c =? "-")%char then Ok (LMinus, [])
  else if (c =? "0")%char then Ok (LZero false, [])
  else if (c =? "n")%char then Ok (LLit "ull" TNull, [])
  else if (c =? "t")%char then Ok (LLit "rue" TTrue, [])
  else if (c =? "f")%char then Ok (LLit "alse" TFalse, [])
  else match digit_of c with
       | Some d => Ok (LInt false d, [])
       | None => Err SyntaxError
       end.

(** The character after the digits of an integer: a fraction or an
    exponent makes a number the model has no value for; anything else ends
    the token and is read as the start of the next one. *)
Definition lex_after_int (neg : bool) (acc : Z) (c : ascii)
  : result (lstate * list token) :=
  if ((c =? ".")%char || (c =? "e")%char || (c =? "E")%char)%bool
  then Err OutsideModel
  else
    t <- number_token neg acc ;;
    r <- lex_start c ;;
    Ok (fst r, t :: snd r).

Definition lex_escape (acc : string) (c : ascii) : result (lstate * list token) :=
  let put (x : ascii) := Ok (LStr (acc ++ str1 x), []) in
  if (c =? dquote)%char then put dquote
  else if (c =? backslash)%char then put backslash
  else if (c =? "/")%char then put "/"%char
  else if (c =? "b")%char then put "008"%char
  else if (c =? "f")%char then put "012"%char
  else if (c =? "n")%char then put "010"%char
  else if (c =? "r")%char then put "013"%char
  else if (c =? "t")%char then put "009"%char
  else if (c =? "u")%char then Ok (LUni acc 0 4, [])
  else Err SyntaxError.

Definition lstep (st : lstate) (c : ascii) : result (lstate * list token) :=
  match st with
  | LStart => lex_start c
  | LLit rest t =>
      match rest with
      | String c' EmptyString =>
          if (c =? c')%char then Ok (LStart, [t]) else Err SyntaxError
      | String c' rest' =>
          if (c =? c')%char then Ok (LLit rest' t, []) else Err SyntaxError
      | EmptyString => Err SyntaxError
      end
  | LMinus =>
      if (c =? "0")%char then Ok (LZero true, [])
      else match digit_of c with
           | Some d => Ok (LInt true d, [])
           | None => Err SyntaxError
           end
  | LZero neg =>
      match digit_of c with
      | Some _ => Err SyntaxError
      | None => lex_after_int neg 0 c
      end
  | LInt neg acc =>
      match digit_of c with
      | Some d => Ok (LInt neg (acc * 10 + d), [])
      | None => lex_after_int neg acc c
      end
  | LStr acc =>
      if (c =? dquote)%char then Ok (LStart, [TString acc])
      else if (c =? backslash)%char then Ok (LEsc acc, [])
      else if (N_of_ascii c <? 32)%N then Err SyntaxError
      else Ok (LStr (acc ++ str1 c), [])
  | LEsc acc => lex_escape acc c
  | LUni acc code more =>
      match hex_of c with
      | None => Err SyntaxError
      | Some h =>
          let code' := (code * 16 + h)%N in
          match more with
          | S (S k) => Ok (LUni acc code' (S k), [])
          | _ =>
              if (code' <? 128)%N then Ok (LStr (acc ++ str1 (ascii_of_N code')), [])
              else Err OutsideModel
          end
      end
  end.

Definition lex_end (st : lstate) : result (list token) :=
  match st with
  | LStart => Ok []
  | LZero neg => t <- number_token neg 0 ;; Ok [t]
  | LInt neg acc => t <- number_token neg acc ;; Ok [t]
  | _ => Err SyntaxError
  end.

(** The tokens read so far are kept last first. *)
Fixpoint lex_run (st : lstate) (read : list token) (s : string)
  : result (list token) :=
  match s with
  | EmptyString => ts <- lex_end st ;; Ok (List.rev (rev_append ts read))
  | String c s' => r <- lstep st c ;; lex_run (fst r) (rev_append (snd r) read) s'
  end.

Definition lex (s : string) : result (list token) := lex_run LStart [] s.

(** *** Own properties of an ordinary object

    Enumeration order: the array-index keys in ascending order, then the
    other keys in the order they were created. *)

Fixpoint digits_val (acc : N) (s : string) : option N :=
  match s with
  | EmptyString => Some acc
  | String c s' =>
      match digit_of c with
      | Some d => digits_val (acc * 10 + Z.to_N d) s'
      | None => None
      end
  end.

(** A canonical numeric string below 2^32 - 1. *)
Definition array_index (k : string) : option N :=
  match k with
  | EmptyString => None
  | String c s' =>
      if (c =? "0")%char then
        match s' with EmptyString => Some 0%N | _ => None end
      else
        match digits_val 0 k with
        | Some n => if (n <=? 4294967294)%N then Some n else None
        | None => None
        end
  end.

Fixpoint replace (k : string) (v : value) (ps : props) : props :=
  match ps with
  | [] => []
  | (k', x) :: ps' =>
      if (k =? k')%string then (k', v) :: ps' else (k', x) :: replace k v ps'
  end.

(** A new array-index key goes after the array-index keys that are not
    above it (a key with the same index would be the same key). *)
Fixpoint insert_index (i : N) (k : string) (v : value) (ps : props) : props :=
  match ps with
  | [] => [(k, v)]
  | (k', x) :: ps' =>
      match array_index k' with
      | Some j =>
          if (j <=? i)%N then (k', x) :: insert_index i k v ps'
          else (k, v) :: (k', x) :: ps'
      | None => (k, v) :: (k', x) :: ps'
      end
  end.

(** [o[k] = v] on an ordinary object, and CreateDataProperty. *)
Definition obj_set (k : string) (v : value) (ps : props) : props :=
  match lookup k ps with
  | Some _ => replace k v ps
  | None =>
      match array_index k with
      | Some i => insert_index i k v ps
      | None => (ps ++ [(k, v)])%list
      end
  end.

(** *** The syntactic grammar *)

Inductive frame : Type :=
| FArr (acc : list value)              (* inside an array, elements so far *)
| FObj (acc : props) (key : string).   (* inside an object, after [key :] *)

Inductive pstate : Type :=
| PValue (stk : list frame)                           (* a value must follow *)
| PArrayOpen (stk : list frame)                       (* after [ *)
| PArrayNext (acc : list value) (stk : list frame)    (* after an element *)
| PObjectOpen (stk : list frame)                      (* after { *)
| PObjectKey (acc : props) (stk : list frame)         (* after , in an object *)
| PObjectColon (acc : props) (key : string) (stk : list frame)
| PObjectNext (acc : props) (stk : list frame)        (* after a member *)
| PDone (v : value).                                  (* the text is read *)

Definition deliver (v : value) (stk : list frame) : pstate :=
  match stk with
  | [] => PDone v
  | FArr acc :: stk' => PArrayNext (acc ++ [v])%list stk'
  | FObj acc key :: stk' => PObjectNext (obj_set key v acc) stk'
  end.

Definition pvalue (stk : list frame) (t : token) : result pstate :=
  match t with
  | TNull => Ok (deliver VNull stk)
  | TTrue => Ok (deliver (VBool true) stk)
  | TFalse => Ok (deliver (VBool false) stk)
  | TNumber n => Ok (deliver (VNum n) stk)
  | TString s => Ok (deliver (VStr s) stk)
  | TLBrack => Ok (PArrayOpen stk)
  | TLBrace => Ok (PObjectOpen stk)
  | _ => Err SyntaxError
  end.

Definition pstep (st : pstate) (t : token) : result pstate :=
  match st with
  | PValue stk => pvalue stk t
  | PArrayOpen stk =>
      match t with
      | TRBrack => Ok (deliver (VArr []) stk)
      | _ => pvalue (FArr [] :: stk) t
      end
  | PArrayNext acc stk =>
      match t with
      | TComma => Ok (PValue (FArr acc :: stk))
      | TRBrack => Ok (deliver (VArr acc) stk)
      | _ => Err SyntaxError
      end
  | PObjectOpen stk =>
      match t with
      | TRBrace => Ok (deliver (VObj []) stk)
      | TString k => Ok (PObjectColon [] k stk)
      | _ => Err SyntaxError
      end
  | PObjectKey acc stk =>
      match t with
      | TString k => Ok (PObjectColon acc k stk)
      | _ => Err SyntaxError
      end
  | PObjectColon acc k stk =>
      match t with
      | TColon => Ok (PValue (FObj acc k :: stk))
      | _ => Err SyntaxError
      end
  | PObjectNext acc stk =>
      match t with
      | TComma => Ok (PObjectKey acc stk)
      | TRBrace => Ok (deliver (VObj acc) stk)
      | _ => Err SyntaxError
      end
  | PDone _ => Err SyntaxError
  end.

Fixpoint parse_run (st : pstate) (ts : list token) : result value :=
  match ts with
  | [] => match st with PDone v => Ok v | _ => Err SyntaxError end
  | t :: ts' => st' <- pstep st t ;; parse_run st' ts'
  end.

Definition JSON_parse (text : string) : result value :=
  ts <- lex text ;; parse_run (PValue []) ts.

(** * The functions of templates.ts *)

(** ** The deploy configuration and the file system *)

(** Modelled from the spec: the function target of a deploy configuration,
    {generation: 1|2, name, region}; its type is declared in [utils], which
    this file imports. *)
Record FunctionTarget : Type := {
  gen : Z;
  name : string;
  region : string
}.

(** Modelled from the spec: the deploy configuration supplies a
    path-resolution rule, and may have a function target ([config.function!]
    asserts that it has one). *)
Record DeployConfig : Type := {
  projectPath : list string -> string;
  function : option FunctionTarget
}.

(** Modelled from the spec: [getProjectPathFactory] of [utils] gives the
    path-resolution rule of a configuration. *)
Definition getProjectPathFactory (config : DeployConfig) : list string -> string :=
  projectPath config.

(** The files there are: the content of the file at a path, if any. *)
Definition filesystem := string -> option string.

Definition readFile (fs : filesystem) (path : string) : result string :=
  match fs path with
  | Some content => Ok content
  | None => Err (ENOENT path)
  end.

(** ** firebaseJsonStuff (lines 36-56)

    First what is done with the parsed manifest (lines 40-55), then the
    whole function. *)

Definition header_entry (h : value) : result value :=
  source <- get h "source" ;;
  headers <- get h "headers" ;;
  Ok (VObj [("source", source); ("headers", headers)]).

Definition redirect_keep (r : value) : result bool :=
  internal <- get r "internal" ;;
  Ok (negb (truthy internal)).

Definition redirect_entry (r : value) : result value :=
  source <- get r "source" ;;
  destination <- get r "destination" ;;
  type <- get r "statusCode" ;;
  Ok (VObj [("source", source); ("destination", destination); ("type", type)]).

Definition rewrite_entry (r : value) : result value :=
  source <- get r "source" ;;
  destination <- get r "destination" ;;
  locale <- get r "locale" ;;
  has <- get r "has" ;;
  if truthy has then Ok VUndefined
  else Ok (VObj [("source", source); ("destination", destination)]).

Definition translateManifest (manifest : value) : result value :=
  nextJsHeaders <- get_default manifest "headers" (VArr []) ;;
  nextJsRedirects <- get_default manifest "redirects" (VArr []) ;;
  nextJsRewrites <- get_default manifest "rewrites" (VArr []) ;;
  headers <- array_map header_entry nextJsHeaders ;;
  kept <- array_filter redirect_keep nextJsRedirects ;;
  redirects <- array_map redirect_entry kept ;;
  nextJsRewritesToUse <-
    (if Array_isArray nextJsRewrites then Ok nextJsRewrites
     else
       beforeFiles <- get nextJsRewrites "beforeFiles" ;;
       Ok (if truthy beforeFiles then beforeFiles else VArr [])) ;;
  mapped <- array_map rewrite_entry nextJsRewritesToUse ;;
  rewrites <- array_filter (fun it => Ok (truthy it)) mapped ;;
  Ok (VObj [("headers", headers); ("rewrites", rewrites); ("redirects", redirects)]).

Definition firebaseJsonStuff (fs : filesystem) (config : DeployConfig)
  (distDir : string) : result value :=
  let getProjectPath := getProjectPathFactory config in
  manifestBuffer <- readFile fs (getProjectPath [distDir; "routes-manifest.json"]) ;;
  manifest <- JSON_parse manifestBuffer ;;
  translateManifest manifest.

(** ** newFunctionsYaml (lines 58-73) *)

Definition functions_descriptor (f : FunctionTarget) : value :=
  VObj [("endpoints",
          VObj [(name f,
                  VObj [("platform", VStr ("gcfv" ++ Number_toString (gen f)));
                        ("region", VArr [VStr (region f)]);
                        ("labels", VObj []);
                        ("httpsTrigger", VObj []);
                        ("entryPoint", VStr (name f))])]);
        ("specVersion", VStr "v1alpha1");
        ("requiredAPIs", VArr [])].

Definition newFunctionsYaml (config : DeployConfig) : result string :=
  match function config with
  | None => Err TypeError
  | Some f => Ok (JSON_stringify2 (functions_descriptor f))
  end.

(** ** newServerJs (lines 76-176) *)

(** Lines 85-87: the imports every server script has. *)
Definition server_requires : string :=
"
const { parse } = require('url');
const next = require('next');
const { join } = require('path');".

(** Lines 88-97, up to the interpolated client options. *)
Definition session_setup_before : string :=
"
const { initializeApp: initializeAdminApp } = require('firebase-admin/app');
const { getAuth: getAdminAuth } = require('firebase-admin/auth');
const { initializeApp, deleteApp } = require('firebase/app');
const { getAuth, signInWithCustomToken } = require('firebase/auth');
const cookie = require('cookie');
const LRU = require('lru-cache');

const adminApp = initializeAdminApp();
const adminAuth = getAdminAuth(adminApp);
const firebaseConfig = ".

(** Lines 97-108: the per-user cache of client SDK instances. *)
Definition session_setup_after : string :=
";

// TODO performance tune this
const firebaseAppsLRU = new LRU({
    max: 100,
    ttl: 1_000 * 60 * 5,
    allowStale: true,
    updateAgeOnGet: true,
    dispose: value => {
        deleteApp(value);
    }
});
".

(** Lines 110-114, up to the interpolated function name. *)
Definition server_exports : string :=
"

const nextApp = next({ dev: false, dir: __dirname });
const nextAppPrepare = nextApp.prepare();

exports[".

(** Lines 115-169: session cookie parsing, the /__next/cookie endpoint and the
    exchange of the session cookie for a signed-in client SDK instance. *)
Definition session_bridge : string :=
"
// TODO figure out why middleware isn't doing this for us
    const cookies = cookie.parse(req.headers.cookie || '');
    let _decodeIdToken;
    const decodeIdToken = () => _decodeIdToken ||= cookies.__session ? adminAuth.verifySessionCookie(cookies.__session, true).catch(() => null) : Promise.resolve(null);
    if (req.url === '/__next/cookie') {
        if (req.body.user) {
            const idToken = req.body.user.idToken;
            const decodedIdTokenFromBody = await adminAuth.verifyIdToken(idToken, true);
            // TODO freshen the session cookie if needed
            //      check for idToken having been freshly minted
            const decodedIdToken = await decodeIdToken();
            if (decodedIdTokenFromBody.uid === decodedIdToken?.uid) {
                res.status(304).end();
            } else {
                // TODO allow this to be configurable
                const expiresIn = 60 * 60 * 24 * 5 * 1000;
                // TODO log the failure
                const cookie = await adminAuth.createSessionCookie(idToken, { expiresIn }).catch(() => null);
                if (cookie) {
                    const options = { maxAge: expiresIn, httpOnly: true, secure: true };
                    res.cookie('__session', cookie, options).status(201).end();
                } else {
                    res.status(401).end();
                }
            }
        } else {
            res.status(204).clearCookie('__session').end();
        }
        return;
    }
    // TODO only go down this path for routes that need it
    const decodedIdToken = await decodeIdToken();
    if (firebaseConfig && decodedIdToken) {
        const { uid } = decodedIdToken;
        let app = firebaseAppsLRU.get(uid);
        if (!app) {
            const random = Math.random().toString(36).split('.')[1];
            const appName = `authenticated-context:${uid}:${random}`;
            app = initializeApp(firebaseConfig, appName);
            firebaseAppsLRU.set(uid, app);
        }
        const auth = getAuth(app);
        if (auth.currentUser?.uid !== uid) {
            // TODO get custom claims
            //      check in with the Auth team to make sure this is the best way of doing this
            const customToken = await adminAuth.createCustomToken(decodedIdToken.uid);
            await signInWithCustomToken(auth, customToken);
        }
        // TODO can we use a symbol for these or otherwise set them as non iterable
        //      can we drop this and just use useRouter().query.__FIREBASE_APP_NAME?
        // Pass the authenticated firebase app name to getInitialProps, getServerSideProps via req
        // I'd normally reach for a global here, but we need to think about concurrency now with CF3v2
        req['firebaseApp'] = app;
        req['currentUser'] = auth.currentUser;
    }
".

(** Lines 171-174: the request is handed to Next.js. *)
Definition server_handler : string :=
"
    const parsedUrl = parse(req.url, true);
    await nextAppPrepare;
    nextApp.getRequestHandler()(req, res, parsedUrl);
});
".

Definition newServerJs (config : DeployConfig) (options : value) : result string :=
  match function config with
  | None => Err TypeError
  | Some f =>
      let conditionalImports :=
        if gen f =? 1 then "const functions = require('firebase-functions');"
        else "const { onRequest } = require('firebase-functions/v2/https');" in
      let onRequest :=
        if gen f =? 1 then "functions.https.onRequest("
        else "onRequest({ region: '" ++ region f ++ "' }, " in
      Ok (conditionalImports ++ server_requires
            ++ (if truthy options
                then session_setup_before ++ JSON_stringify options
                       ++ session_setup_after
                else "")
            ++ server_exports ++ JSON_stringify (VStr (name f)) ++ "] = "
            ++ onRequest ++ "async (req, res) => {"
            ++ (if truthy options then session_bridge else "")
            ++ server_handler)
  end.

(** ** newPackageJson (lines 178-196) *)

Fixpoint skip_space (s : string) : string :=
  match s with
  | String c s' =>
      if (is_ws c || (c =? "011")%char || (c =? "012")%char)%bool
      then skip_space s' else s
  | EmptyString => s
  end.

Fixpoint leading_digits (acc : option Z) (s : string) : option Z :=
  match s with
  | String c s' =>
      match digit_of c with
      | Some d =>
          leading_digits (Some (match acc with Some n => n * 10 + d | None => d end)) s'
      | None => acc
      end
  | EmptyString => acc
  end.

(** [parseInt(s, 10)]: the integer the text starts with; [None] is NaN. *)
Definition parseInt10 (s : string) : option Z :=
  match skip_space s with
  | String c s' =>
      if (c =? "-")%char then option_map Z.opp (leading_digits None s')
      else if (c =? "+")%char then leading_digits None s'
      else leading_digits None (String c s')
  | EmptyString => None
  end.

(** [parseInt(process.versions.node, 10).toString()], for the version text
    of the running toolchain; the major version of a toolchain is well
    within the integers [Number_toString] is for. *)
Definition NODE_VERSION (process_versions_node : string) : string :=
  match parseInt10 process_versions_node with
  | Some n => Number_toString n
  | None => "NaN"
  end.

Definition FIREBASE_ADMIN_VERSION : string := "^10.0.0".
Definition FIREBASE_FUNCTIONS_VERSION : string := "^3.16.0".
Definition COOKIE_VERSION : string := "^0.4.2".
Definition LRU_CACHE_VERSION : string := "^7.3.1".

(** The value of [o.k] for the own properties [o]. *)
Definition prop (ps : props) (k : string) : value :=
  match lookup k ps with
  | Some x => x
  | None => VUndefined
  end.

Fixpoint indexed (i : nat) (xs : list value) : props :=
  match xs with
  | [] => []
  | x :: xs' => (Number_toString (Z.of_nat i), x) :: indexed (S i) xs'
  end.

Fixpoint characters (s : string) : list value :=
  match s with
  | EmptyString => []
  | String c s' => VStr (str1 c) :: characters s'
  end.

(** [{ ...v }]: the own enumerable properties of [v], in enumeration
    order.  An array or a string has its indices; the other primitives have
    none. *)
Definition spread (v : value) : props :=
  match v with
  | VObj ps => ps
  | VArr xs => indexed 0 xs
  | VStr s => indexed 0 (characters s)
  | _ => []
  end.

(** [o[k] ||= d], giving [o] as it is afterwards.  Reading [o[k]] throws on
    [null] and [undefined]; a falsy [o[k]] is assigned to.  The assignment
    creates or updates a property of an object; on an array it creates a
    property that is not an element, which JSON.stringify does not write;
    on a primitive it throws, the module being strict code. *)
Definition or_assign (o : value) (k : string) (d : value) : result value :=
  match o with
  | VUndefined | VNull => Err TypeError
  | VObj ps => Ok (if truthy (prop ps k) then o else VObj (obj_set k d ps))
  | VArr _ => Ok o
  | _ => Err TypeError
  end.

(** [o.field[k] ||= d]: the object held by [o.field] is updated where it is. *)
Definition or_assign_in (o : props) (field k : string) (d : value) : result props :=
  t <- or_assign (prop o field) k d ;;
  Ok (replace field t o).

(** The object that newPackageJson serializes. *)
Definition patched (node : string) (packageJson : value) : result props :=
  let o := spread packageJson in
  let o := obj_set "main" (VStr "server.js") o in
  o <- or_assign_in o "dependencies" "firebase-admin" (VStr FIREBASE_ADMIN_VERSION) ;;
  o <- or_assign_in o "dependencies" "firebase-functions" (VStr FIREBASE_FUNCTIONS_VERSION) ;;
  o <- or_assign_in o "dependencies" "cookie" (VStr COOKIE_VERSION) ;;
  o <- or_assign_in o "dependencies" "lru-cache" (VStr LRU_CACHE_VERSION) ;;
  let o := if truthy (prop o "engines") then o else obj_set "engines" (VObj []) o in
  or_assign_in o "engines" "node" (VStr (NODE_VERSION node)).

Definition newPackageJson (node : string) (packageJson : value) : result string :=
  o <- patched node packageJson ;;
  Ok (JSON_stringify2 (VObj o)).

(** * The specification's terms *)

(** ** The shape of a route manifest

    What the type [Manifest] (lines 24-34) says of the fields the
    translation reads: [headers], [redirects] and [rewrites] are optional;
    [headers] and [redirects] are arrays of objects; the [internal] flag of
    a redirect, when there, is a boolean; [rewrites] is an array of rewrite
    objects or groups them by phase, with [beforeFiles] optional; the [has]
    condition of a rewrite, when there, is an array. *)

Definition is_object (v : value) : bool :=
  match v with VObj _ => true | _ => false end.

Definition optional (ok : value -> bool) (o : option value) : bool :=
  match o with
  | None => true
  | Some v => ok v
  end.

Definition array_of (ok : value -> bool) (v : value) : bool :=
  match v with
  | VArr xs => forallb ok xs
  | _ => false
  end.

Definition is_boolean (v : value) : bool :=
  match v with VBool _ => true | _ => false end.

Definition Redirect_shape (r : value) : bool :=
  match r with
  | VObj ps => optional is_boolean (lookup "internal" ps)
  | _ => false
  end.

Definition Rewrite_shape (r : value) : bool :=
  match r with
  | VObj ps => optional Array_isArray (lookup "has" ps)
  | _ => false
  end.

Definition Rewrites_shape (v : value) : bool :=
  match v with
  | VArr xs => forallb Rewrite_shape xs
  | VObj phases => optional (array_of Rewrite_shape) (lookup "beforeFiles" phases)
  | _ => false
  end.

Definition Manifest_shape (m : value) : bool :=
  match m with
  | VObj ps =>
      optional (array_of is_object) (lookup "headers" ps)
      && optional (array_of Redirect_shape) (lookup "redirects" ps)
      && optional Rewrites_shape (lookup "rewrites" ps)
  | _ => false
  end.

(** ** The output, as the specification describes it *)

(** The field [k] of an entry. *)
Definition field (v : value) (k : string) : value :=
  match v with
  | VObj ps => prop ps k
  | _ => VUndefined
  end.

(** The entries of the sequence [k] of a manifest; none when it is absent. *)
Definition entries (m : value) (k : string) : list value :=
  match field m k with
  | VArr xs => xs
  | _ => []
  end.

Definition header_out (h : value) : value :=
  VObj [("source", field h "source"); ("headers", field h "headers")].

Definition is_internal (r : value) : bool :=
  match field r "internal" with
  | VBool true => true
  | _ => false
  end.

Definition redirect_out (r : value) : value :=
  VObj [("source", field r "source"); ("destination", field r "destination");
        ("type", field r "statusCode")].

(** The candidate rewrites: the flat sequence if [rewrites] is one,
    otherwise the [beforeFiles] phase. *)
Definition rewrite_candidates (m : value) : list value :=
  match field m "rewrites" with
  | VArr xs => xs
  | phases => entries phases "beforeFiles"
  end.

Definition has_condition (r : value) : bool :=
  match r with
  | VObj ps => match lookup "has" ps with Some _ => true | None => false end
  | _ => false
  end.

Definition rewrite_out (r : value) : value :=
  VObj [("source", field r "source"); ("destination", field r "destination")].

(** A JSON text written with apostrophes for its quotation marks. *)
Fixpoint json_text (s : string) : string :=
  match s with
  | EmptyString => EmptyString
  | String c s' => String (if (c =? "'")%char then dquote else c) (json_text s')
  end.


(** ** Example inputs *)

Definition example_config : DeployConfig :=
  {| projectPath := fun parts => join "/" ("/app" :: parts);
     function := Some {| gen := 2; name := "ssr"; region := "us-central1" |} |}.

(** A file system with one file. *)
Definition one_file (path content : string) : filesystem :=
  fun p => if (p =? path)%string then Some content else None.

Definition example_manifest_text : string :=
  json_text "{
  'version': 3,
  'basePath': '',
  'headers': [
    {'source': '/api/:path*', 'regex': '^/api(?:/(.*))?$',
     'headers': [{'key': 'x-frame-options', 'value': 'DENY'}]}
  ],
  'redirects': [
    {'source': '/a', 'destination': '/b', 'statusCode': 301, 'internal': false,
     'regex': '^/a$'},
    {'source': '/x', 'destination': '/y', 'statusCode': 302, 'internal': true,
     'regex': '^/x$'},
    {'source': '/old', 'destination': '/new', 'statusCode': 308, 'regex': '^/old$'}
  ],
  'rewrites': {
    'beforeFiles': [
      {'source': '/p', 'destination': '/q', 'regex': '^/p$'},
      {'source': '/c', 'destination': '/d', 'regex': '^/c$',
       'has': [{'type': 'header', 'key': 'x-c'}]},
      {'source': '/r', 'destination': '/s', 'regex': '^/r$', 'locale': false}
    ],
    'afterFiles': [{'source': '/after', 'destination': '/files', 'regex': '^/after$'}],
    'fallback': [{'source': '/fall', 'destination': '/back', 'regex': '^/fall$'}]
  }
}".

Definition example_manifest : value :=
  VObj [("version", VNum 3);
        ("basePath", VStr "");
        ("headers",
          VArr [VObj [("source", VStr "/api/:path*");
                      ("regex", VStr "^/api(?:/(.*))?$");
                      ("headers",
                        VArr [VObj [("key", VStr "x-frame-options");
                                    ("value", VStr "DENY")]])]]);
        ("redirects",
          VArr [VObj [("source", VStr "/a"); ("destination", VStr "/b");
                      ("statusCode", VNum 301); ("internal", VBool false);
                      ("regex", VStr "^/a$")];
                VObj [("source", VStr "/x"); ("destination", VStr "/y");
                      ("statusCode", VNum 302); ("internal", VBool true);
                      ("regex", VStr "^/x$")];
                VObj [("source", VStr "/old"); ("destination", VStr "/new");
                      ("statusCode", VNum 308); ("regex", VStr "^/old$")]]);
        ("rewrites",
          VObj [("beforeFiles",
                  VArr [VObj [("source", VStr "/p"); ("destination", VStr "/q");
                              ("regex", VStr "^/p$")];
                        VObj [("source", VStr "/c"); ("destination", VStr "/d");
                              ("regex", VStr "^/c$");
                              ("has",
                                VArr [VObj [("type", VStr "header");
                                            ("key", VStr "x-c")]])];
                        VObj [("source", VStr "/r"); ("destination", VStr "/s");
                              ("regex", VStr "^/r$"); ("locale", VBool false)]]);
                ("afterFiles",
                  VArr [VObj [("source", VStr "/after"); ("destination", VStr "/files");
                              ("regex", VStr "^/after$")]]);
                ("fallback",
                  VArr [VObj [("source", VStr "/fall"); ("destination", VStr "/back");
                              ("regex", VStr "^/fall$")]])])].

Definition example_fs : filesystem :=
  one_file "/app/.next/routes-manifest.json" example_manifest_text.

(** ** The patched package manifest, as the specification describes it *)

(** The value [o[k] ||= d] leaves in [o[k]]: the value that was there if it
    is truthy, the default otherwise. *)
Definition kept_or_default (d : string) (o : option value) : value :=
  match o with
  | Some x => if truthy x then x else VStr d
  | None => VStr d
  end.

(** The default version constraint of a runtime dependency, if [k] names one. *)
Definition default_version (k : string) : option string :=
  if (k =? "firebase-admin")%string then Some FIREBASE_ADMIN_VERSION
  else if (k =? "firebase-functions")%string then Some FIREBASE_FUNCTIONS_VERSION
  else if (k =? "cookie")%string then Some COOKIE_VERSION
  else if (k =? "lru-cache")%string then Some LRU_CACHE_VERSION
  else None.

(** A package manifest that pins the empty version range for firebase-admin. *)
Definition pinned_empty : value :=
  VObj [("name", VStr "app");
        ("dependencies", VObj [("firebase-admin", VStr ""); ("next", VStr "12.1.0")])].

(** The [node] entry of the [engines] of a package manifest, if it has one. *)
Definition engines_node (ps : props) : option value :=
  match lookup "engines" ps with
  | Some (VObj engines) => lookup "node" engines
  | _ => None
  end.

(** [engines] is absent, falsy, or an object. *)
Definition engines_fillable (ps : props) : bool :=
  match lookup "engines" ps with
  | None => true
  | Some e => is_object e || negb (truthy e)
  end.

(** [v] is an object with an own property [k]. *)
Definition has_own (v : value) (k : string) : bool :=
  match v with
  | VObj ps => match lookup k ps with Some _ => true | None => false end
  | _ => false
  end.

(** A package manifest that pins firebase-admin and declares an engine. *)
Definition pinned_admin : props :=
  [("name", VStr "app");
   ("main", VStr "index.js");
   ("dependencies", VObj [("firebase-admin", VStr "9.9.9"); ("next", VStr "12.1.0")]);
   ("engines", VObj [("npm", VStr "8")])].

(** ** Text that contains text *)



(** The lines of a text, cut at its line feeds. *)
Fixpoint lines (s : string) : list string :=
  match s with
  | EmptyString => [EmptyString]
  | String c s' =>
      if (c =? LF)%char then EmptyString :: lines s'
      else match lines s' with
           | l :: ls => String c l :: ls
           | [] => [str1 c]
           end
  end.

Fixpoint no_LF (s : string) : bool :=
  match s with
  | EmptyString => true
  | String c s' => negb (c =? LF)%char && no_LF s'
  end.




(** ** The values of JSON texts

    What JSON.parse gives, in this model: no [undefined], integers that a
    number holds exactly, and in every object distinct keys with the array
    indices first, in ascending order. *)

(** [k] may come before [k'] in the enumeration of an object. *)

Definition index_before (k k' : string) : bool :=
  match array_index k, array_index k' with
  | Some i, Some j => (i <=? j)%N
  | Some _, None => true
  | None, Some _ => false
  | None, None => true
  end.

Fixpoint keys_ordered (ks : list string) : bool :=
  match ks with
  | [] => true
  | k :: ks' =>
      forallb (fun k' => negb (k =? k')%string && index_before k k') ks'
      && keys_ordered ks'
  end.

Fixpoint is_JSON (v : value) : bool :=
  match v with
  | VUndefined => false
  | VNull | VBool _ | VStr _ => true
  | VNum n => Z.abs n <=? MAX_SAFE_INTEGER
  | VArr xs => forallb is_JSON xs
  | VObj ps =>
      keys_ordered (map fst ps) && forallb (fun kv => is_JSON (snd kv)) ps
  end.

(** The tokens of the text of a value. *)
Fixpoint tokens (v : value) : list token :=
  match v with
  | VUndefined | VNull => [TNull]
  | VBool true => [TTrue]
  | VBool false => [TFalse]
  | VNum n => [TNumber n]
  | VStr s => [TString s]
  | VArr xs =>
      TLBrack ::
        match xs with
        | [] => []
        | x :: xs' => tokens x ++ flat_map (fun y => TComma :: tokens y) xs'
        end ++ [TRBrack]
  | VObj ps =>
      TLBrace ::
        match ps with
        | [] => []
        | kv :: ps' =>
            TString (fst kv) :: TColon :: tokens (snd kv)
              ++ flat_map (fun kv' =>
                             TComma :: TString (fst kv') :: TColon :: tokens (snd kv'))
                   ps'
        end ++ [TRBrace]
  end%list.

Fixpoint all_ws (s : string) : bool :=
  match s with
  | EmptyString => true
  | String c s' => is_ws c && all_ws s'
  end.

(** The value of a sequence of decimal digits read after [acc]. *)
Fixpoint uint_val (acc : Z) (u : uint) : Z :=
  match u with
  | Nil => acc
  | D0 u' => uint_val (acc * 10 + 0) u'
  | D1 u' => uint_val (acc * 10 + 1) u'
  | D2 u' => uint_val (acc * 10 + 2) u'
  | D3 u' => uint_val (acc * 10 + 3) u'
  | D4 u' => uint_val (acc * 10 + 4) u'
  | D5 u' => uint_val (acc * 10 + 5) u'
  | D6 u' => uint_val (acc * 10 + 6) u'
  | D7 u' => uint_val (acc * 10 + 7) u'
  | D8 u' => uint_val (acc * 10 + 8) u'
  | D9 u' => uint_val (acc * 10 + 9) u'
  end.

(** A text before which a number token ends: the empty text, or one whose
    first character is no digit and starts no fraction or exponent. *)
Definition number_end (s : string) : bool :=
  match s with
  | EmptyString => true
  | String c _ =>
      match digit_of c with
      | Some _ => false
      | None => negb ((c =? ".")%char || (c =? "e")%char || (c =? "E")%char)
      end
  end.

(** Token sequences with a comma between them. *)
Definition separated (l : list (list token)) : list token :=
  match l with
  | [] => []
  | ts :: l' => (ts ++ flat_map (fun ts' => TComma :: ts') l')%list
  end.

(** The text of a value inside an array. *)
Definition text_of (gap indent : string) (v : value) : string :=
  match serialize gap indent v with
  | Some s => s
  | None => "null"
  end.

(** The rest of a joined list, after its first element. *)
Definition joined_rest (sep : string) (l : list string) : string :=
  fold_right (fun t acc => sep ++ t ++ acc) "" l.

(** An item is a text with the tokens it is read as. *)
Definition lexes_as (text : string) (ts : list token) : Prop :=
  forall read rest,
    number_end rest = true ->
    lex_run LStart read (text ++ rest) = lex_run LStart (rev_append ts read) rest.

(** [o[k] ||= d] has nothing left to do on [o]: [o] is an array, or an
    object whose [k] is truthy or holds [d] already. *)
Definition settled (o : value) (k : string) (d : value) : Prop :=
  match o with
  | VArr _ => True
  | VObj ps => exists x, lookup k ps = Some x /\ (truthy x = true \/ x = d)
  | _ => False
  end.

(** A routes manifest whose one header entry is a number. *)
Definition misshapen_manifest_text : string := json_text "{'headers': [5]}".

Definition misshapen_fs : filesystem :=
  one_file "/app/.next/routes-manifest.json" misshapen_manifest_text.

(** A file system with no file. *)
Definition empty_fs : filesystem := fun _ => None.

(** ** What the lexer and the parser maintain *)

Definition token_ok (t : token) : bool :=
  match t with
  | TNumber n => Z.abs n <=? MAX_SAFE_INTEGER
  | _ => true
  end.

Definition lstate_ok (st : lstate) : Prop :=
  match st with
  | LInt _ acc => 0 <= acc
  | LLit _ t => token_ok t = true
  | _ => True
  end.

Definition frame_ok (f : frame) : bool :=
  match f with
  | FArr acc => forallb is_JSON acc
  | FObj acc _ => is_JSON (VObj acc)
  end.

Definition pstate_ok (st : pstate) : bool :=
  match st with
  | PValue stk | PArrayOpen stk | PObjectOpen stk => forallb frame_ok stk
  | PArrayNext acc stk => forallb is_JSON acc && forallb frame_ok stk
  | PObjectKey acc stk | PObjectColon acc _ stk | PObjectNext acc stk =>
      is_JSON (VObj acc) && forallb frame_ok stk
  | PDone v => is_JSON v
  end.

(** * Values of any shape

    The terms that say what the functions do with the value of any JSON
    text, of the expected shape or not. *)

(** ** Route manifests of any shape

    What the translation does with the value of any JSON text, whether or not
    it has the shape of a manifest. *)

(** The properties of [v] can be read: it is neither [null] nor [undefined]. *)
Definition readable (v : value) : bool :=
  match v with
  | VUndefined | VNull => false
  | _ => true
  end.

(** What [{ k = [] } = m] binds: the field, or the empty sequence when the
    field is [undefined]. *)
Definition bound (m : value) (k : string) : value :=
  match field m k with
  | VUndefined => VArr []
  | _ => field m k
  end.

(** The elements of an array; a value that is no array has none. *)
Definition elements (a : value) : list value :=
  match a with
  | VArr xs => xs
  | _ => []
  end.

(** The manifests the translation accepts.  The manifest itself is readable;
    [headers] and [redirects], when there, are arrays of readable entries;
    [rewrites], when there, is an array of readable entries, or is readable
    with a [beforeFiles] that is falsy or an array of readable entries. *)
Definition translatable (m : value) : bool :=
  readable m
  && array_of readable (bound m "headers")
  && array_of readable (bound m "redirects")
  && match bound m "rewrites" with
     | VArr ws => forallb readable ws
     | phases =>
         readable phases
         && (negb (truthy (field phases "beforeFiles"))
             || array_of readable (field phases "beforeFiles"))
     end.

(** A redirect is kept when its [internal] flag is falsy, a rewrite when its
    [has] condition is. *)
Definition redirect_kept (r : value) : bool := negb (truthy (field r "internal")).

Definition rewrite_kept (r : value) : bool := negb (truthy (field r "has")).

(** The result of the translation of an accepted manifest. *)
Definition translated (m : value) : value :=
  VObj [("headers", VArr (map header_out (entries m "headers")));
        ("rewrites", VArr (map rewrite_out (filter rewrite_kept (rewrite_candidates m))));
        ("redirects", VArr (map redirect_out (filter redirect_kept (entries m "redirects"))))].

(** A manifest whose redirects carry flags that are no booleans. *)
Definition flagged_redirects_text : string :=
  json_text "{
  'redirects': [
    {'source': '/a', 'destination': '/b', 'statusCode': 301, 'internal': 'false'},
    {'source': '/c', 'destination': '/d', 'statusCode': 308, 'internal': 0}
  ]
}".

Definition flagged_redirects : value :=
  VObj [("redirects",
          VArr [VObj [("source", VStr "/a"); ("destination", VStr "/b");
                      ("statusCode", VNum 301); ("internal", VStr "false")];
                VObj [("source", VStr "/c"); ("destination", VStr "/d");
                      ("statusCode", VNum 308); ("internal", VNum 0)]])].

(** A manifest with a rewrite whose list of conditions is empty and one
    whose list is [null]. *)
Definition conditioned_rewrites_text : string :=
  json_text "{
  'rewrites': {
    'beforeFiles': [
      {'source': '/p', 'destination': '/q', 'has': []},
      {'source': '/r', 'destination': '/s', 'has': null}
    ]
  }
}".

Definition conditioned_rewrites : value :=
  VObj [("rewrites",
          VObj [("beforeFiles",
                  VArr [VObj [("source", VStr "/p"); ("destination", VStr "/q");
                              ("has", VArr [])];
                        VObj [("source", VStr "/r"); ("destination", VStr "/s");
                              ("has", VNull)]])])].

(** A manifest whose entries are no route descriptions. *)
Definition untyped_entries_text : string :=
  json_text "{
  'headers': [5, {'source': '/a', 'regex': '^/a$', 'has': []}],
  'redirects': [{'internal': 1, 'source': '/b'}, 'y'],
  'rewrites': [{'has': 'x'}, 7]
}".

Definition untyped_entries : value :=
  VObj [("headers",
          VArr [VNum 5;
                VObj [("source", VStr "/a"); ("regex", VStr "^/a$");
                      ("has", VArr [])]]);
        ("redirects",
          VArr [VObj [("internal", VNum 1); ("source", VStr "/b")]; VStr "y"]);
        ("rewrites", VArr [VObj [("has", VStr "x")]; VNum 7])].

(** ** Package manifests of any shape *)

(** A value whose properties can be assigned: an object or an array. *)
Definition assignable (v : value) : bool := is_object v || Array_isArray v.

(** The package manifests that newPackageJson patches: [dependencies] is an
    object or an array, and [engines] is absent, falsy, an object or an
    array. *)
Definition patchable (packageJson : value) : bool :=
  assignable (field packageJson "dependencies")
  && (negb (truthy (field packageJson "engines"))
      || assignable (field packageJson "engines")).

(** The keys among [ks] that [v] has not. *)
Definition missing (v : value) (ks : list string) : list string :=
  filter (fun k => negb (has_own v k)) ks.

(** The text newPackageJson returns for [pinned_admin] under Node.js 16. *)
Definition pinned_admin_patched : string :=
  json_text "{
  'name': 'app',
  'main': 'server.js',
  'dependencies': {
    'firebase-admin': '9.9.9',
    'next': '12.1.0',
    'firebase-functions': '^3.16.0',
    'cookie': '^0.4.2',
    'lru-cache': '^7.3.1'
  },
  'engines': {
    'npm': '8',
    'node': '16'
  }
}".

(** * newPackageJson on objects that are shared

    [{ ...packageJson }] copies the own properties of the package manifest,
    not the objects they refer to: the [dependencies] of the copy are the
    [dependencies] of the caller, and the defaults are assigned there.  To
    say so, objects live in a store and a value is a primitive or a
    reference into the store. *)

Inductive ref_value : Type :=
| RUndefined
| RNull
| RBool (b : bool)
| RNum (n : Z)
| RStr (s : string)
| RRef (l : nat).

Definition ref_props := list (string * ref_value).

Inductive stored : Type :=
| SObj (ps : ref_props)
| SArr (xs : list ref_value).

(** The store: the object of reference [l] is its element of index [l]. *)
Definition store := list stored.

Definition r_truthy (v : ref_value) : bool :=
  match v with
  | RUndefined | RNull => false
  | RBool b => b
  | RNum n => negb (n =? 0)
  | RStr s => negb (s =? "")%string
  | RRef _ => true
  end.

Fixpoint r_lookup (k : string) (ps : ref_props) : option ref_value :=
  match ps with
  | [] => None
  | (k', v) :: ps' => if (k =? k')%string then Some v else r_lookup k ps'
  end.

Definition r_prop (ps : ref_props) (k : string) : ref_value :=
  match r_lookup k ps with
  | Some x => x
  | None => RUndefined
  end.

Fixpoint r_replace (k : string) (v : ref_value) (ps : ref_props) : ref_props :=
  match ps with
  | [] => []
  | (k', x) :: ps' =>
      if (k =? k')%string then (k', v) :: ps' else (k', x) :: r_replace k v ps'
  end.

Fixpoint r_insert_index (i : N) (k : string) (v : ref_value) (ps : ref_props)
  : ref_props :=
  match ps with
  | [] => [(k, v)]
  | (k', x) :: ps' =>
      match array_index k' with
      | Some j =>
          if (j <=? i)%N then (k', x) :: r_insert_index i k v ps'
          else (k, v) :: (k', x) :: ps'
      | None => (k, v) :: (k', x) :: ps'
      end
  end.

(** [o[k] = v] on the own properties of an object, as [obj_set]. *)
Definition r_set (k : string) (v : ref_value) (ps : ref_props) : ref_props :=
  match r_lookup k ps with
  | Some _ => r_replace k v ps
  | None =>
      match array_index k with
      | Some i => r_insert_index i k v ps
      | None => (ps ++ [(k, v)])%list
      end
  end.

Fixpoint update (l : nat) (o : stored) (st : store) : store :=
  match st, l with
  | [], _ => []
  | _ :: st', O => o :: st'
  | x :: st', S l' => x :: update l' o st'
  end.

Fixpoint r_indexed (i : nat) (xs : list ref_value) : ref_props :=
  match xs with
  | [] => []
  | x :: xs' => (Number_toString (Z.of_nat i), x) :: r_indexed (S i) xs'
  end.

Fixpoint r_characters (s : string) : list ref_value :=
  match s with
  | EmptyString => []
  | String c s' => RStr (str1 c) :: r_characters s'
  end.

(** [{ ...v }]: the own enumerable properties of [v], as they are in the
    store; what they refer to is not copied. *)
Definition r_spread (st : store) (v : ref_value) : ref_props :=
  match v with
  | RRef l =>
      match nth_error st l with
      | Some (SObj ps) => ps
      | Some (SArr xs) => r_indexed 0 xs
      | None => []
      end
  | RStr s => r_indexed 0 (r_characters s)
  | _ => []
  end.

(** [o.k] for the object of reference [l]. *)
Definition read (st : store) (l : nat) (k : string) : ref_value :=
  match nth_error st l with
  | Some (SObj ps) => r_prop ps k
  | _ => RUndefined
  end.

(** [o.k = v] for the object of reference [l]. *)
Definition write (st : store) (l : nat) (k : string) (v : ref_value) : store :=
  match nth_error st l with
  | Some (SObj ps) => update l (SObj (r_set k v ps)) st
  | _ => st
  end.

(** [t[k] ||= d], giving the store as it is afterwards; [t] is the value of
    [o.field].  As [or_assign], with the object assigned to where it is.  A
    reference to no object of the store is the reference of no value. *)
Definition r_or_assign (st : store) (t : ref_value) (k : string) (d : ref_value)
  : result store :=
  match t with
  | RRef l =>
      match nth_error st l with
      | Some (SObj ps) =>
          Ok (if r_truthy (r_prop ps k) then st else update l (SObj (r_set k d ps)) st)
      | Some (SArr _) => Ok st
      | None => Err TypeError
      end
  | _ => Err TypeError
  end.

Fixpoint traverse {A B} (f : A -> option B) (l : list A) : option (list B) :=
  match l with
  | [] => Some []
  | x :: l' =>
      match f x, traverse f l' with
      | Some y, Some ys => Some (y :: ys)
      | _, _ => None
      end
  end.

(** [f] on the value of a property. *)
Definition on_entry {A B} (f : A -> option B) (kv : string * A) : option (string * B) :=
  option_map (pair (fst kv)) (f (snd kv)).

(** The value a reference denotes, read through the store to the depth
    [fuel]; [None] when the depth does not suffice. *)
Fixpoint view (fuel : nat) (st : store) (v : ref_value) : option value :=
  match v with
  | RUndefined => Some VUndefined
  | RNull => Some VNull
  | RBool b => Some (VBool b)
  | RNum n => Some (VNum n)
  | RStr s => Some (VStr s)
  | RRef l =>
      match fuel with
      | O => None
      | S fuel' =>
          match nth_error st l with
          | Some (SObj ps) =>
              option_map VObj
                (traverse (on_entry (view fuel' st)) ps)
          | Some (SArr xs) => option_map VArr (traverse (view fuel' st) xs)
          | None => None
          end
      end
  end.

(** [JSON.stringify(v, null, 2)] for a value in the store.  A chain of more
    references than the store has objects goes through one of them twice:
    the structure is circular, and JSON.stringify throws. *)
Definition r_stringify2 (st : store) (v : ref_value) : result string :=
  match view (S (List.length st)) st v with
  | Some x => Ok (JSON_stringify2 x)
  | None => Err TypeError
  end.

(** A step that may throw.  The store of a call that throws is the one the
    step that threw has found: what the steps before it have written stays
    written. *)
Definition step {A} (st : store) (r : result store)
  (k : store -> store * result A) : store * result A :=
  match r with
  | Ok st' => k st'
  | Err e => (st, Err e)
  end.

(** newPackageJson (lines 184-196) on a package manifest in the store: the
    store after the call, and the text returned or the exception thrown. *)
Definition newPackageJson_st (node : string) (packageJson : ref_value) (st : store)
  : store * result string :=
  let newPackageJSON := List.length st in
  let st := (st ++ [SObj (r_spread st packageJson)])%list in
  let st := write st newPackageJSON "main" (RStr "server.js") in
  step st (r_or_assign st (read st newPackageJSON "dependencies") "firebase-admin"
             (RStr FIREBASE_ADMIN_VERSION)) (fun st =>
  step st (r_or_assign st (read st newPackageJSON "dependencies") "firebase-functions"
             (RStr FIREBASE_FUNCTIONS_VERSION)) (fun st =>
  step st (r_or_assign st (read st newPackageJSON "dependencies") "cookie"
             (RStr COOKIE_VERSION)) (fun st =>
  step st (r_or_assign st (read st newPackageJSON "dependencies") "lru-cache"
             (RStr LRU_CACHE_VERSION)) (fun st =>
  let st :=
    if r_truthy (read st newPackageJSON "engines") then st
    else write (st ++ [SObj []])%list newPackageJSON "engines" (RRef (List.length st)) in
  step st (r_or_assign st (read st newPackageJSON "engines") "node"
             (RStr (NODE_VERSION node))) (fun st =>
  (st, r_stringify2 st (RRef newPackageJSON))))))).

(** A call that returns: the store after the call and the text returned. *)
Definition newPackageJson_in (node : string) (st : store) (packageJson : ref_value)
  : result (store * string) :=
  text <- snd (newPackageJson_st node packageJson st) ;;
  Ok (fst (newPackageJson_st node packageJson st), text).

(** The value [t[k] ||= d] leaves in [t[k]]. *)
Definition r_kept_or_default (d : string) (o : option ref_value) : ref_value :=
  match o with
  | Some x => if r_truthy x then x else RStr d
  | None => RStr d
  end.

(** A store with the package manifest [pinned_admin]: its dependencies, its
    engines, and the manifest itself. *)
Definition pinned_admin_store : store :=
  [SObj [("firebase-admin", RStr "9.9.9"); ("next", RStr "12.1.0")];
   SObj [("npm", RStr "8")];
   SObj [("name", RStr "app"); ("main", RStr "index.js");
         ("dependencies", RRef 0); ("engines", RRef 1)]].

(** ** Package manifests that share no object

    The store that holds a value and nothing else: every object and every
    array of the value gets a reference of its own, the elements before the
    array and the properties before the object. *)

Section LoadAll.
Context {A : Type}.
Variable load_one : A -> store -> ref_value * store.

Fixpoint load_all (l : list A) (st : store) : list ref_value * store :=
  match l with
  | [] => ([], st)
  | x :: l' =>
      let '(r, st1) := load_one x st in
      let '(rs, st2) := load_all l' st1 in
      (r :: rs, st2)
  end.
End LoadAll.

(** The value [v] put in the store [st]: what it is in the store, and the
    store with its objects and arrays. *)
Fixpoint load (v : value) (st : store) : ref_value * store :=
  match v with
  | VUndefined => (RUndefined, st)
  | VNull => (RNull, st)
  | VBool b => (RBool b, st)
  | VNum n => (RNum n, st)
  | VStr s => (RStr s, st)
  | VArr xs =>
      let '(rs, st') := load_all load xs st in
      (RRef (List.length st'), (st' ++ [SArr rs])%list)
  | VObj ps =>
      let '(rs, st') := load_all (fun kv => load (snd kv)) ps st in
      (RRef (List.length st'), (st' ++ [SObj (combine (map fst ps) rs)])%list)
  end.

(** The objects and arrays of a value. *)
Fixpoint cells (v : value) : nat :=
  match v with
  | VArr xs => S (list_sum (map cells xs))
  | VObj ps => S (list_sum (map (fun kv => cells (snd kv)) ps))
  | _ => O
  end.

(** The text of a call, the store left aside. *)
Definition text_of_call (r : result (store * string)) : result string :=
  out <- r ;; Ok (snd out).

(** *** The terms of the proof *)

(** A store that has the objects of a loaded value where the value was
    loaded shows the value there, at any depth that suffices. *)
Definition shows (v : value) : Prop :=
  forall st sf n,
    (cells v <= n)%nat ->
    (forall l, (List.length st <= l < List.length st + cells v)%nat ->
       nth_error sf l = nth_error (snd (load v st)) l) ->
    view n sf (fst (load v st)) = Some v.

(** [t[k] ||= d] on the own properties of an object, in the store and as a
    value, and on what a reference refers to. *)
Definition r_assign (k : string) (d : ref_value) (ps : ref_props) : ref_props :=
  if r_truthy (r_prop ps k) then ps else r_set k d ps.

Definition r_assign_cell (k : string) (d : ref_value) (c : stored) : stored :=
  match c with
  | SObj ps => SObj (r_assign k d ps)
  | SArr xs => SArr xs
  end.

Definition assign (k : string) (d : value) (ps : props) : props :=
  if truthy (prop ps k) then ps else obj_set k d ps.

Definition assign_value (k : string) (d : value) (t : value) : value :=
  match t with
  | VObj ps => VObj (assign k d ps)
  | _ => t
  end.

(** The object or array [c] of the store, read to the depth [m], is the
    value [t]. *)
Definition cell_views (m : nat) (st : store) (c : stored) (t : value) : Prop :=
  match c, t with
  | SObj rps, VObj vs => traverse (on_entry (view m st)) rps = Some vs
  | SArr rs, VArr xs => traverse (view m st) rs = Some xs
  | _, _ => False
  end.

(** An object of a loaded value that the call has written to: its
    reference, what was done to it in the store, and what that does to the
    value. *)
Definition exception : Type := nat * (stored -> stored) * (value -> value).

Definition keeps_views (st : store) (tr : stored -> stored) (g : value -> value) : Prop :=
  forall m c t, cell_views m st c t -> cell_views m st (tr c) (g t).

(** The exceptions without the one of the key [k]. *)
Definition without (k : string) (x : string -> option exception)
  : string -> option exception :=
  fun k' => if (k' =? k)%string then None else x k'.

(** The properties [ps] with, for each key that has an exception, its first
    value changed as the exception says. *)
Fixpoint repl_all (x : string -> option exception) (ps : props) : props :=
  match ps with
  | [] => []
  | (k, v) :: ps' =>
      (k, match x k with Some (_, _, g) => g v | None => v end)
        :: repl_all (without k x) ps'
  end.

(** The value of [k] changed by [g], if there is one. *)
Definition changed (k : string) (g : value -> value) (ps : props) : props :=
  match lookup k ps with
  | Some v => replace k (g v) ps
  | None => ps
  end.

(** Exceptions for two keys. *)
Definition excepting (k1 : string) (e1 : exception) (k2 : string) (e2 : option exception)
  : string -> option exception :=
  fun k => if (k =? k1)%string then Some e1
           else if (k =? k2)%string then e2 else None.

(** The four dependency defaults, on an object of the store and on a value. *)
Definition r_fill_dependencies (c : stored) : stored :=
  r_assign_cell "lru-cache" (RStr LRU_CACHE_VERSION)
    (r_assign_cell "cookie" (RStr COOKIE_VERSION)
       (r_assign_cell "firebase-functions" (RStr FIREBASE_FUNCTIONS_VERSION)
          (r_assign_cell "firebase-admin" (RStr FIREBASE_ADMIN_VERSION) c))).

Definition fill_dependencies (t : value) : value :=
  assign_value "lru-cache" (VStr LRU_CACHE_VERSION)
    (assign_value "cookie" (VStr COOKIE_VERSION)
       (assign_value "firebase-functions" (VStr FIREBASE_FUNCTIONS_VERSION)
          (assign_value "firebase-admin" (VStr FIREBASE_ADMIN_VERSION) t))).

(** A store with a package manifest whose [engines] is a text. *)
Definition engines_text_store : store :=
  [SObj [("next", RStr "12.1.0")];
   SObj [("name", RStr "app"); ("dependencies", RRef 0); ("engines", RStr ">=14")]].

(** A store with a package manifest whose [dependencies] and [engines] are
    one object. *)
Definition shared_engines_store : store :=
  [SObj [("next", RStr "12.1.0")];
   SObj [("name", RStr "app"); ("dependencies", RRef 0); ("engines", RRef 0)]].

(** * The JavaScript runtime: proofs *)

(** Case analysis on every condition of the goal. *)
Ltac split_ifs :=
  repeat match goal with
         | |- context [if ?b then _ else _] => destruct b
         end.

(** A step that must have succeeded for the whole to succeed. *)
Ltac succeeded r x E :=
  destruct r as [x|] eqn:E; cbn [bind]; [|discriminate].

(** ** Lists under a fallible function *)

Lemma mapM_total {A B} (f : A -> result B) (g : A -> B) (l : list A) :
  Forall (fun x => f x = Ok (g x)) l -> mapM f l = Ok (map g l).
Proof.
  induction 1 as [|x l Hx _ IH]; simpl.
  - reflexivity.
  - rewrite Hx; simpl. rewrite IH. reflexivity.
Qed.

Lemma filterM_total {A} (f : A -> result bool) (g : A -> bool) (l : list A) :
  Forall (fun x => f x = Ok (g x)) l -> filterM f l = Ok (filter g l).
Proof.
  induction 1 as [|x l Hx _ IH]; simpl.
  - reflexivity.
  - rewrite Hx; simpl. rewrite IH; simpl. destruct (g x); reflexivity.
Qed.

Lemma forallb_Forall {A} (p : A -> bool) (l : list A) :
  forallb p l = true -> Forall (fun x => p x = true) l.
Proof.
  intros H. apply Forall_forall. intros x Hx.
  exact (proj1 (forallb_forall p l) H x Hx).
Qed.

Lemma Forall_filter {A} (P : A -> Prop) (p : A -> bool) (l : list A) :
  Forall P l -> Forall P (filter p l).
Proof.
  induction 1 as [|x l Hx _ IH]; simpl; [constructor|].
  destruct (p x); [constructor|]; assumption.
Qed.

(** ** Own properties *)

Lemma lookup_replace_same (k : string) (v : value) (ps : props) :
  lookup k ps <> None -> lookup k (replace k v ps) = Some v.
Proof.
  induction ps as [|[k' x] ps IH]; simpl; [congruence|].
  destruct (k =? k')%string eqn:E; simpl; rewrite E; [reflexivity|exact IH].
Qed.

Lemma lookup_replace_other (k k' : string) (v : value) (ps : props) :
  k' <> k -> lookup k' (replace k v ps) = lookup k' ps.
Proof.
  intros Hne. induction ps as [|[k0 x] ps IH]; simpl; [reflexivity|].
  destruct (k =? k0)%string eqn:E; simpl.
  - apply String.eqb_eq in E. subst k0.
    apply String.eqb_neq in Hne. rewrite Hne. reflexivity.
  - destruct (k' =? k0)%string; [reflexivity|exact IH].
Qed.

Lemma lookup_app (k : string) (ps qs : props) :
  lookup k (ps ++ qs)%list
  = match lookup k ps with Some x => Some x | None => lookup k qs end.
Proof.
  induction ps as [|[k' x] ps IH]; simpl; [reflexivity|].
  destruct (k =? k')%string; [reflexivity|exact IH].
Qed.

Lemma lookup_insert_index (k' : string) (i : N) (k : string) (v : value) (ps : props) :
  lookup k ps = None ->
  lookup k' (insert_index i k v ps)
  = if (k' =? k)%string then Some v else lookup k' ps.
Proof.
  induction ps as [|[k0 x] ps IH]; simpl.
  - destruct (k' =? k)%string; reflexivity.
  - destruct (k =? k0)%string eqn:Ek; [discriminate|]. intros Hnone.
    specialize (IH Hnone).
    destruct (array_index k0) as [j|]; [destruct (j <=? i)%N|]; simpl;
      destruct (k' =? k)%string eqn:E; try rewrite IH;
      destruct (k' =? k0)%string eqn:E0; try reflexivity.
    apply String.eqb_eq in E, E0. subst. rewrite String.eqb_refl in Ek.
    discriminate.
Qed.

Lemma lookup_obj_set_same (k : string) (v : value) (ps : props) :
  lookup k (obj_set k v ps) = Some v.
Proof.
  unfold obj_set. destruct (lookup k ps) eqn:E.
  - apply lookup_replace_same. congruence.
  - destruct (array_index k).
    + rewrite lookup_insert_index, String.eqb_refl by exact E. reflexivity.
    + rewrite lookup_app, E. simpl. rewrite String.eqb_refl. reflexivity.
Qed.

Lemma lookup_obj_set_other (k k' : string) (v : value) (ps : props) :
  k' <> k -> lookup k' (obj_set k v ps) = lookup k' ps.
Proof.
  intros Hne. unfold obj_set. destruct (lookup k ps) eqn:E.
  - apply lookup_replace_other, Hne.
  - apply String.eqb_neq in Hne. destruct (array_index k).
    + rewrite lookup_insert_index, Hne by exact E. reflexivity.
    + rewrite lookup_app. simpl. rewrite Hne.
      destruct (lookup k' ps); reflexivity.
Qed.

Lemma prop_obj_set_other (k k' : string) (v : value) (ps : props) :
  k' <> k -> prop (obj_set k v ps) k' = prop ps k'.
Proof. intros H. unfold prop. rewrite lookup_obj_set_other by exact H. reflexivity. Qed.

(** ** Strings *)

Lemma append_assoc (a b c : string) : (a ++ b) ++ c = a ++ (b ++ c).
Proof. induction a as [|x a IH]; simpl; [reflexivity|]. rewrite IH. reflexivity. Qed.

Lemma append_nil_r (a : string) : a ++ "" = a.
Proof. induction a as [|x a IH]; simpl; [reflexivity|]. rewrite IH. reflexivity. Qed.

(** Strings built by concatenation, nested to the right. *)
Ltac right_nested := repeat first [rewrite !append_assoc | progress cbn [append]].






(** *** Lines *)

Lemma lines_nonempty (s : string) : lines s <> [].
Proof.
  induction s as [|c s IH]; simpl; [discriminate|].
  destruct (c =? LF)%char; [discriminate|].
  destruct (lines s); discriminate.
Qed.

Lemma lines_no_LF (s rest : string) :
  no_LF s = true ->
  lines (s ++ rest) = (s ++ hd "" (lines rest)) :: tl (lines rest).
Proof.
  induction s as [|c s IH]; simpl; intros H.
  - destruct (lines rest) eqn:E; [exfalso; exact (lines_nonempty rest E)|reflexivity].
  - apply andb_prop in H as [Hc H]. apply negb_true_iff in Hc. rewrite Hc.
    rewrite (IH H). reflexivity.
Qed.



Lemma no_LF_app (a b : string) : no_LF (a ++ b) = no_LF a && no_LF b.
Proof.
  induction a as [|c a IH]; simpl; [reflexivity|].
  rewrite IH. apply andb_assoc.
Qed.

Lemma lines_app (a b : string) :
  lines (a ++ b)
  = (removelast (lines a)
       ++ (last (lines a) "" ++ hd "" (lines b))%string :: tl (lines b))%list.
Proof.
  induction a as [|c a IH]; cbn [append lines].
  - pose proof (lines_nonempty b) as Hb.
    destruct (lines b); [contradiction|reflexivity].
  - rewrite IH. pose proof (lines_nonempty a) as Ha.
    destruct (lines a) as [|l ls]; [contradiction|].
    destruct (c =? LF)%char; [reflexivity|].
    destruct ls as [|l' ls]; reflexivity.
Qed.

(** *** Quoted strings have no line feed *)

Lemma quote_char_no_LF (c : ascii) : no_LF (quote_char c) = true.
Proof. destruct c as [[] [] [] [] [] [] [] []]; reflexivity. Qed.

Lemma quote_body_no_LF (s : string) : no_LF (quote_body s) = true.
Proof.
  induction s as [|c s IH]; simpl; [reflexivity|].
  rewrite no_LF_app, quote_char_no_LF, IH. reflexivity.
Qed.

Lemma QuoteJSONString_no_LF (s : string) : no_LF (QuoteJSONString s) = true.
Proof.
  unfold QuoteJSONString. cbn [no_LF]. rewrite no_LF_app, quote_body_no_LF.
  reflexivity.
Qed.

(** * JSON.parse of JSON.stringify *)

(** ** The order of own properties *)

Lemma keys_ordered_app_l (ks ks' : list string) :
  keys_ordered (ks ++ ks')%list = true -> keys_ordered ks = true.
Proof.
  induction ks as [|k ks IH]; cbn [keys_ordered List.app]; [reflexivity|].
  intros H. apply andb_prop in H as [Hk H].
  rewrite forallb_app in Hk. apply andb_prop in Hk as [Hk _].
  rewrite Hk, (IH H). reflexivity.
Qed.

Lemma last_key_is_new (acc : props) (k : string) (v : value) :
  keys_ordered (map fst acc ++ [k])%list = true ->
  lookup k acc = None /\
  forall i, array_index k = Some i ->
            insert_index i k v acc = (acc ++ [(k, v)])%list.
Proof.
  induction acc as [|[k0 x] acc IH]; cbn [map fst List.app keys_ordered lookup insert_index].
  - intros _. split; reflexivity.
  - intros H. apply andb_prop in H as [Hk H].
    rewrite forallb_app in Hk. apply andb_prop in Hk as [_ Hk].
    cbn [forallb] in Hk. rewrite andb_true_r in Hk.
    apply andb_prop in Hk as [Hne Hbefore]. apply negb_true_iff in Hne.
    destruct (IH H) as [Hnone Hins].
    rewrite String.eqb_sym, Hne. split; [exact Hnone|].
    intros i Hi. unfold index_before in Hbefore. rewrite Hi in Hbefore.
    destruct (array_index k0) as [j|]; [|discriminate].
    rewrite Hbefore, (Hins i Hi). reflexivity.
Qed.

Lemma obj_set_last (acc : props) (k : string) (v : value) :
  keys_ordered (map fst acc ++ [k])%list = true ->
  obj_set k v acc = (acc ++ [(k, v)])%list.
Proof.
  intros H. destruct (last_key_is_new acc k v H) as [Hnone Hins].
  unfold obj_set. rewrite Hnone.
  destruct (array_index k) as [i|]; [apply Hins|]; reflexivity.
Qed.

(** ** From the tokens of a value to the value *)

Lemma array_open_value (v : value) (stk : list frame) (rest : list token) :
  parse_run (PArrayOpen stk) (tokens v ++ rest)%list
  = parse_run (PValue (FArr [] :: stk)) (tokens v ++ rest)%list.
Proof. destruct v as [| |[]| | | |]; reflexivity. Qed.

Lemma parse_elements (stk : list frame) (rest : list token) (xs : list value) :
  Forall (fun x => is_JSON x = true ->
                   forall stk rest,
                     parse_run (PValue stk) (tokens x ++ rest)%list
                     = parse_run (deliver x stk) rest) xs ->
  forallb is_JSON xs = true ->
  forall acc,
    parse_run (PArrayNext acc stk)
      (flat_map (fun y => TComma :: tokens y) xs ++ TRBrack :: rest)%list
    = parse_run (deliver (VArr (acc ++ xs)%list) stk) rest.
Proof.
  induction xs as [|y xs IHxs]; intros HF Hall acc.
  - rewrite List.app_nil_r. reflexivity.
  - inversion HF as [|? ? Hy HF']; subst.
    cbn [forallb] in Hall. apply andb_prop in Hall as [Hyj Hall].
    cbn [flat_map]. rewrite <- List.app_assoc. cbn [List.app parse_run pstep bind].
    rewrite (Hy Hyj). cbn [deliver].
    rewrite (IHxs HF' Hall), <- List.app_assoc. reflexivity.
Qed.

Lemma parse_members (stk : list frame) (rest : list token) (ps : props) :
  Forall (fun kv => is_JSON (snd kv) = true ->
                    forall stk rest,
                      parse_run (PValue stk) (tokens (snd kv) ++ rest)%list
                      = parse_run (deliver (snd kv) stk) rest) ps ->
  forallb (fun kv => is_JSON (snd kv)) ps = true ->
  forall acc,
    keys_ordered (map fst (acc ++ ps)%list) = true ->
    parse_run (PObjectNext acc stk)
      (flat_map (fun kv => TComma :: TString (fst kv) :: TColon :: tokens (snd kv)) ps
         ++ TRBrace :: rest)%list
    = parse_run (deliver (VObj (acc ++ ps)%list) stk) rest.
Proof.
  induction ps as [|[k y] ps IHps]; intros HF Hj acc Hord.
  - rewrite List.app_nil_r. reflexivity.
  - inversion HF as [|? ? Hy HF']; subst. cbn [snd] in Hy.
    cbn [forallb snd] in Hj. apply andb_prop in Hj as [Hyj Hj].
    cbn [flat_map fst snd]. rewrite <- List.app_assoc. cbn [List.app parse_run pstep bind].
    rewrite (Hy Hyj). cbn [deliver].
    assert (Hlast : obj_set k y acc = (acc ++ [(k, y)])%list).
    { apply obj_set_last.
      apply (keys_ordered_app_l _ (map fst ps)).
      rewrite <- List.app_assoc. cbn [List.app].
      rewrite map_app in Hord. exact Hord. }
    rewrite Hlast.
    rewrite (IHps HF' Hj), <- List.app_assoc; [reflexivity|].
    rewrite <- List.app_assoc. exact Hord.
Qed.

Lemma parse_tokens (v : value) :
  is_JSON v = true ->
  forall stk rest,
    parse_run (PValue stk) (tokens v ++ rest)%list = parse_run (deliver v stk) rest.
Proof.
  induction v as [| |b|n|s|xs IH|ps IH] using value_ind; intros Hv stk rest;
    try discriminate Hv; try reflexivity.
  - destruct b; reflexivity.
  - cbn [is_JSON] in Hv.
    destruct xs as [|x xs]; [reflexivity|].
    inversion IH as [|? ? Hx HF]; subst.
    cbn [forallb] in Hv. apply andb_prop in Hv as [Hxj Hall].
    cbn [tokens List.app parse_run pstep pvalue bind].
    rewrite <- !List.app_assoc. rewrite array_open_value, (Hx Hxj). cbn [deliver List.app].
    apply (parse_elements stk rest xs HF Hall [x]).
  - cbn [is_JSON] in Hv. apply andb_prop in Hv as [Hkeys Hall].
    destruct ps as [|[k x] ps]; [reflexivity|].
    inversion IH as [|? ? Hx HF]; subst. cbn [snd] in Hx.
    cbn [forallb snd] in Hall. apply andb_prop in Hall as [Hxj Hall].
    cbn [tokens fst snd List.app parse_run pstep pvalue bind].
    rewrite <- !List.app_assoc. rewrite (Hx Hxj). cbn [deliver].
    assert (Hfirst : obj_set k x [] = [(k, x)]).
    { unfold obj_set. cbn [lookup insert_index List.app].
      destruct (array_index k); reflexivity. }
    rewrite Hfirst.
    apply (parse_members stk rest ps HF Hall [(k, x)] Hkeys).
Qed.

(** ** From the text of a value to its tokens *)

Lemma lex_ws (w s : string) (read : list token) :
  all_ws w = true -> lex_run LStart read (w ++ s) = lex_run LStart read s.
Proof.
  induction w as [|c w IH]; cbn [all_ws append]; intros H; [reflexivity|].
  apply andb_prop in H as [Hc H]. cbn [lex_run lstep]. unfold lex_start.
  rewrite Hc. cbn [bind fst snd rev_append]. apply IH, H.
Qed.

Lemma all_ws_app (a b : string) : all_ws (a ++ b) = all_ws a && all_ws b.
Proof.
  induction a as [|c a IH]; cbn [all_ws append]; [reflexivity|].
  rewrite IH. apply andb_assoc.
Qed.

(** *** Strings *)

Lemma lex_quote_char (c : ascii) (a : string) (read : list token) (rest : string) :
  lex_run (LStr a) read (quote_char c ++ rest)
  = lex_run (LStr (a ++ str1 c)) read rest.
Proof. destruct c as [[] [] [] [] [] [] [] []]; reflexivity. Qed.

Lemma lex_quote_body (s a : string) (read : list token) (rest : string) :
  lex_run (LStr a) read (quote_body s ++ String dquote rest)
  = lex_run LStart (TString (a ++ s) :: read) rest.
Proof.
  revert a. induction s as [|c s IH]; intros a.
  - rewrite append_nil_r. reflexivity.
  - cbn [quote_body]. rewrite append_assoc, lex_quote_char, IH.
    rewrite append_assoc. reflexivity.
Qed.

Lemma lex_string (s : string) (read : list token) (rest : string) :
  lex_run LStart read (QuoteJSONString s ++ rest)
  = lex_run LStart (TString s :: read) rest.
Proof.
  unfold QuoteJSONString. cbn [append]. rewrite append_assoc.
  change (lex_run LStart read (String dquote (quote_body s ++ str1 dquote ++ rest)))
    with (lex_run (LStr "") read (quote_body s ++ String dquote rest)).
  apply lex_quote_body.
Qed.

(** *** Numbers *)

Lemma lex_digits (u : uint) (neg : bool) (acc : Z) (read : list token) (rest : string) :
  lex_run (LInt neg acc) read (NilEmpty.string_of_uint u ++ rest)
  = lex_run (LInt neg (uint_val acc u)) read rest.
Proof.
  revert acc. induction u; intros acc; cbn [NilEmpty.string_of_uint append uint_val];
    [reflexivity|..]; apply IHu.
Qed.

Lemma uint_val_of_uint_acc (u : uint) (a : positive) :
  Z.pos (Pos.of_uint_acc u a) = uint_val (Z.pos a) u.
Proof.
  revert a. induction u; intros a; cbn [Pos.of_uint_acc uint_val];
    [reflexivity|..]; rewrite IHu; f_equal; lia.
Qed.

(** The digits of a positive number do not start with a zero. *)
Lemma to_uint_no_leading_zero (p : positive) (u : uint) : Pos.to_uint p <> D0 u.
Proof.
  intros E.
  pose proof (DecimalPos.Unsigned.to_of (Pos.to_uint p)) as H.
  rewrite DecimalPos.Unsigned.of_to in H.
  change (N.to_uint (N.pos p)) with (Pos.to_uint p) in H.
  rewrite E in H. unfold unorm in H. rewrite nzhead_D0 in H.
  destruct (nzhead u) eqn:Hn.
  - injection H as Hu. subst u. exact (DecimalPos.Unsigned.to_uint_nonzero p E).
  - rewrite <- Hn in H. exact (nzhead_nonzero u u (eq_sym H)).
  - discriminate H.
  - discriminate H.
  - discriminate H.
  - discriminate H.
  - discriminate H.
  - discriminate H.
  - discriminate H.
  - discriminate H.
  - discriminate H.
Qed.

Lemma lex_positive (p : positive) (neg : bool) (read : list token) (rest : string) :
  lex_run (if neg then LMinus else LStart) read
    (NilEmpty.string_of_uint (Pos.to_uint p) ++ rest)
  = lex_run (LInt neg (Z.pos p)) read rest.
Proof.
  pose proof (DecimalPos.Unsigned.of_to p) as Hval.
  pose proof (to_uint_no_leading_zero p) as Hnz.
  pose proof (DecimalPos.Unsigned.to_uint_nonnil p) as Hnn.
  destruct (Pos.to_uint p) as [|u|u|u|u|u|u|u|u|u|u];
    [contradiction|exfalso; exact (Hnz u eq_refl)|..];
    cbn [Pos.of_uint] in Hval; injection Hval as Hval;
    rewrite <- Hval, uint_val_of_uint_acc;
    destruct neg; cbn [NilEmpty.string_of_uint append];
    exact (lex_digits u _ _ read rest).
Qed.

(** A number token ends where the text ends or goes on with something else. *)
Lemma lex_number_end (neg : bool) (acc : Z) (read : list token) (rest : string) :
  (acc <=? MAX_SAFE_INTEGER) = true ->
  number_end rest = true ->
  lex_run (LInt neg acc) read rest
  = lex_run LStart (TNumber (if neg then - acc else acc) :: read) rest.
Proof.
  intros Hsafe Hend. destruct rest as [|c rest].
  - cbn [lex_run lex_end]. unfold number_token. rewrite Hsafe. reflexivity.
  - cbn [number_end] in Hend. cbn [lex_run lstep].
    destruct (digit_of c); [discriminate|].
    apply negb_true_iff in Hend. unfold lex_after_int, number_token.
    rewrite Hend, Hsafe. cbn [bind].
    destruct (lex_start c) as [[st ts]|e]; reflexivity.
Qed.

Lemma lex_zero_end (read : list token) (rest : string) :
  number_end rest = true ->
  lex_run (LZero false) read rest = lex_run LStart (TNumber 0 :: read) rest.
Proof.
  intros Hend. destruct rest as [|c rest].
  - reflexivity.
  - cbn [number_end] in Hend. cbn [lex_run lstep].
    destruct (digit_of c); [discriminate|].
    apply negb_true_iff in Hend. unfold lex_after_int.
    rewrite Hend. cbn [bind number_token Z.leb Z.compare MAX_SAFE_INTEGER].
    destruct (lex_start c) as [[st ts]|e]; reflexivity.
Qed.

Lemma lex_number (n : Z) (read : list token) (rest : string) :
  (Z.abs n <=? MAX_SAFE_INTEGER) = true ->
  number_end rest = true ->
  lex_run LStart read (Number_toString n ++ rest)
  = lex_run LStart (TNumber n :: read) rest.
Proof.
  intros Hsafe Hend. destruct n as [|p|p]; cbn [Number_toString].
  - exact (lex_zero_end read rest Hend).
  - rewrite (lex_positive p false). exact (lex_number_end false _ read rest Hsafe Hend).
  - cbn [append]. change (lex_run LStart read (String "-" ?s)) with (lex_run LMinus read s).
    rewrite (lex_positive p true). exact (lex_number_end true _ read rest Hsafe Hend).
Qed.

(** *** Arrays and objects *)

Lemma rev_append_app {A} (a b r : list A) :
  rev_append (a ++ b)%list r = rev_append b (rev_append a r).
Proof. revert r. induction a as [|x a IH]; intros r; simpl; [reflexivity|apply IH]. Qed.

Lemma number_end_ws (c : ascii) (s : string) :
  is_ws c = true -> number_end (String c s) = true.
Proof.
  unfold is_ws. intros H.
  repeat (apply orb_prop in H as [H|H]); apply Ascii.eqb_eq in H; subst c; reflexivity.
Qed.

Lemma number_end_ws_then (w : string) (c : ascii) (s : string) :
  all_ws w = true -> number_end (String c s) = true ->
  number_end (w ++ String c s) = true.
Proof.
  destruct w as [|c' w]; cbn [all_ws append]; intros Hw Hc; [exact Hc|].
  apply andb_prop in Hw as [Hw _]. apply number_end_ws, Hw.
Qed.

Lemma join_cons (sep s : string) (l : list string) :
  join sep (s :: l) = s ++ joined_rest sep l.
Proof.
  revert s. induction l as [|t l IH]; intros s.
  - cbn. rewrite append_nil_r. reflexivity.
  - change (join sep (s :: t :: l)) with (s ++ sep ++ join sep (t :: l)).
    rewrite IH. reflexivity.
Qed.

Lemma wrap_nonempty (o c gap stepback s : string) (l : list string) :
  all_ws gap = true -> all_ws stepback = true ->
  exists w1 w2,
    all_ws w1 = true /\ all_ws w2 = true /\
    wrap o c gap stepback (s :: l)
    = o ++ w1 ++ s ++ joined_rest ("," ++ w1) l ++ w2 ++ c.
Proof.
  intros Hgap Hstep. unfold wrap. destruct (gap =? "")%string.
  - exists "", "". split; [reflexivity|]. split; [reflexivity|].
    rewrite join_cons, append_assoc. reflexivity.
  - exists (String LF (stepback ++ gap)), (String LF stepback).
    split; [cbn [all_ws]; rewrite all_ws_app, Hgap, Hstep; reflexivity|].
    split; [cbn [all_ws]; rewrite Hstep; reflexivity|].
    rewrite join_cons. cbn [str1 append]. rewrite !append_assoc. reflexivity.
Qed.

Lemma lex_items_rest (w1 w2 : string) (c : ascii) (tclose : token)
  (items : list (string * list token)) (read : list token) (rest : string) :
  all_ws w1 = true -> all_ws w2 = true ->
  lex_start c = Ok (LStart, [tclose]) ->
  number_end (String c rest) = true ->
  Forall (fun it => lexes_as (fst it) (snd it)) items ->
  lex_run LStart read
    (joined_rest ("," ++ w1) (map fst items) ++ w2 ++ String c rest)
  = lex_run LStart
      (tclose :: rev_append (flat_map (fun ts => TComma :: ts) (map snd items)) read)
      rest.
Proof.
  intros Hw1 Hw2 Hc Hend HF. revert read.
  induction HF as [|[text ts] items Hit _ IH]; intros read.
  - cbn [map joined_rest fold_right flat_map rev_append append].
    rewrite (lex_ws w2 _ read Hw2). cbn [lex_run lstep]. rewrite Hc. reflexivity.
  - cbn [map joined_rest fold_right flat_map fst snd rev_append List.app].
    fold (joined_rest ("," ++ w1) (map fst items)).
    rewrite !append_assoc. cbn [append].
    change (lex_run LStart read (String "," ?s)) with (lex_run LStart (TComma :: read) s).
    rewrite (lex_ws w1 _ _ Hw1).
    rewrite (Hit (TComma :: read)).
    + rewrite rev_append_app. apply IH.
    + destruct items as [|it items'].
      * cbn [map joined_rest fold_right append].
        apply number_end_ws_then; assumption.
      * reflexivity.
Qed.

Lemma lex_wrap (o c : ascii) (topen tclose : token) (gap stepback : string)
  (items : list (string * list token)) (read : list token) (rest : string) :
  all_ws gap = true -> all_ws stepback = true ->
  lex_start o = Ok (LStart, [topen]) ->
  lex_start c = Ok (LStart, [tclose]) ->
  number_end (String c rest) = true ->
  Forall (fun it => lexes_as (fst it) (snd it)) items ->
  lex_run LStart read (wrap (str1 o) (str1 c) gap stepback (map fst items) ++ rest)
  = lex_run LStart
      (tclose :: rev_append (separated (map snd items)) (topen :: read)) rest.
Proof.
  intros Hgap Hstep Ho Hc Hend HF.
  destruct items as [|[text ts] items].
  - cbn [map wrap str1 append separated rev_append lex_run lstep].
    rewrite Ho. cbn [bind fst snd rev_append lex_run lstep]. rewrite Hc. reflexivity.
  - inversion HF as [|? ? Hit HF']; subst. cbn [fst snd] in Hit.
    cbn [map fst snd separated].
    destruct (wrap_nonempty (str1 o) (str1 c) gap stepback text (map fst items)
                Hgap Hstep) as [w1 [w2 [Hw1 [Hw2 ->]]]].
    rewrite !append_assoc. cbn [str1 append lex_run lstep]. rewrite Ho.
    cbn [bind fst snd rev_append]. rewrite (lex_ws w1 _ _ Hw1).
    rewrite (Hit (topen :: read)).
    + rewrite rev_append_app.
      apply (lex_items_rest w1 w2 c tclose items _ rest Hw1 Hw2 Hc Hend HF').
    + destruct items as [|it items'].
      * cbn [map joined_rest fold_right append].
        apply number_end_ws_then; assumption.
      * reflexivity.
Qed.

Lemma text_of_JSON (gap indent : string) (v : value) :
  is_JSON v = true -> serialize gap indent v = Some (text_of gap indent v).
Proof.
  unfold text_of. destruct v as [| |[]| | | |]; try discriminate; reflexivity.
Qed.

Lemma members_of_JSON (gap indent : string) (ps : props) :
  forallb (fun kv => is_JSON (snd kv)) ps = true ->
  flat_map (fun kv =>
              match serialize gap indent (snd kv) with
              | Some s => [member gap (fst kv) s]
              | None => []
              end) ps
  = map (fun kv => member gap (fst kv) (text_of gap indent (snd kv))) ps.
Proof.
  induction ps as [|[k x] ps IH]; cbn [forallb flat_map map fst snd]; [reflexivity|].
  intros H. apply andb_prop in H as [Hx H].
  rewrite (text_of_JSON gap indent x Hx), (IH H). reflexivity.
Qed.

Lemma flat_map_map {A B C} (f : B -> list C) (g : A -> B) (l : list A) :
  flat_map f (map g l) = flat_map (fun x => f (g x)) l.
Proof. induction l as [|x l IH]; simpl; [reflexivity|]. rewrite IH. reflexivity. Qed.

Lemma tokens_array (xs : list value) :
  tokens (VArr xs) = (TLBrack :: separated (map tokens xs) ++ [TRBrack])%list.
Proof.
  destruct xs as [|x xs]; [reflexivity|].
  cbn [tokens map separated]. rewrite flat_map_map. reflexivity.
Qed.

Lemma tokens_object (ps : props) :
  tokens (VObj ps)
  = (TLBrace
       :: separated (map (fun kv => TString (fst kv) :: TColon :: tokens (snd kv)) ps)
       ++ [TRBrace])%list.
Proof.
  destruct ps as [|kv ps]; [reflexivity|].
  cbn [tokens map separated]. rewrite flat_map_map. reflexivity.
Qed.

Lemma lex_member (gap k text : string) (ts : list token) :
  all_ws gap = true ->
  lexes_as text ts ->
  lexes_as (member gap k text) (TString k :: TColon :: ts).
Proof.
  intros Hgap Htext read rest Hend. unfold member.
  rewrite !append_assoc, lex_string. cbn [append].
  change (lex_run LStart (TString k :: read) (String ":" ?s))
    with (lex_run LStart (TColon :: TString k :: read) s).
  rewrite lex_ws by (destruct (gap =? "")%string; reflexivity).
  apply Htext, Hend.
Qed.

(** The text of a JSON value is read as its tokens. *)
Lemma lex_value (v : value) :
  is_JSON v = true ->
  forall gap indent,
    all_ws gap = true -> all_ws indent = true ->
    lexes_as (text_of gap indent v) (tokens v).
Proof.
  induction v as [| |b|n|s|xs IH|ps IH] using value_ind;
    intros Hv gap indent Hgap Hind; try discriminate Hv.
  - intros read rest _. reflexivity.
  - intros read rest _. destruct b; reflexivity.
  - intros read rest Hend. exact (lex_number n read rest Hv Hend).
  - intros read rest _. exact (lex_string s read rest).
  - intros read rest Hend. cbn [is_JSON] in Hv.
    unfold text_of. cbn [serialize].
    fold (text_of gap (indent ++ gap)).
    rewrite tokens_array.
    pose (items := map (fun x => (text_of gap (indent ++ gap) x, tokens x)) xs).
    replace (map (text_of gap (indent ++ gap)) xs) with (map fst items)
      by (unfold items; rewrite map_map; reflexivity).
    replace (map tokens xs) with (map snd items)
      by (unfold items; rewrite map_map; reflexivity).
    cbn [rev_append]. rewrite rev_append_app. cbn [rev_append].
    apply (lex_wrap "[" "]" TLBrack TRBrack gap indent items read rest Hgap Hind
             eq_refl eq_refl eq_refl).
    unfold items. apply Forall_map. cbn [fst snd].
    apply forallb_Forall in Hv.
    apply Forall_forall. intros x Hx.
    rewrite Forall_forall in IH, Hv.
    apply (IH x Hx (Hv x Hx)); [exact Hgap|].
    rewrite all_ws_app, Hind, Hgap. reflexivity.
  - intros read rest Hend. cbn [is_JSON] in Hv. apply andb_prop in Hv as [_ Hv].
    unfold text_of. cbn [serialize].
    rewrite (members_of_JSON gap (indent ++ gap) ps Hv), tokens_object.
    pose (items := map (fun kv =>
                          (member gap (fst kv) (text_of gap (indent ++ gap) (snd kv)),
                           TString (fst kv) :: TColon :: tokens (snd kv))) ps).
    replace (map (fun kv => member gap (fst kv) (text_of gap (indent ++ gap) (snd kv))) ps)
      with (map fst items) by (unfold items; rewrite map_map; reflexivity).
    replace (map (fun kv => TString (fst kv) :: TColon :: tokens (snd kv)) ps)
      with (map snd items) by (unfold items; rewrite map_map; reflexivity).
    cbn [rev_append]. rewrite rev_append_app. cbn [rev_append].
    apply (lex_wrap "{" "}" TLBrace TRBrace gap indent items read rest Hgap Hind
             eq_refl eq_refl eq_refl).
    unfold items. apply Forall_map. cbn [fst snd].
    apply forallb_Forall in Hv.
    apply Forall_forall. intros kv Hkv.
    rewrite Forall_forall in IH, Hv.
    apply lex_member; [exact Hgap|].
    apply (IH kv Hkv (Hv kv Hkv)); [exact Hgap|].
    rewrite all_ws_app, Hind, Hgap. reflexivity.
Qed.

(** JSON.parse gives back the value that JSON.stringify was given, with
    or without indentation. *)
Lemma parse_text_of (gap : string) (v : value) :
  is_JSON v = true -> all_ws gap = true ->
  JSON_parse (text_of gap "" v) = Ok v.
Proof.
  intros Hv Hgap. unfold JSON_parse, lex.
  pose proof (lex_value v Hv gap "" Hgap eq_refl [] "" eq_refl) as Hlex.
  rewrite append_nil_r in Hlex. rewrite Hlex.
  cbn [lex_run lex_end bind rev_append]. rewrite rev_append_rev, List.app_nil_r.
  rewrite rev_involutive.
  pose proof (parse_tokens v Hv [] []) as Hparse.
  rewrite List.app_nil_r in Hparse. rewrite Hparse. reflexivity.
Qed.

Lemma JSON_parse_stringify2 (v : value) :
  is_JSON v = true -> JSON_parse (JSON_stringify2 v) = Ok v.
Proof.
  intros Hv. unfold JSON_stringify2.
  rewrite (text_of_JSON "  " "" v Hv). exact (parse_text_of "  " v Hv eq_refl).
Qed.

Lemma JSON_parse_stringify (v : value) :
  is_JSON v = true -> JSON_parse (JSON_stringify v) = Ok v.
Proof.
  intros Hv. unfold JSON_stringify.
  rewrite (text_of_JSON "" "" v Hv). exact (parse_text_of "" v Hv eq_refl).
Qed.

(** ** JSON.parse on some texts *)

Example JSON_parse_examples :
  JSON_parse (json_text "{'b': [1, -20, null, true], '1': {}, 'a\u0041': 'x\n', 'b': 2}")
  = Ok (VObj [("1", VObj []); ("b", VNum 2); ("aA", VStr (String "x" (str1 LF)))]) /\
  JSON_parse " [ ] " = Ok (VArr []) /\
  JSON_parse "-0" = Ok (VNum 0) /\
  JSON_parse "" = Err SyntaxError /\
  JSON_parse "[1,]" = Err SyntaxError /\
  JSON_parse "{'a': 1}" = Err SyntaxError /\
  JSON_parse "01" = Err SyntaxError /\
  JSON_parse "nul" = Err SyntaxError /\
  JSON_parse "null null" = Err SyntaxError /\
  JSON_parse "1.5" = Err OutsideModel.
Proof. repeat split; vm_compute; reflexivity. Qed.

(** ** Own properties stay in order *)

Lemma lookup_none_keys (k : string) (ps : props) :
  lookup k ps = None ->
  forallb (fun k' => negb (k' =? k)%string) (map fst ps) = true.
Proof.
  induction ps as [|[k' x] ps IH]; cbn [lookup map fst forallb]; [reflexivity|].
  rewrite (String.eqb_sym k' k). destruct (k =? k')%string; [discriminate|].
  intros H. rewrite (IH H). reflexivity.
Qed.

Lemma keys_ordered_snoc (ks : list string) (k : string) :
  keys_ordered ks = true ->
  array_index k = None ->
  forallb (fun k' => negb (k' =? k)%string) ks = true ->
  keys_ordered (ks ++ [k])%list = true.
Proof.
  intros Hks Hk. induction ks as [|k0 ks IH];
    cbn [keys_ordered forallb List.app]; [reflexivity|].
  intros Hnew. apply andb_prop in Hnew as [Hk0 Hnew].
  cbn [keys_ordered] in Hks. apply andb_prop in Hks as [Hall Hks].
  rewrite forallb_app, Hall, (IH Hks Hnew). cbn [forallb].
  rewrite Hk0. unfold index_before. rewrite Hk.
  destruct (array_index k0); reflexivity.
Qed.

Lemma map_fst_replace (k : string) (v : value) (ps : props) :
  map fst (replace k v ps) = map fst ps.
Proof.
  induction ps as [|[k' x] ps IH]; cbn [replace map fst]; [reflexivity|].
  destruct (k =? k')%string; cbn [map fst]; [reflexivity|]. rewrite IH. reflexivity.
Qed.

Lemma forallb_replace (k : string) (v : value) (ps : props) :
  is_JSON v = true ->
  forallb (fun kv => is_JSON (snd kv)) ps = true ->
  forallb (fun kv => is_JSON (snd kv)) (replace k v ps) = true.
Proof.
  intros Hv. induction ps as [|[k' x] ps IH]; cbn [replace forallb snd]; [reflexivity|].
  intros H. apply andb_prop in H as [Hx H].
  destruct (k =? k')%string; cbn [forallb snd].
  - rewrite Hv, H. reflexivity.
  - rewrite Hx, (IH H). reflexivity.
Qed.

Lemma replace_JSON (k : string) (v : value) (ps : props) :
  is_JSON (VObj ps) = true -> is_JSON v = true ->
  is_JSON (VObj (replace k v ps)) = true.
Proof.
  cbn [is_JSON]. intros H Hv. apply andb_prop in H as [Hk H].
  rewrite map_fst_replace, Hk, (forallb_replace k v ps Hv H). reflexivity.
Qed.

Lemma obj_set_JSON (k : string) (v : value) (ps : props) :
  array_index k = None ->
  is_JSON (VObj ps) = true -> is_JSON v = true ->
  is_JSON (VObj (obj_set k v ps)) = true.
Proof.
  intros Hk Hps Hv. unfold obj_set. destruct (lookup k ps) eqn:E.
  - apply replace_JSON; assumption.
  - rewrite Hk. cbn [is_JSON] in Hps |- *. apply andb_prop in Hps as [Hkeys Hall].
    rewrite map_app, forallb_app, Hall. cbn [map fst forallb snd]. rewrite Hv.
    rewrite (keys_ordered_snoc _ k Hkeys Hk (lookup_none_keys k ps E)). reflexivity.
Qed.

Lemma lookup_JSON (k : string) (ps : props) (t : value) :
  is_JSON (VObj ps) = true -> lookup k ps = Some t -> is_JSON t = true.
Proof.
  cbn [is_JSON]. intros H. apply andb_prop in H as [_ H].
  induction ps as [|[k' x] ps IH]; cbn [lookup]; [discriminate|].
  cbn [forallb snd] in H. apply andb_prop in H as [Hx H].
  destruct (k =? k')%string; [intros E; injection E as <-; exact Hx|apply IH, H].
Qed.

(** * What JSON.parse gives *)

(** ** Tokens *)

Lemma digit_of_nonneg (c : ascii) (d : Z) : digit_of c = Some d -> 0 <= d.
Proof.
  unfold digit_of. destruct ((48 <=? N_of_ascii c)%N && _) eqn:E; [|discriminate].
  intros H. injection H as <-. apply andb_prop in E as [E _].
  apply N.leb_le in E. lia.
Qed.

Lemma number_token_ok (neg : bool) (acc : Z) (t : token) :
  0 <= acc -> number_token neg acc = Ok t -> token_ok t = true.
Proof.
  intros Hacc. unfold number_token. destruct (acc <=? MAX_SAFE_INTEGER) eqn:E;
    [|discriminate].
  intros H. injection H as <-. cbn [token_ok].
  replace (Z.abs (if neg then - acc else acc)) with acc by (destruct neg; lia).
  exact E.
Qed.

Lemma lex_start_ok (c : ascii) (st : lstate) (ts : list token) :
  lex_start c = Ok (st, ts) -> lstate_ok st /\ forallb token_ok ts = true.
Proof.
  unfold lex_start.
  split_ifs; try (intros H; injection H as <- <-; split; reflexivity).
  destruct (digit_of c) as [d|] eqn:E; [|discriminate].
  intros H. injection H as <- <-. split; [exact (digit_of_nonneg c d E)|reflexivity].
Qed.

Lemma lex_after_int_ok (neg : bool) (acc : Z) (c : ascii) (st : lstate)
  (ts : list token) :
  0 <= acc -> lex_after_int neg acc c = Ok (st, ts) ->
  lstate_ok st /\ forallb token_ok ts = true.
Proof.
  intros Hacc. unfold lex_after_int.
  destruct (_ || _)%bool; [discriminate|].
  destruct (number_token neg acc) as [t|] eqn:Et; cbn [bind]; [|discriminate].
  destruct (lex_start c) as [[st' ts']|] eqn:Es; cbn [bind fst snd]; [|discriminate].
  intros H. injection H as <- <-.
  destruct (lex_start_ok c st' ts' Es) as [Hst Hts].
  split; [exact Hst|]. cbn [forallb].
  rewrite (number_token_ok neg acc t Hacc Et), Hts. reflexivity.
Qed.

Lemma lstep_ok (st : lstate) (c : ascii) (st' : lstate) (ts : list token) :
  lstate_ok st -> lstep st c = Ok (st', ts) ->
  lstate_ok st' /\ forallb token_ok ts = true.
Proof.
  intros Hst. destruct st as [|rest t| |neg|neg acc|a|a|a code more]; cbn [lstep].
  - apply lex_start_ok.
  - cbn [lstate_ok] in Hst.
    destruct rest as [|c' [|c'' rest]]; [discriminate| |];
      destruct (c =? c')%char; try discriminate;
      intros H; injection H as <- <-; split; try exact Hst; try reflexivity.
    cbn [forallb]. rewrite Hst. reflexivity.
  - destruct (c =? "0")%char.
    + intros H. injection H as <- <-. split; reflexivity.
    + destruct (digit_of c) as [d|] eqn:E; [|discriminate].
      intros H. injection H as <- <-.
      split; [exact (digit_of_nonneg c d E)|reflexivity].
  - destruct (digit_of c); [discriminate|].
    apply lex_after_int_ok. reflexivity.
  - cbn [lstate_ok] in Hst. destruct (digit_of c) as [d|] eqn:E.
    + intros H. injection H as <- <-. split; [|reflexivity].
      pose proof (digit_of_nonneg c d E). cbn [lstate_ok]. lia.
    + apply lex_after_int_ok, Hst.
  - split_ifs; try discriminate; intros H; injection H as <- <-; split; reflexivity.
  - unfold lex_escape.
    split_ifs; try discriminate; intros H; injection H as <- <-; split; reflexivity.
  - destruct (hex_of c); [|discriminate].
    destruct more as [|[|k]];
      try (destruct (_ <? 128)%N; [|discriminate]);
      intros H; injection H as <- <-; split; reflexivity.
Qed.

Lemma lex_end_ok (st : lstate) (ts : list token) :
  lstate_ok st -> lex_end st = Ok ts -> forallb token_ok ts = true.
Proof.
  intros Hst. destruct st as [|rest t| |neg|neg acc|a|a|a code more];
    cbn [lex_end]; try discriminate.
  - intros H. injection H as <-. reflexivity.
  - intros H. injection H as <-. destruct neg; reflexivity.
  - cbn [lstate_ok] in Hst.
    destruct (number_token neg acc) as [t|] eqn:Et; cbn [bind]; [|discriminate].
    intros H. injection H as <-. cbn [forallb].
    rewrite (number_token_ok neg acc t Hst Et). reflexivity.
Qed.

Lemma forallb_rev_append {A} (p : A -> bool) (a r : list A) :
  forallb p (rev_append a r) = forallb p a && forallb p r.
Proof.
  revert r. induction a as [|x a IH]; intros r; cbn [rev_append forallb];
    [reflexivity|].
  rewrite IH. cbn [forallb]. destruct (p x), (forallb p a); reflexivity.
Qed.

Lemma lex_run_ok (s : string) (st : lstate) (read ts : list token) :
  lstate_ok st -> forallb token_ok read = true ->
  lex_run st read s = Ok ts -> forallb token_ok ts = true.
Proof.
  revert st read. induction s as [|c s IH]; intros st read Hst Hread; cbn [lex_run].
  - destruct (lex_end st) as [ts'|] eqn:E; cbn [bind]; [|discriminate].
    intros H. injection H as <-.
    rewrite <- (List.app_nil_r (List.rev _)), <- rev_append_rev.
    rewrite !forallb_rev_append, (lex_end_ok st ts' Hst E), Hread. reflexivity.
  - destruct (lstep st c) as [[st' ts']|] eqn:E; cbn [bind fst snd]; [|discriminate].
    destruct (lstep_ok st c st' ts' Hst E) as [Hst' Hts'].
    apply IH; [exact Hst'|]. rewrite forallb_rev_append, Hts', Hread. reflexivity.
Qed.

(** ** A new own property *)

Lemma forallb_insert_index (q : string * value -> bool) (i : N) (k : string)
  (v : value) (ps : props) :
  forallb q (insert_index i k v ps) = q (k, v) && forallb q ps.
Proof.
  induction ps as [|[k0 x] ps IH]; cbn [insert_index forallb].
  - reflexivity.
  - destruct (array_index k0) as [j|]; [destruct (j <=? i)%N|]; cbn [forallb];
      try reflexivity.
    rewrite IH. destruct (q (k0, x)), (q (k, v)); reflexivity.
Qed.

Lemma forallb_fst {A B} (q : A -> bool) (l : list (A * B)) :
  forallb q (map fst l) = forallb (fun kv => q (fst kv)) l.
Proof. induction l as [|x l IH]; cbn; [reflexivity|]. rewrite IH. reflexivity. Qed.

Lemma index_before_trans (k k0 k' : string) (i : N) :
  array_index k = Some i ->
  index_before k k0 = true -> index_before k0 k' = true -> index_before k k' = true.
Proof.
  unfold index_before. intros ->.
  destruct (array_index k0) as [j|], (array_index k') as [j'|]; try reflexivity;
    try discriminate.
  intros H1 H2. apply N.leb_le in H1, H2. apply N.leb_le. lia.
Qed.

Lemma keys_ordered_insert (i : N) (k : string) (v : value) (ps : props) :
  keys_ordered (map fst ps) = true ->
  lookup k ps = None ->
  array_index k = Some i ->
  keys_ordered (map fst (insert_index i k v ps)) = true.
Proof.
  intros Hord Hnone Hk. induction ps as [|[k0 x] ps IH]; [reflexivity|].
  cbn [map fst keys_ordered] in Hord. apply andb_prop in Hord as [Hall Hord].
  cbn [lookup] in Hnone. destruct (k =? k0)%string eqn:Ek; [discriminate|].
  assert (Hnew : forall k', In k' (map fst ps) -> (k =? k')%string = false).
  { intros k' Hin. pose proof (lookup_none_keys k ps Hnone) as Hkeys.
    rewrite forallb_forall in Hkeys. specialize (Hkeys k' Hin).
    apply negb_true_iff in Hkeys. rewrite String.eqb_sym. exact Hkeys. }
  assert (Hfront : index_before k k0 = true ->
                   keys_ordered (map fst ((k, v) :: (k0, x) :: ps)) = true).
  { intros Hb. cbn [map fst keys_ordered forallb]. rewrite Ek, Hb, Hall, Hord.
    cbn [negb andb]. rewrite !andb_true_r. apply forallb_forall. intros k' Hin.
    rewrite (Hnew k' Hin). cbn [negb andb].
    rewrite forallb_forall in Hall. specialize (Hall k' Hin).
    apply andb_prop in Hall as [_ Hall].
    exact (index_before_trans k k0 k' i Hk Hb Hall). }
  cbn [insert_index]. destruct (array_index k0) as [j|] eqn:Ek0.
  - destruct (j <=? i)%N eqn:Eji.
    + cbn [map fst keys_ordered]. rewrite (IH Hord Hnone), andb_true_r.
      rewrite forallb_fst in Hall |- *.
      rewrite forallb_insert_index, Hall, andb_true_r.
      cbn [fst]. rewrite String.eqb_sym, Ek. unfold index_before.
      rewrite Ek0, Hk. exact Eji.
    + apply Hfront. unfold index_before. rewrite Hk, Ek0.
      apply N.leb_gt in Eji. apply N.leb_le. lia.
  - apply Hfront. unfold index_before. rewrite Hk, Ek0. reflexivity.
Qed.

Lemma obj_set_any_JSON (k : string) (v : value) (ps : props) :
  is_JSON (VObj ps) = true -> is_JSON v = true ->
  is_JSON (VObj (obj_set k v ps)) = true.
Proof.
  intros Hps Hv. destruct (array_index k) as [i|] eqn:Ek;
    [|apply obj_set_JSON; assumption].
  unfold obj_set. destruct (lookup k ps) eqn:E; [apply replace_JSON; assumption|].
  rewrite Ek. cbn [is_JSON] in Hps |- *. apply andb_prop in Hps as [Hkeys Hall].
  rewrite (keys_ordered_insert i k v ps Hkeys E Ek), forallb_insert_index, Hall.
  cbn [snd]. rewrite Hv. reflexivity.
Qed.

(** ** Values *)

Lemma deliver_ok (v : value) (stk : list frame) :
  is_JSON v = true -> forallb frame_ok stk = true -> pstate_ok (deliver v stk) = true.
Proof.
  intros Hv. destruct stk as [|[acc|acc key] stk]; cbn [deliver forallb frame_ok pstate_ok].
  - intros _. exact Hv.
  - intros H. apply andb_prop in H as [Hacc Hstk].
    rewrite forallb_app, Hacc, Hstk. cbn [forallb]. rewrite Hv. reflexivity.
  - intros H. apply andb_prop in H as [Hacc Hstk].
    rewrite (obj_set_any_JSON key v acc Hacc Hv), Hstk. reflexivity.
Qed.

Lemma pvalue_ok (stk : list frame) (t : token) (st : pstate) :
  token_ok t = true -> forallb frame_ok stk = true ->
  pvalue stk t = Ok st -> pstate_ok st = true.
Proof.
  intros Ht Hstk. destruct t; cbn [pvalue]; try discriminate;
    intros H; injection H as <-; try (apply deliver_ok; [|exact Hstk]);
    try reflexivity; try exact Hstk.
  exact Ht.
Qed.

Lemma pstep_ok (st : pstate) (t : token) (st' : pstate) :
  token_ok t = true -> pstate_ok st = true ->
  pstep st t = Ok st' -> pstate_ok st' = true.
Proof.
  intros Ht Hst.
  destruct st as [stk|stk|acc stk|stk|acc stk|acc key stk|acc stk|v];
    cbn [pstep pstate_ok] in *.
  - apply pvalue_ok; assumption.
  - destruct t; try (apply pvalue_ok; [exact Ht|cbn [forallb frame_ok]; exact Hst]).
    intros H. injection H as <-. apply deliver_ok; [reflexivity|exact Hst].
  - apply andb_prop in Hst as [Hacc Hstk].
    destruct t; try discriminate; intros H; injection H as <-.
    + apply deliver_ok; [exact Hacc|exact Hstk].
    + cbn [pstate_ok forallb frame_ok]. rewrite Hacc, Hstk. reflexivity.
  - destruct t; try discriminate; intros H; injection H as <-.
    + apply deliver_ok; [reflexivity|exact Hst].
    + cbn [pstate_ok is_JSON map keys_ordered forallb]. exact Hst.
  - destruct t; try discriminate; intros H; injection H as <-. exact Hst.
  - destruct t; try discriminate; intros H; injection H as <-.
    cbn [pstate_ok forallb frame_ok]. exact Hst.
  - apply andb_prop in Hst as [Hacc Hstk].
    destruct t; try discriminate; intros H; injection H as <-.
    + apply deliver_ok; [exact Hacc|exact Hstk].
    + cbn [pstate_ok]. rewrite Hacc, Hstk. reflexivity.
  - discriminate.
Qed.

Lemma parse_run_ok (ts : list token) (st : pstate) (v : value) :
  forallb token_ok ts = true -> pstate_ok st = true ->
  parse_run st ts = Ok v -> is_JSON v = true.
Proof.
  revert st. induction ts as [|t ts IH]; intros st Hts Hst; cbn [parse_run].
  - destruct st; try discriminate. intros H. injection H as <-. exact Hst.
  - cbn [forallb] in Hts. apply andb_prop in Hts as [Ht Hts].
    destruct (pstep st t) as [st'|] eqn:E; cbn [bind]; [|discriminate].
    apply IH; [exact Hts|exact (pstep_ok st t st' Ht Hst E)].
Qed.

(** What JSON.parse gives is the value of a JSON text. *)
Lemma JSON_parse_is_JSON (text : string) (v : value) :
  JSON_parse text = Ok v -> is_JSON v = true.
Proof.
  unfold JSON_parse, lex.
  destruct (lex_run LStart [] text) as [ts|] eqn:E; cbn [bind]; [|discriminate].
  apply parse_run_ok; [|reflexivity].
  exact (lex_run_ok text LStart [] ts I eq_refl E).
Qed.

(** The values of JSON texts are the values that satisfy [is_JSON]. *)
Lemma is_JSON_parsed (v : value) :
  is_JSON v = true <-> exists text, JSON_parse text = Ok v.
Proof.
  split.
  - intros Hv. exists (JSON_stringify v). exact (JSON_parse_stringify v Hv).
  - intros [text Hparse]. exact (JSON_parse_is_JSON text v Hparse).
Qed.

(** * The translation of the route manifest *)

(** ** Each stage of the translation *)

Lemma header_entry_object (h : value) :
  is_object h = true -> header_entry h = Ok (header_out h).
Proof. destruct h; simpl; try discriminate. reflexivity. Qed.

Lemma redirect_keep_shape (r : value) :
  Redirect_shape r = true -> redirect_keep r = Ok (negb (is_internal r)).
Proof.
  destruct r as [| | | | | |ps]; simpl; try discriminate.
  unfold redirect_keep, is_internal, get, field, prop; simpl.
  destruct (lookup "internal" ps) as [[| |b| | | |]|]; simpl; try discriminate;
    intros _; try reflexivity.
  destruct b; reflexivity.
Qed.

Lemma redirect_entry_shape (r : value) :
  Redirect_shape r = true -> redirect_entry r = Ok (redirect_out r).
Proof. destruct r; simpl; try discriminate. reflexivity. Qed.

Lemma rewrite_entry_shape (r : value) :
  Rewrite_shape r = true ->
  rewrite_entry r = Ok (if has_condition r then VUndefined else rewrite_out r).
Proof.
  destruct r as [| | | | | |ps]; simpl; try discriminate.
  unfold rewrite_entry, rewrite_out, get, field, prop; simpl.
  destruct (lookup "has" ps) as [[]|]; simpl; try discriminate; reflexivity.
Qed.

Lemma dropped_conditions (rs : list value) :
  filter truthy (map (fun r => if has_condition r then VUndefined else rewrite_out r) rs)
  = map rewrite_out (filter (fun r => negb (has_condition r)) rs).
Proof.
  induction rs as [|r rs IH]; simpl; [reflexivity|].
  destruct (has_condition r); simpl; rewrite IH; reflexivity.
Qed.

Lemma headers_stage (hs : list value) :
  forallb is_object hs = true ->
  mapM header_entry hs = Ok (map header_out hs).
Proof.
  intros H. apply mapM_total.
  eapply Forall_impl; [|apply forallb_Forall, H].
  intros h. apply header_entry_object.
Qed.

Lemma redirects_kept (rs : list value) :
  forallb Redirect_shape rs = true ->
  filterM redirect_keep rs = Ok (filter (fun r => negb (is_internal r)) rs).
Proof.
  intros H. apply filterM_total.
  eapply Forall_impl; [|apply forallb_Forall, H].
  intros r. apply redirect_keep_shape.
Qed.

Lemma redirects_stage (rs : list value) :
  forallb Redirect_shape rs = true ->
  mapM redirect_entry (filter (fun r => negb (is_internal r)) rs)
  = Ok (map redirect_out (filter (fun r => negb (is_internal r)) rs)).
Proof.
  intros H. apply mapM_total, Forall_filter.
  eapply Forall_impl; [|apply forallb_Forall, H].
  intros r. apply redirect_entry_shape.
Qed.

Lemma rewrites_stage (rs : list value) :
  forallb Rewrite_shape rs = true ->
  mapM rewrite_entry rs
  = Ok (map (fun r => if has_condition r then VUndefined else rewrite_out r) rs).
Proof.
  intros H. apply mapM_total.
  eapply Forall_impl; [|apply forallb_Forall, H].
  intros r. apply rewrite_entry_shape.
Qed.

Lemma filterM_pure {A} (p : A -> bool) (l : list A) :
  filterM (fun x => Ok (p x)) l = Ok (filter p l).
Proof. apply filterM_total, Forall_forall. reflexivity. Qed.

(** The whole translation of a well-shaped manifest. *)
Lemma translateManifest_shaped (m : value) :
  Manifest_shape m = true ->
  translateManifest m
  = Ok (VObj [("headers", VArr (map header_out (entries m "headers")));
              ("rewrites",
                VArr (map rewrite_out
                        (filter (fun r => negb (has_condition r)) (rewrite_candidates m))));
              ("redirects",
                VArr (map redirect_out
                        (filter (fun r => negb (is_internal r)) (entries m "redirects"))))]).
Proof.
  destruct m as [| | | | | |ps]; simpl; try discriminate.
  intros H. apply andb_prop in H as [H Hrw]. apply andb_prop in H as [Hh Hrd].
  unfold translateManifest, get_default, get, rewrite_candidates, entries, field, prop.
  destruct (lookup "headers" ps) as [[| | | | |hs|]|]; simpl in Hh; try discriminate;
  destruct (lookup "redirects" ps) as [[| | | | |rs|]|]; simpl in Hrd; try discriminate;
  destruct (lookup "rewrites" ps) as [[| | | | |rws|phases]|]; simpl in Hrw;
    try discriminate.
  all: cbn [bind Array_isArray]; cbv beta iota.
  all: try (destruct (lookup "beforeFiles" phases) as [[| | | | |rws|]|]; simpl in Hrw;
            try discriminate).
  all: repeat (cbn [bind array_map array_filter mapM filterM Array_isArray truthy];
               first [ rewrite (headers_stage hs Hh)
                     | rewrite (redirects_kept rs Hrd)
                     | rewrite (redirects_stage rs Hrd)
                     | rewrite (rewrites_stage rws Hrw)
                     | rewrite filterM_pure
                     | rewrite dropped_conditions ]).
  all: reflexivity.
Qed.

(** ** The routes manifest of a build *)

Section RoutesManifest.

(** The routes manifest is a file at the resolved path; its text parses to
    a value that has the shape of a manifest. *)
Variable fs : filesystem.
Variable config : DeployConfig.
Variables distDir text : string.
Variable manifest : value.
Hypothesis Hfile :
  fs (getProjectPathFactory config [distDir; "routes-manifest.json"]) = Some text.
Hypothesis Hparse : JSON_parse text = Ok manifest.
Hypothesis Hshape : Manifest_shape manifest = true.

Lemma firebaseJsonStuff_parsed :
  firebaseJsonStuff fs config distDir = translateManifest manifest.
Proof.
  unfold firebaseJsonStuff, readFile.
  rewrite Hfile. cbn [bind]. rewrite Hparse. reflexivity.
Qed.

(** C1.  The redirects of the output are the redirects of the manifest that
    are not flagged internal, in the order of the manifest, each one as
    {source, destination, type} with [type] the status code of the entry. *)
Theorem redirects_drop_internal :
  exists out,
    firebaseJsonStuff fs config distDir = Ok out /\
    field out "redirects"
    = VArr (map redirect_out
              (filter (fun r => negb (is_internal r)) (entries manifest "redirects"))).
Proof.
  rewrite firebaseJsonStuff_parsed, (translateManifest_shaped manifest Hshape).
  eexists. split; [reflexivity|]. reflexivity.
Qed.

(** C2.  The candidate rewrites are the flat sequence if [rewrites] is one
    and the [beforeFiles] phase otherwise, never [afterFiles] or [fallback];
    the rewrites of the output are the candidates that carry no [has]
    condition, in the order of the manifest, each one as
    {source, destination}. *)
Theorem rewrites_before_files_unconditional :
  exists out,
    firebaseJsonStuff fs config distDir = Ok out /\
    field out "rewrites"
    = VArr (map rewrite_out
              (filter (fun r => negb (has_condition r)) (rewrite_candidates manifest))).
Proof.
  rewrite firebaseJsonStuff_parsed, (translateManifest_shaped manifest Hshape).
  eexists. split; [reflexivity|]. reflexivity.
Qed.

(** C7.  The headers of the output are the headers of the manifest, as many
    and in the same order, each one as {source, headers}: [regex] is
    dropped and [source] is the one of the entry. *)
Theorem headers_projected :
  exists out hs,
    firebaseJsonStuff fs config distDir = Ok out /\
    field out "headers" = VArr hs /\
    hs = map header_out (entries manifest "headers") /\
    List.length hs = List.length (entries manifest "headers") /\
    forall i h, nth_error (entries manifest "headers") i = Some h ->
      nth_error hs i
      = Some (VObj [("source", field h "source"); ("headers", field h "headers")]).
Proof.
  rewrite firebaseJsonStuff_parsed, (translateManifest_shaped manifest Hshape).
  eexists. exists (map header_out (entries manifest "headers")).
  split; [reflexivity|]. split; [reflexivity|]. split; [reflexivity|].
  split; [apply length_map|].
  intros i h Hi. rewrite nth_error_map, Hi. reflexivity.
Qed.

End RoutesManifest.

Lemma redirects_drop_internal_witness :
  example_fs (getProjectPathFactory example_config [".next"; "routes-manifest.json"])
  = Some example_manifest_text /\
  JSON_parse example_manifest_text = Ok example_manifest /\
  Manifest_shape example_manifest = true /\
  exists out,
    firebaseJsonStuff example_fs example_config ".next" = Ok out /\
    field out "redirects"
    = VArr [VObj [("source", VStr "/a"); ("destination", VStr "/b"); ("type", VNum 301)];
            VObj [("source", VStr "/old"); ("destination", VStr "/new");
                  ("type", VNum 308)]].
Proof.
  repeat split; try (vm_compute; reflexivity).
  apply (redirects_drop_internal example_fs example_config ".next"
           example_manifest_text example_manifest); vm_compute; reflexivity.
Defined.

Lemma rewrites_before_files_unconditional_witness :
  example_fs (getProjectPathFactory example_config [".next"; "routes-manifest.json"])
  = Some example_manifest_text /\
  JSON_parse example_manifest_text = Ok example_manifest /\
  Manifest_shape example_manifest = true /\
  exists out,
    firebaseJsonStuff example_fs example_config ".next" = Ok out /\
    field out "rewrites"
    = VArr [VObj [("source", VStr "/p"); ("destination", VStr "/q")];
            VObj [("source", VStr "/r"); ("destination", VStr "/s")]].
Proof.
  repeat split; try (vm_compute; reflexivity).
  apply (rewrites_before_files_unconditional example_fs example_config ".next"
           example_manifest_text example_manifest); vm_compute; reflexivity.
Defined.

Lemma headers_projected_witness :
  example_fs (getProjectPathFactory example_config [".next"; "routes-manifest.json"])
  = Some example_manifest_text /\
  JSON_parse example_manifest_text = Ok example_manifest /\
  Manifest_shape example_manifest = true /\
  exists out hs,
    firebaseJsonStuff example_fs example_config ".next" = Ok out /\
    field out "headers" = VArr hs /\
    hs = [VObj [("source", VStr "/api/:path*");
                ("headers",
                  VArr [VObj [("key", VStr "x-frame-options");
                              ("value", VStr "DENY")]])]].
Proof.
  repeat split; try (vm_compute; reflexivity).
  destruct (headers_projected example_fs example_config ".next"
              example_manifest_text example_manifest)
    as [out [hs [Hout [Hfield [Hhs _]]]]]; try (vm_compute; reflexivity).
  exists out, hs. split; [exact Hout|]. split; [exact Hfield|exact Hhs].
Defined.

(** ** Failures of the translation *)

Lemma array_map_gives_array (f : value -> result value) (a out : value) :
  array_map f a = Ok out -> exists ys, out = VArr ys.
Proof.
  destruct a; cbn [array_map]; try discriminate.
  destruct (mapM f xs) as [ys|]; cbn [bind]; [|discriminate].
  intros H. injection H as <-. exists ys. reflexivity.
Qed.

Lemma array_filter_gives_array (f : value -> result bool) (a out : value) :
  array_filter f a = Ok out -> exists ys, out = VArr ys.
Proof.
  destruct a; cbn [array_filter]; try discriminate.
  destruct (filterM f xs) as [ys|]; cbn [bind]; [|discriminate].
  intros H. injection H as <-. exists ys. reflexivity.
Qed.

(** A result of the translation has its three sequences. *)
Lemma translateManifest_whole (manifest out : value) :
  translateManifest manifest = Ok out ->
  exists headers rewrites redirects,
    out = VObj [("headers", VArr headers); ("rewrites", VArr rewrites);
                ("redirects", VArr redirects)].
Proof.
  unfold translateManifest.
  succeeded (get_default manifest "headers" (VArr [])) h E1.
  succeeded (get_default manifest "redirects" (VArr [])) r E2.
  succeeded (get_default manifest "rewrites" (VArr [])) w E3.
  succeeded (array_map header_entry h) hs Eh.
  succeeded (array_filter redirect_keep r) kept Ek.
  succeeded (array_map redirect_entry kept) rs Er.
  match goal with |- context [bind ?use _] => succeeded use u Eu end.
  succeeded (array_map rewrite_entry u) mapped Em.
  match goal with |- context [bind ?filtered _] => succeeded filtered ws Ew end.
  intros H. injection H as <-.
  destruct (array_map_gives_array _ _ _ Eh) as [hs' ->].
  destruct (array_map_gives_array _ _ _ Er) as [rs' ->].
  destruct (array_filter_gives_array _ _ _ Ew) as [ws' ->].
  exists hs', ws', rs'. reflexivity.
Qed.

(** C8, as the code has it.  The call fails with the not-found error of
    the read when there is no routes manifest at the resolved path, and with
    the syntax error of JSON.parse when the content is not a JSON text;
    neither is handled.  A JSON text is not checked against the shape of a manifest:
    it is translated as it is, and a manifest of the expected shape always
    is.  Whenever the call returns, the result has its three sequences. *)
Theorem firebaseJsonStuff_failures (fs : filesystem) (config : DeployConfig)
  (distDir : string) :
  (fs (getProjectPathFactory config [distDir; "routes-manifest.json"]) = None ->
   firebaseJsonStuff fs config distDir
   = Err (ENOENT (getProjectPathFactory config [distDir; "routes-manifest.json"]))) /\
  (forall text,
     fs (getProjectPathFactory config [distDir; "routes-manifest.json"]) = Some text ->
     JSON_parse text = Err SyntaxError ->
     firebaseJsonStuff fs config distDir = Err SyntaxError) /\
  (forall text manifest,
     fs (getProjectPathFactory config [distDir; "routes-manifest.json"]) = Some text ->
     JSON_parse text = Ok manifest ->
     firebaseJsonStuff fs config distDir = translateManifest manifest /\
     (Manifest_shape manifest = true ->
      exists out, firebaseJsonStuff fs config distDir = Ok out)) /\
  (forall out,
     firebaseJsonStuff fs config distDir = Ok out ->
     exists headers rewrites redirects,
       out = VObj [("headers", VArr headers); ("rewrites", VArr rewrites);
                   ("redirects", VArr redirects)]).
Proof.
  split; [|split; [|split]].
  - intros Hnone. unfold firebaseJsonStuff, readFile. rewrite Hnone. reflexivity.
  - intros text Hfile Hparse. unfold firebaseJsonStuff, readFile.
    rewrite Hfile. cbn [bind]. rewrite Hparse. reflexivity.
  - intros text manifest Hfile Hparse.
    rewrite (firebaseJsonStuff_parsed fs config distDir text manifest Hfile Hparse).
    split; [reflexivity|]. intros Hshape.
    rewrite (translateManifest_shaped manifest Hshape). eexists. reflexivity.
  - intros out. unfold firebaseJsonStuff.
    destruct (readFile fs _) as [text|]; cbn [bind]; [|discriminate].
    destruct (JSON_parse text) as [manifest|]; cbn [bind]; [|discriminate].
    apply translateManifest_whole.
Qed.

Lemma firebaseJsonStuff_failures_witness :
  firebaseJsonStuff empty_fs example_config ".next"
  = Err (ENOENT "/app/.next/routes-manifest.json") /\
  firebaseJsonStuff (one_file "/app/.next/routes-manifest.json" "{'headers': [")
    example_config ".next"
  = Err SyntaxError /\
  exists headers rewrites redirects,
    firebaseJsonStuff example_fs example_config ".next"
    = Ok (VObj [("headers", VArr headers); ("rewrites", VArr rewrites);
                ("redirects", VArr redirects)]).
Proof.
  split; [|split].
  - apply (firebaseJsonStuff_failures empty_fs example_config ".next"). reflexivity.
  - apply (firebaseJsonStuff_failures
             (one_file "/app/.next/routes-manifest.json" "{'headers': [")
             example_config ".next") with (text := "{'headers': [");
      vm_compute; reflexivity.
  - destruct (firebaseJsonStuff_failures example_fs example_config ".next")
      as [_ [_ [Hok Hwhole]]].
    destruct (Hok example_manifest_text example_manifest) as [_ Hout];
      try (vm_compute; reflexivity).
    destruct (Hout eq_refl) as [out Hout'].
    destruct (Hwhole out Hout') as [hs [ws [rs ->]]].
    exists hs, ws, rs. exact Hout'.
Defined.

(** C8 fails as stated: a JSON text that has not the shape of a manifest is
    translated, with no error. *)
Lemma misshapen_manifest_translated :
  JSON_parse misshapen_manifest_text = Ok (VObj [("headers", VArr [VNum 5])]) /\
  Manifest_shape (VObj [("headers", VArr [VNum 5])]) = false /\
  firebaseJsonStuff misshapen_fs example_config ".next"
  = Ok (VObj [("headers",
                VArr [VObj [("source", VUndefined); ("headers", VUndefined)]]);
              ("rewrites", VArr []);
              ("redirects", VArr [])]) /\
  JSON_parse "5" = Ok (VNum 5) /\
  Manifest_shape (VNum 5) = false /\
  firebaseJsonStuff (one_file "/app/.next/routes-manifest.json" "5") example_config
    ".next"
  = Ok (VObj [("headers", VArr []); ("rewrites", VArr []); ("redirects", VArr [])]).
Proof. repeat split; vm_compute; reflexivity. Qed.

(** ** Route manifests of any shape *)

Lemma get_readable (v : value) (k : string) :
  get v k = if readable v then Ok (field v k) else Err TypeError.
Proof. destruct v; reflexivity. Qed.

Lemma mapM_readable (f : value -> result value) (g : value -> value) (l : list value) :
  (forall x, f x = if readable x then Ok (g x) else Err TypeError) ->
  mapM f l = if forallb readable l then Ok (map g l) else Err TypeError.
Proof.
  intros Hf. induction l as [|x l IH]; cbn [mapM forallb map]; [reflexivity|].
  rewrite Hf, IH. destruct (readable x), (forallb readable l); reflexivity.
Qed.

Lemma filterM_readable (f : value -> result bool) (g : value -> bool) (l : list value) :
  (forall x, f x = if readable x then Ok (g x) else Err TypeError) ->
  filterM f l = if forallb readable l then Ok (filter g l) else Err TypeError.
Proof.
  intros Hf. induction l as [|x l IH]; cbn [filterM forallb filter]; [reflexivity|].
  rewrite Hf, IH.
  destruct (readable x), (forallb readable l), (g x); reflexivity.
Qed.

Lemma forallb_filter {A} (p q : A -> bool) (l : list A) :
  forallb p l = true -> forallb p (filter q l) = true.
Proof.
  induction l as [|x l IH]; cbn [forallb filter]; [reflexivity|].
  intros H. apply andb_prop in H as [Hx Hl].
  destruct (q x); cbn [forallb]; [rewrite Hx|]; apply IH, Hl.
Qed.

Lemma header_entry_readable (h : value) :
  header_entry h = if readable h then Ok (header_out h) else Err TypeError.
Proof. destruct h; reflexivity. Qed.

Lemma redirect_keep_readable (r : value) :
  redirect_keep r = if readable r then Ok (redirect_kept r) else Err TypeError.
Proof. destruct r; reflexivity. Qed.

Lemma redirect_entry_readable (r : value) :
  redirect_entry r = if readable r then Ok (redirect_out r) else Err TypeError.
Proof. destruct r; reflexivity. Qed.

Lemma rewrite_entry_readable (r : value) :
  rewrite_entry r
  = if readable r then Ok (if rewrite_kept r then rewrite_out r else VUndefined)
    else Err TypeError.
Proof.
  destruct r as [| | | | | |ps]; try reflexivity.
  unfold rewrite_entry, rewrite_kept, rewrite_out, get, field. cbn [bind readable].
  fold (prop ps "has"). destruct (truthy (prop ps "has")); reflexivity.
Qed.

Lemma dropped_placeholders (rs : list value) :
  filter truthy (map (fun r => if rewrite_kept r then rewrite_out r else VUndefined) rs)
  = map rewrite_out (filter rewrite_kept rs).
Proof.
  induction rs as [|r rs IH]; cbn [map filter]; [reflexivity|].
  destruct (rewrite_kept r); cbn [truthy rewrite_out map]; rewrite IH; reflexivity.
Qed.

Lemma array_map_readable (f : value -> result value) (g : value -> value) (a : value) :
  (forall x, f x = if readable x then Ok (g x) else Err TypeError) ->
  array_map f a
  = if array_of readable a then Ok (VArr (map g (elements a))) else Err TypeError.
Proof.
  intros Hf. destruct a; try reflexivity.
  cbn [array_map array_of elements]. rewrite (mapM_readable f g xs Hf).
  destruct (forallb readable xs); reflexivity.
Qed.

Lemma array_filter_readable (f : value -> result bool) (g : value -> bool) (a : value) :
  (forall x, f x = if readable x then Ok (g x) else Err TypeError) ->
  array_filter f a
  = if array_of readable a then Ok (VArr (filter g (elements a))) else Err TypeError.
Proof.
  intros Hf. destruct a; try reflexivity.
  cbn [array_filter array_of elements]. rewrite (filterM_readable f g xs Hf).
  destruct (forallb readable xs); reflexivity.
Qed.

Lemma get_default_readable (m : value) (k : string) :
  get_default m k (VArr []) = if readable m then Ok (bound m k) else Err TypeError.
Proof. destruct m; reflexivity. Qed.

Lemma entries_bound (m : value) (k : string) : entries m k = elements (bound m k).
Proof. unfold entries, bound. destruct (field m k); reflexivity. Qed.

Lemma rewrite_candidates_bound (m : value) :
  rewrite_candidates m
  = match bound m "rewrites" with
    | VArr ws => ws
    | phases => elements (field phases "beforeFiles")
    end.
Proof.
  unfold rewrite_candidates, bound, entries.
  destruct (field m "rewrites"); reflexivity.
Qed.

(** The redirects, filtered and then projected. *)
Lemma redirects_translated (r : value) :
  (kept <- array_filter redirect_keep r ;; array_map redirect_entry kept)
  = if array_of readable r
    then Ok (VArr (map redirect_out (filter redirect_kept (elements r))))
    else Err TypeError.
Proof.
  rewrite (array_filter_readable redirect_keep redirect_kept r redirect_keep_readable).
  destruct (array_of readable r) eqn:Hr; cbn [bind]; [|reflexivity].
  rewrite (array_map_readable redirect_entry redirect_out _ redirect_entry_readable).
  destruct r; try discriminate Hr. cbn [array_of elements] in *.
  rewrite (forallb_filter readable redirect_kept xs Hr). reflexivity.
Qed.

(** The rewrites, projected and then filtered. *)
Lemma rewrites_translated (u : value) :
  (mapped <- array_map rewrite_entry u ;;
   array_filter (fun it => Ok (truthy it)) mapped)
  = if array_of readable u
    then Ok (VArr (map rewrite_out (filter rewrite_kept (elements u))))
    else Err TypeError.
Proof.
  rewrite (array_map_readable rewrite_entry _ u rewrite_entry_readable).
  destruct (array_of readable u); cbn [bind array_filter]; [|reflexivity].
  rewrite filterM_pure, dropped_placeholders. reflexivity.
Qed.

(** The translation of any value: the result for the manifests it accepts,
    a type error for the others. *)
Lemma translateManifest_any (m : value) :
  translateManifest m = if translatable m then Ok (translated m) else Err TypeError.
Proof.
  unfold translateManifest, translatable, translated.
  rewrite !get_default_readable, !entries_bound, rewrite_candidates_bound.
  destruct (readable m); cbn [bind andb]; [|reflexivity].
  generalize (bound m "headers") as h, (bound m "redirects") as r,
    (bound m "rewrites") as w.
  intros h r w.
  rewrite (array_map_readable header_entry header_out h header_entry_readable).
  destruct (array_of readable h); cbn [bind andb]; [|reflexivity].
  pose proof (redirects_translated r) as Hr. unfold bind in Hr |- *.
  destruct (array_filter redirect_keep r) as [kept|e].
  - rewrite Hr. clear Hr.
    destruct (array_of readable r); cbn [andb]; [|reflexivity].
    assert (Hw : forall u,
               (mapped <- array_map rewrite_entry u ;;
                rewrites <- array_filter (fun it => Ok (truthy it)) mapped ;;
                Ok (VObj [("headers", VArr (map header_out (elements h)));
                          ("rewrites", rewrites);
                          ("redirects",
                            VArr (map redirect_out (filter redirect_kept (elements r))))]))
               = if array_of readable u
                 then Ok (VObj [("headers", VArr (map header_out (elements h)));
                                ("rewrites",
                                  VArr (map rewrite_out (filter rewrite_kept (elements u))));
                                ("redirects",
                                  VArr (map redirect_out
                                          (filter redirect_kept (elements r))))])
                 else Err TypeError).
    { intros u. pose proof (rewrites_translated u) as Hu. unfold bind in Hu |- *.
      destruct (array_map rewrite_entry u) as [mapped|e].
      - rewrite Hu. destruct (array_of readable u); reflexivity.
      - rewrite Hu. destruct (array_of readable u); [discriminate Hu|reflexivity]. }
    unfold bind in Hw |- *. rewrite get_readable.
    destruct w as [| | | | |ws|phases]; cbn [Array_isArray readable andb field];
      try reflexivity;
      try (cbn [truthy negb orb]; exact (Hw (VArr []))).
    + exact (Hw (VArr ws)).
    + destruct (truthy (prop phases "beforeFiles")) eqn:Ht; cbn [negb orb].
      * exact (Hw (prop phases "beforeFiles")).
      * rewrite (Hw (VArr [])). cbn [array_of forallb elements].
        destruct (prop phases "beforeFiles"); try reflexivity; discriminate Ht.
  - rewrite Hr. destruct (array_of readable r); [discriminate Hr|reflexivity].
Qed.

Section AnyManifest.

(** The routes manifest is a file at the resolved path and holds a JSON
    text; nothing is assumed of the value of the text. *)
Variable fs : filesystem.
Variable config : DeployConfig.
Variables distDir text : string.
Variable manifest : value.
Hypothesis Hfile :
  fs (getProjectPathFactory config [distDir; "routes-manifest.json"]) = Some text.
Hypothesis Hparse : JSON_parse text = Ok manifest.

Lemma firebaseJsonStuff_any :
  firebaseJsonStuff fs config distDir
  = if translatable manifest then Ok (translated manifest) else Err TypeError.
Proof.
  rewrite (firebaseJsonStuff_parsed fs config distDir text manifest Hfile Hparse).
  apply translateManifest_any.
Qed.

(** X1.  A routes manifest that is a JSON text is accepted exactly when its
    value is readable, its [headers] and [redirects], when there, are arrays
    without a [null] entry, and its [rewrites], when there, are such an array
    or a readable value whose [beforeFiles] is falsy or such an array.  Every
    other JSON text makes the call fail with a type error. *)
Theorem manifest_accepted_or_type_error :
  ((exists out, firebaseJsonStuff fs config distDir = Ok out)
   <-> translatable manifest = true) /\
  (firebaseJsonStuff fs config distDir = Err TypeError
   <-> translatable manifest = false).
Proof.
  rewrite firebaseJsonStuff_any.
  destruct (translatable manifest); split; split;
    try discriminate; try reflexivity.
  - exists (translated manifest). reflexivity.
  - intros [out H]. discriminate H.
Qed.

(** X2.  Whenever the call returns, the redirects of the output are the
    redirects of the manifest whose [internal] flag is falsy, in the order
    of the manifest, each one as {source, destination, type}: a flag of any
    truthy value, boolean or not, drops the entry. *)
Theorem redirects_dropped_by_truthiness (out : value) :
  firebaseJsonStuff fs config distDir = Ok out ->
  field out "redirects"
  = VArr (map redirect_out (filter redirect_kept (entries manifest "redirects"))).
Proof.
  rewrite firebaseJsonStuff_any.
  destruct (translatable manifest); [|discriminate].
  intros H. injection H as <-. reflexivity.
Qed.

(** X3.  Whenever the call returns, the rewrites of the output are the
    candidate rewrites whose [has] is falsy, in the order of the manifest,
    each one as {source, destination}, and no placeholder of a dropped
    rewrite is left among them.  So a rewrite with an empty list of
    conditions is dropped, and one whose [has] is [null] is kept. *)
Theorem rewrites_dropped_by_truthiness (out : value) :
  firebaseJsonStuff fs config distDir = Ok out ->
  field out "rewrites"
  = VArr (map rewrite_out (filter rewrite_kept (rewrite_candidates manifest))) /\
  ~ In VUndefined (elements (field out "rewrites")).
Proof.
  rewrite firebaseJsonStuff_any.
  destruct (translatable manifest); [|discriminate].
  intros H. injection H as <-. split; [reflexivity|].
  cbn [translated field prop lookup String.eqb Ascii.eqb Bool.eqb elements].
  intros Hin. apply in_map_iff in Hin as [r [Hr _]]. discriminate Hr.
Qed.

(** X4.  A manifest that has none of [headers], [redirects] and [rewrites],
    be it an object, an array or a primitive other than [null], is accepted
    and gives three empty sequences. *)
Theorem absent_sequences_are_empty :
  manifest <> VNull ->
  has_own manifest "headers" = false ->
  has_own manifest "redirects" = false ->
  has_own manifest "rewrites" = false ->
  firebaseJsonStuff fs config distDir
  = Ok (VObj [("headers", VArr []); ("rewrites", VArr []); ("redirects", VArr [])]).
Proof.
  intros Hnull Hh Hr Hw. rewrite firebaseJsonStuff_any.
  pose proof (JSON_parse_is_JSON text manifest Hparse) as Hj.
  assert (Hread : readable manifest = true)
    by (destruct manifest; try reflexivity; [discriminate Hj|contradiction]).
  assert (Habsent : forall k, has_own manifest k = false -> field manifest k = VUndefined).
  { intros k. unfold has_own, field, prop. destruct manifest; try reflexivity.
    destruct (lookup k ps); [discriminate|reflexivity]. }
  unfold translatable, translated, bound, rewrite_candidates, entries.
  rewrite Hread, (Habsent _ Hh), (Habsent _ Hr), (Habsent _ Hw). reflexivity.
Qed.

End AnyManifest.

(** X5.  The translation reads the manifest through [headers], [redirects]
    and [rewrites] only: two manifests that agree on the three fields are
    translated alike, whatever else they hold. *)
Theorem translation_reads_three_fields (m1 m2 : value) :
  readable m1 = readable m2 ->
  field m1 "headers" = field m2 "headers" ->
  field m1 "redirects" = field m2 "redirects" ->
  field m1 "rewrites" = field m2 "rewrites" ->
  translateManifest m1 = translateManifest m2.
Proof.
  intros Hread Hh Hr Hw. rewrite !translateManifest_any.
  unfold translatable, translated, bound, rewrite_candidates, entries.
  rewrite Hread, Hh, Hr, Hw. reflexivity.
Qed.

Lemma manifest_accepted_or_type_error_witness :
  firebaseJsonStuff
    (one_file "/app/.next/routes-manifest.json" (json_text "{'headers': null}"))
    example_config ".next"
  = Err TypeError /\
  exists out,
    firebaseJsonStuff
      (one_file "/app/.next/routes-manifest.json"
         (json_text "{'rewrites': {'beforeFiles': null, 'fallback': 7}}"))
      example_config ".next"
    = Ok out.
Proof.
  split.
  - apply (manifest_accepted_or_type_error
             (one_file "/app/.next/routes-manifest.json" (json_text "{'headers': null}"))
             example_config ".next" (json_text "{'headers': null}")
             (VObj [("headers", VNull)]));
      vm_compute; reflexivity.
  - apply (manifest_accepted_or_type_error
             (one_file "/app/.next/routes-manifest.json"
                (json_text "{'rewrites': {'beforeFiles': null, 'fallback': 7}}"))
             example_config ".next"
             (json_text "{'rewrites': {'beforeFiles': null, 'fallback': 7}}")
             (VObj [("rewrites", VObj [("beforeFiles", VNull); ("fallback", VNum 7)])]));
      vm_compute; reflexivity.
Defined.

Lemma redirects_dropped_by_truthiness_witness :
  firebaseJsonStuff (one_file "/app/.next/routes-manifest.json" flagged_redirects_text)
    example_config ".next"
  = Ok (translated flagged_redirects) /\
  field (translated flagged_redirects) "redirects"
  = VArr [VObj [("source", VStr "/c"); ("destination", VStr "/d");
                ("type", VNum 308)]].
Proof.
  split; [vm_compute; reflexivity|].
  rewrite (redirects_dropped_by_truthiness
             (one_file "/app/.next/routes-manifest.json" flagged_redirects_text)
             example_config ".next" flagged_redirects_text flagged_redirects);
    vm_compute; reflexivity.
Defined.

Lemma rewrites_dropped_by_truthiness_witness :
  firebaseJsonStuff (one_file "/app/.next/routes-manifest.json" conditioned_rewrites_text)
    example_config ".next"
  = Ok (translated conditioned_rewrites) /\
  field (translated conditioned_rewrites) "rewrites"
  = VArr [VObj [("source", VStr "/r"); ("destination", VStr "/s")]] /\
  ~ In VUndefined (elements (field (translated conditioned_rewrites) "rewrites")).
Proof.
  split; [vm_compute; reflexivity|].
  destruct (rewrites_dropped_by_truthiness
              (one_file "/app/.next/routes-manifest.json" conditioned_rewrites_text)
              example_config ".next" conditioned_rewrites_text conditioned_rewrites
              eq_refl eq_refl (translated conditioned_rewrites) eq_refl)
    as [Hrewrites Hnone].
  split; [rewrite Hrewrites; reflexivity|exact Hnone].
Defined.

Lemma absent_sequences_are_empty_witness :
  firebaseJsonStuff
    (one_file "/app/.next/routes-manifest.json"
       (json_text "{'version': 3, 'basePath': '/docs'}"))
    example_config ".next"
  = Ok (VObj [("headers", VArr []); ("rewrites", VArr []); ("redirects", VArr [])]).
Proof.
  apply (absent_sequences_are_empty
           (one_file "/app/.next/routes-manifest.json"
              (json_text "{'version': 3, 'basePath': '/docs'}"))
           example_config ".next" (json_text "{'version': 3, 'basePath': '/docs'}")
           (VObj [("version", VNum 3); ("basePath", VStr "/docs")]));
    try (vm_compute; reflexivity).
  discriminate.
Defined.

Lemma translation_reads_three_fields_witness :
  translateManifest
    (VObj [("version", VNum 3); ("basePath", VStr "/docs");
           ("redirects", field flagged_redirects "redirects")])
  = translateManifest flagged_redirects.
Proof.
  apply (translation_reads_three_fields
           (VObj [("version", VNum 3); ("basePath", VStr "/docs");
                  ("redirects", field flagged_redirects "redirects")])
           flagged_redirects);
    reflexivity.
Defined.

(** X17.  Let the routes manifest be a JSON text, of any value.  Whenever
    the call returns, whatever the entries of the manifest are, every header
    of the output has the two fields [source] and [headers] and no other,
    every rewrite [source] and [destination], every redirect [source],
    [destination] and [type]; there is one header for each header of the
    manifest in the file, no more rewrites than the manifest has candidates
    and no more redirects than it has redirects. *)
Theorem output_entries_have_fixed_fields (fs : filesystem) (config : DeployConfig)
  (distDir text : string) (manifest out : value) :
  fs (getProjectPathFactory config [distDir; "routes-manifest.json"]) = Some text ->
  JSON_parse text = Ok manifest ->
  firebaseJsonStuff fs config distDir = Ok out ->
  exists headers rewrites redirects,
    out = VObj [("headers", VArr headers); ("rewrites", VArr rewrites);
                ("redirects", VArr redirects)] /\
    Forall (fun h => exists s x, h = VObj [("source", s); ("headers", x)]) headers /\
    Forall (fun w => exists s t, w = VObj [("source", s); ("destination", t)]) rewrites /\
    Forall (fun r => exists s t c,
                r = VObj [("source", s); ("destination", t); ("type", c)]) redirects /\
    List.length headers = List.length (entries manifest "headers") /\
    (List.length rewrites <= List.length (rewrite_candidates manifest))%nat /\
    (List.length redirects <= List.length (entries manifest "redirects"))%nat.
Proof.
  intros Hfile Hparse.
  rewrite (firebaseJsonStuff_any fs config distDir text manifest Hfile Hparse).
  destruct (translatable manifest); [|discriminate].
  intros H. injection H as <-. unfold translated.
  eexists. eexists. eexists. split; [reflexivity|].
  repeat split.
  - apply Forall_forall. intros h Hh. apply in_map_iff in Hh as [x [<- _]].
    eexists. eexists. reflexivity.
  - apply Forall_forall. intros w Hw. apply in_map_iff in Hw as [x [<- _]].
    eexists. eexists. reflexivity.
  - apply Forall_forall. intros r Hr. apply in_map_iff in Hr as [x [<- _]].
    eexists. eexists. eexists. reflexivity.
  - apply length_map.
  - rewrite length_map. apply filter_length_le.
  - rewrite length_map. apply filter_length_le.
Qed.

Lemma output_entries_have_fixed_fields_witness :
  JSON_parse untyped_entries_text = Ok untyped_entries /\
  exists headers rewrites redirects,
    firebaseJsonStuff (one_file "/app/.next/routes-manifest.json" untyped_entries_text)
      example_config ".next"
    = Ok (VObj [("headers", VArr headers); ("rewrites", VArr rewrites);
                ("redirects", VArr redirects)]) /\
    Forall (fun h => exists s x, h = VObj [("source", s); ("headers", x)]) headers /\
    Forall (fun w => exists s t, w = VObj [("source", s); ("destination", t)]) rewrites /\
    Forall (fun r => exists s t c,
                r = VObj [("source", s); ("destination", t); ("type", c)]) redirects /\
    List.length headers = 2%nat /\
    (List.length rewrites <= 2)%nat /\
    (List.length redirects <= 2)%nat.
Proof.
  split; [vm_compute; reflexivity|].
  destruct (output_entries_have_fixed_fields
              (one_file "/app/.next/routes-manifest.json" untyped_entries_text)
              example_config ".next" untyped_entries_text untyped_entries
              (translated untyped_entries))
    as [headers [rewrites [redirects [Hout H]]]];
    try (vm_compute; reflexivity).
  exists headers, rewrites, redirects. split; [|exact H].
  rewrite <- Hout. vm_compute. reflexivity.
Defined.

(** * The function descriptor *)

Lemma functions_descriptor_text (f : FunctionTarget) :
  JSON_stringify2 (functions_descriptor f)
  = json_text "{
  'endpoints': {
    " ++ QuoteJSONString (name f) ++ json_text ": {
      'platform': " ++ QuoteJSONString ("gcfv" ++ Number_toString (gen f)) ++ json_text ",
      'region': [
        " ++ QuoteJSONString (region f) ++ json_text "
      ],
      'labels': {},
      'httpsTrigger': {},
      'entryPoint': " ++ QuoteJSONString (name f) ++ json_text "
    }
  },
  'specVersion': 'v1alpha1',
  'requiredAPIs': []
}".
Proof.
  cbv [JSON_stringify2 functions_descriptor serialize wrap member join QuoteJSONString
         map flat_map List.app fst snd].
  generalize (quote_body (name f)) as qn.
  generalize (quote_body (region f)) as qr.
  generalize (quote_body ("gcfv" ++ Number_toString (gen f))) as qp.
  intros qp qr qn. cbn. unfold str1.
  right_nested. reflexivity.
Qed.

(** C6.  For generation 1 or 2 the function descriptor is the JSON text,
    indented by two spaces, of {endpoints, specVersion, requiredAPIs}:
    [endpoints] has the one key [name], with platform gcfv1 or gcfv2, the
    one region, no labels, an https trigger and the entry point [name];
    the text parses back to that descriptor. *)
Theorem functions_descriptor_serialized (config : DeployConfig) (f : FunctionTarget) :
  function config = Some f ->
  gen f = 1 \/ gen f = 2 ->
  exists text endpoint,
    newFunctionsYaml config = Ok text /\
    JSON_parse text
    = Ok (VObj [("endpoints", VObj [(name f, endpoint)]);
                ("specVersion", VStr "v1alpha1");
                ("requiredAPIs", VArr [])]) /\
    endpoint
    = VObj [("platform", VStr (if gen f =? 1 then "gcfv1" else "gcfv2"));
            ("region", VArr [VStr (region f)]);
            ("labels", VObj []);
            ("httpsTrigger", VObj []);
            ("entryPoint", VStr (name f))] /\
    text
    = json_text "{
  'endpoints': {
    " ++ QuoteJSONString (name f) ++ json_text ": {
      'platform': " ++ (if gen f =? 1 then json_text "'gcfv1'" else json_text "'gcfv2'")
      ++ json_text ",
      'region': [
        " ++ QuoteJSONString (region f) ++ json_text "
      ],
      'labels': {},
      'httpsTrigger': {},
      'entryPoint': " ++ QuoteJSONString (name f) ++ json_text "
    }
  },
  'specVersion': 'v1alpha1',
  'requiredAPIs': []
}".
Proof.
  intros Hf Hgen. unfold newFunctionsYaml. rewrite Hf.
  eexists. eexists. split; [reflexivity|].
  assert (Hplatform : "gcfv" ++ Number_toString (gen f)
                      = if gen f =? 1 then "gcfv1" else "gcfv2")
    by (destruct Hgen as [-> | ->]; reflexivity).
  split; [|split; [reflexivity|]].
  - rewrite JSON_parse_stringify2.
    + unfold functions_descriptor. rewrite Hplatform. reflexivity.
    + unfold functions_descriptor, is_JSON. cbn [map fst snd forallb keys_ordered].
      unfold index_before. destruct (array_index (name f)); reflexivity.
  - rewrite functions_descriptor_text, Hplatform.
    destruct (gen f =? 1); reflexivity.
Qed.

Lemma functions_descriptor_serialized_witness :
  exists text endpoint,
    newFunctionsYaml example_config = Ok text /\
    JSON_parse text
    = Ok (VObj [("endpoints", VObj [("ssr", endpoint)]);
                ("specVersion", VStr "v1alpha1");
                ("requiredAPIs", VArr [])]) /\
    endpoint
    = VObj [("platform", VStr "gcfv2");
            ("region", VArr [VStr "us-central1"]);
            ("labels", VObj []);
            ("httpsTrigger", VObj []);
            ("entryPoint", VStr "ssr")] /\
    text
    = json_text "{
  'endpoints': {
    'ssr': {
      'platform': 'gcfv2',
      'region': [
        'us-central1'
      ],
      'labels': {},
      'httpsTrigger': {},
      'entryPoint': 'ssr'
    }
  },
  'specVersion': 'v1alpha1',
  'requiredAPIs': []
}".
Proof.
  apply (functions_descriptor_serialized example_config
           {| gen := 2; name := "ssr"; region := "us-central1" |}).
  - reflexivity.
  - right. reflexivity.
Defined.

(** ** The descriptor determines the function target *)

Lemma string_of_uint_inj (u u' : uint) :
  NilEmpty.string_of_uint u = NilEmpty.string_of_uint u' -> u = u'.
Proof.
  intros H. apply (f_equal NilEmpty.uint_of_string) in H.
  rewrite !NilEmpty.usu in H. injection H as H. exact H.
Qed.

Lemma digits_no_sign (u : uint) (s : string) :
  NilEmpty.string_of_uint u <> String "-" s.
Proof. destruct u; discriminate. Qed.

Lemma digits_of_positive_inj (p q : positive) :
  NilEmpty.string_of_uint (Pos.to_uint p) = NilEmpty.string_of_uint (Pos.to_uint q) ->
  p = q.
Proof.
  intros H. apply string_of_uint_inj in H.
  exact (DecimalPos.Unsigned.to_uint_inj p q H).
Qed.

Lemma digits_of_positive_not_zero (p : positive) :
  NilEmpty.string_of_uint (Pos.to_uint p) <> "0".
Proof.
  intros H. change "0" with (NilEmpty.string_of_uint (D0 Nil)) in H.
  apply string_of_uint_inj in H. exact (to_uint_no_leading_zero p Nil H).
Qed.

Lemma Number_toString_inj (n n' : Z) :
  Number_toString n = Number_toString n' -> n = n'.
Proof.
  destruct n as [|p|p], n' as [|q|q]; cbn [Number_toString]; intros H;
    try reflexivity.
  - symmetry in H. destruct (digits_of_positive_not_zero q H).
  - discriminate H.
  - destruct (digits_of_positive_not_zero p H).
  - f_equal. exact (digits_of_positive_inj p q H).
  - destruct (digits_no_sign _ _ H).
  - discriminate H.
  - symmetry in H. destruct (digits_no_sign _ _ H).
  - injection H as H. f_equal. exact (digits_of_positive_inj p q H).
Qed.

Lemma functions_descriptor_JSON (f : FunctionTarget) :
  is_JSON (functions_descriptor f) = true.
Proof.
  unfold functions_descriptor, is_JSON. cbn [map fst snd forallb keys_ordered].
  unfold index_before. destruct (array_index (name f)); reflexivity.
Qed.

(** X6.  The function descriptor loses nothing of the function target.
    For generations that are numbers exactly, whatever the name and the
    region, the text parses back to the descriptor, and two configurations
    get the same text if and only if they have the same function target:
    another generation, another name or another region gives another
    text. *)
Theorem functions_descriptor_injective (config1 config2 : DeployConfig)
  (f1 f2 : FunctionTarget) :
  function config1 = Some f1 ->
  function config2 = Some f2 ->
  Z.abs (gen f1) <= MAX_SAFE_INTEGER ->
  Z.abs (gen f2) <= MAX_SAFE_INTEGER ->
  (exists text,
     newFunctionsYaml config1 = Ok text /\
     JSON_parse text = Ok (functions_descriptor f1)) /\
  (newFunctionsYaml config1 = newFunctionsYaml config2 <-> f1 = f2).
Proof.
  intros H1 H2 _ _. unfold newFunctionsYaml. rewrite H1, H2. split; [|split].
  - eexists. split; [reflexivity|].
    apply JSON_parse_stringify2, functions_descriptor_JSON.
  - intros H. apply (f_equal (fun r => text <- r ;; JSON_parse text)) in H.
    cbn [bind] in H.
    rewrite !JSON_parse_stringify2 in H by apply functions_descriptor_JSON.
    unfold functions_descriptor in H. injection H as Hname Hplatform Hregion _.
    apply Number_toString_inj in Hplatform.
    destruct f1, f2. cbn [gen name region] in *. subst. reflexivity.
  - intros ->. reflexivity.
Qed.

Lemma functions_descriptor_injective_witness :
  Z.abs 2 <= MAX_SAFE_INTEGER /\
  Z.abs 1 <= MAX_SAFE_INTEGER /\
  newFunctionsYaml example_config
  <> newFunctionsYaml {| projectPath := projectPath example_config;
                         function := Some {| gen := 1; name := "ssr";
                                             region := "us-central1" |} |} /\
  newFunctionsYaml example_config
  <> newFunctionsYaml {| projectPath := projectPath example_config;
                         function := Some {| gen := 2; name := "ssr";
                                             region := "europe-west1" |} |} /\
  newFunctionsYaml example_config
  = newFunctionsYaml {| projectPath := join "\";
                        function := Some {| gen := 2; name := "ssr";
                                            region := "us-central1" |} |}.
Proof.
  assert (B2 : Z.abs 2 <= MAX_SAFE_INTEGER) by (vm_compute; discriminate).
  assert (B1 : Z.abs 1 <= MAX_SAFE_INTEGER) by (vm_compute; discriminate).
  split; [exact B2|]. split; [exact B1|]. split; [|split].
  - intros H.
    apply (functions_descriptor_injective example_config
             {| projectPath := projectPath example_config;
                function := Some {| gen := 1; name := "ssr"; region := "us-central1" |} |}
             {| gen := 2; name := "ssr"; region := "us-central1" |}
             {| gen := 1; name := "ssr"; region := "us-central1" |}
             eq_refl eq_refl B2 B1) in H.
    discriminate H.
  - intros H.
    apply (functions_descriptor_injective example_config
             {| projectPath := projectPath example_config;
                function := Some {| gen := 2; name := "ssr";
                                    region := "europe-west1" |} |}
             {| gen := 2; name := "ssr"; region := "us-central1" |}
             {| gen := 2; name := "ssr"; region := "europe-west1" |}
             eq_refl eq_refl B2 B2) in H.
    discriminate H.
  - apply (functions_descriptor_injective example_config
             {| projectPath := join "\";
                function := Some {| gen := 2; name := "ssr"; region := "us-central1" |} |}
             {| gen := 2; name := "ssr"; region := "us-central1" |}
             {| gen := 2; name := "ssr"; region := "us-central1" |}
             eq_refl eq_refl B2 B2).
    reflexivity.
Defined.

(** * The server script *)




Lemma lines_around (before middle after : string) :
  no_LF middle = true ->
  lines (before ++ middle ++ after)
  = (removelast (lines before)
       ++ (last (lines before) "" ++ middle ++ hd "" (lines after))%string
       :: tl (lines after))%list.
Proof.
  intros H. rewrite lines_app, (lines_no_LF middle after H). reflexivity.
Qed.










(** C9.  The script is a function of the function target and of the client
    options alone: two calls that agree on them return the same text. *)
Theorem newServerJs_deterministic (config1 config2 : DeployConfig)
  (options1 options2 : value) :
  function config1 = function config2 ->
  options1 = options2 ->
  newServerJs config1 options1 = newServerJs config2 options2.
Proof.
  intros Hf Ho. subst options2. unfold newServerJs. rewrite Hf.
  destruct (function config2) as [f|]; reflexivity.
Qed.

Lemma newServerJs_deterministic_witness :
  newServerJs example_config (VObj [("apiKey", VStr "k")])
  = newServerJs {| projectPath := join "\";
                   function := Some {| gen := 2; name := "ssr";
                                       region := "us-central1" |} |}
      (VObj [("apiKey", VStr "k")]).
Proof.
  apply (newServerJs_deterministic example_config
           {| projectPath := join "\";
              function := Some {| gen := 2; name := "ssr"; region := "us-central1" |} |}
           (VObj [("apiKey", VStr "k")]) (VObj [("apiKey", VStr "k")]));
    reflexivity.
Defined.

(** ** What the script depends on *)

(** *** Texts with a common beginning or a common end *)

Lemma append_inv_head (a b c : string) : a ++ b = a ++ c -> b = c.
Proof.
  induction a as [|x a IH]; cbn [append]; intros H; [exact H|].
  injection H as H. exact (IH H).
Qed.

Lemma length_append (a b : string) :
  String.length (a ++ b) = (String.length a + String.length b)%nat.
Proof.
  induction a as [|x a IH]; cbn [append String.length]; [reflexivity|].
  rewrite IH. reflexivity.
Qed.

Lemma append_inv_tail (a b c : string) : a ++ c = b ++ c -> a = b.
Proof.
  revert b. induction a as [|x a IH]; intros [|y b]; cbn [append]; intros H.
  - reflexivity.
  - apply (f_equal String.length) in H. cbn [String.length] in H.
    rewrite length_append in H. lia.
  - apply (f_equal String.length) in H. cbn [String.length] in H.
    rewrite length_append in H. lia.
  - injection H as -> H. f_equal. exact (IH b H).
Qed.

(** The second-generation script, cut around the region. *)
Lemma newServerJs_around_region (config : DeployConfig) (f : FunctionTarget)
  (options : value) :
  function config = Some f ->
  gen f <> 1 ->
  newServerJs config options
  = Ok (("const { onRequest } = require('firebase-functions/v2/https');"
           ++ server_requires
           ++ (if truthy options
               then session_setup_before ++ JSON_stringify options ++ session_setup_after
               else "")
           ++ server_exports ++ JSON_stringify (VStr (name f)) ++ "] = "
           ++ "onRequest({ region: '")
          ++ region f
          ++ ("' }, " ++ "async (req, res) => {"
                ++ (if truthy options then session_bridge else "")
                ++ server_handler)).
Proof.
  intros Hf Hgen. unfold newServerJs. rewrite Hf.
  apply Z.eqb_neq in Hgen. rewrite Hgen.
  generalize server_requires, server_exports, server_handler,
    (if truthy options
     then session_setup_before ++ JSON_stringify options ++ session_setup_after
     else ""),
    (if truthy options then session_bridge else ""),
    (JSON_stringify (VStr (name f))).
  intros q x h blk brg jn. f_equal.
  repeat rewrite append_assoc. reflexivity.
Qed.

(** X7.  The generation decides the idiom of the script and nothing else.
    The script of a first-generation function does not hold the region: two
    targets of that generation with the same name get the same script.  Every
    other generation gets the second-generation script, which determines the
    region: two such targets with the same name get the same script exactly
    when they have the same region. *)
Theorem region_written_unless_first_generation (config1 config2 : DeployConfig)
  (f1 f2 : FunctionTarget) (options : value) :
  function config1 = Some f1 ->
  function config2 = Some f2 ->
  name f1 = name f2 ->
  (gen f1 = 1 -> gen f2 = 1 ->
   newServerJs config1 options = newServerJs config2 options) /\
  (gen f1 <> 1 -> gen f2 <> 1 ->
   (newServerJs config1 options = newServerJs config2 options
    <-> region f1 = region f2)).
Proof.
  intros H1 H2 Hname. split.
  - intros G1 G2. unfold newServerJs. rewrite H1, H2, Hname, G1, G2. reflexivity.
  - intros G1 G2.
    rewrite (newServerJs_around_region config1 f1 options H1 G1),
      (newServerJs_around_region config2 f2 options H2 G2), Hname.
    match goal with
    | |- Ok (?before ++ _ ++ ?after) = _ <-> _ =>
        generalize before as a, after as b
    end.
    intros a b. split.
    + intros H. assert (H' : a ++ region f1 ++ b = a ++ region f2 ++ b) by congruence.
      apply append_inv_head, append_inv_tail in H'. exact H'.
    + intros ->. reflexivity.
Qed.

Lemma region_written_unless_first_generation_witness :
  newServerJs {| projectPath := join "/";
                 function := Some {| gen := 1; name := "ssr"; region := "us-central1" |} |}
    VNull
  = newServerJs {| projectPath := join "/";
                   function := Some {| gen := 1; name := "ssr";
                                       region := "europe-west1" |} |}
      VNull /\
  (newServerJs {| projectPath := join "/";
                  function := Some {| gen := 2; name := "ssr"; region := "us-central1" |} |}
     VNull
   = newServerJs {| projectPath := join "/";
                    function := Some {| gen := 2; name := "ssr";
                                        region := "europe-west1" |} |}
       VNull
   <-> "us-central1" = "europe-west1").
Proof.
  split.
  - destruct (region_written_unless_first_generation
                {| projectPath := join "/";
                   function := Some {| gen := 1; name := "ssr";
                                       region := "us-central1" |} |}
                {| projectPath := join "/";
                   function := Some {| gen := 1; name := "ssr";
                                       region := "europe-west1" |} |}
                {| gen := 1; name := "ssr"; region := "us-central1" |}
                {| gen := 1; name := "ssr"; region := "europe-west1" |} VNull
                eq_refl eq_refl eq_refl) as [Hfirst _].
    exact (Hfirst eq_refl eq_refl).
  - destruct (region_written_unless_first_generation
                {| projectPath := join "/";
                   function := Some {| gen := 2; name := "ssr";
                                       region := "us-central1" |} |}
                {| projectPath := join "/";
                   function := Some {| gen := 2; name := "ssr";
                                       region := "europe-west1" |} |}
                {| gen := 2; name := "ssr"; region := "us-central1" |}
                {| gen := 2; name := "ssr"; region := "europe-west1" |} VNull
                eq_refl eq_refl eq_refl) as [_ Hsecond].
    apply Hsecond; discriminate.
Defined.

(** *** The lines of the script *)

Lemma last_app_cons {A} (l l' : list A) (x d : A) :
  last (l ++ x :: l') d = last (x :: l') d.
Proof.
  induction l as [|y l IH]; [reflexivity|].
  change ((y :: l) ++ x :: l')%list with (y :: (l ++ x :: l'))%list.
  destruct (l ++ x :: l')%list eqn:E; [destruct l; discriminate E|].
  cbn [last]. exact IH.
Qed.

Lemma removelast_app_cons {A} (l l' : list A) (x : A) :
  removelast (l ++ x :: l') = (l ++ removelast (x :: l'))%list.
Proof. apply removelast_app. discriminate. Qed.

Lemma no_LF_digits (u : uint) : no_LF (NilEmpty.string_of_uint u) = true.
Proof. induction u; cbn [NilEmpty.string_of_uint no_LF]; try reflexivity; exact IHu. Qed.

Lemma no_LF_Number_toString (n : Z) : no_LF (Number_toString n) = true.
Proof. destruct n; cbn [Number_toString append no_LF]; try reflexivity; apply no_LF_digits. Qed.

Lemma no_LF_join (sep : string) (l : list string) :
  no_LF sep = true -> forallb no_LF l = true -> no_LF (join sep l) = true.
Proof.
  intros Hsep. induction l as [|s l IH]; cbn [join forallb]; [reflexivity|].
  intros H. apply andb_prop in H as [Hs Hl].
  destruct l as [|s' l]; [exact Hs|].
  rewrite !no_LF_app, Hs, Hsep, (IH Hl). reflexivity.
Qed.

Lemma no_LF_wrap (opening closing : string) (indent : string) (partial : list string) :
  no_LF opening = true -> no_LF closing = true ->
  forallb no_LF partial = true ->
  no_LF (wrap opening closing "" indent partial) = true.
Proof.
  intros Ho Hc Hp. unfold wrap. destruct partial as [|s l].
  - rewrite no_LF_app, Ho, Hc. reflexivity.
  - cbn [String.eqb]. rewrite !no_LF_app, Ho, Hc, (no_LF_join "," (s :: l) eq_refl Hp).
    reflexivity.
Qed.

(** A JSON text written without indentation is one line. *)
Lemma no_LF_serialize (v : value) :
  forall indent s, serialize "" indent v = Some s -> no_LF s = true.
Proof.
  induction v as [| |b|n|s0|xs IH|ps IH] using value_ind;
    intros indent s; cbn [serialize].
  - discriminate.
  - intros H. injection H as <-. reflexivity.
  - destruct b; intros H; injection H as <-; reflexivity.
  - intros H. injection H as <-. apply no_LF_Number_toString.
  - intros H. injection H as <-. apply QuoteJSONString_no_LF.
  - intros H. injection H as <-. apply no_LF_wrap; try reflexivity.
    induction IH as [|x xs Hx _ IHxs]; cbn [map forallb]; [reflexivity|].
    rewrite IHxs, andb_true_r.
    destruct (serialize "" (indent ++ "") x) as [t|] eqn:E; [exact (Hx _ _ E)|reflexivity].
  - intros H. injection H as <-. apply no_LF_wrap; try reflexivity.
    induction IH as [|[k x] ps Hx _ IHps]; cbn [flat_map forallb]; [reflexivity|].
    cbn [fst snd] in *.
    destruct (serialize "" (indent ++ "") x) as [t|] eqn:E; cbn [List.app forallb].
    + rewrite IHps, andb_true_r. unfold member. cbn [String.eqb].
      rewrite !no_LF_app, QuoteJSONString_no_LF, (Hx _ _ E). reflexivity.
    + exact IHps.
Qed.

Lemma no_LF_JSON_stringify (v : value) : no_LF (JSON_stringify v) = true.
Proof.
  unfold JSON_stringify. destruct (serialize "" "" v) as [s|] eqn:E.
  - exact (no_LF_serialize v "" s E).
  - reflexivity.
Qed.

Lemma Ok_inj {A} (a b : A) : Ok a = Ok b -> a = b.
Proof. congruence. Qed.

Lemma last_line_exports (before : string) :
  last (lines (before ++ server_exports)) "" = "exports[".
Proof.
  rewrite lines_app.
  assert (E : lines server_exports
              = [""; ""; "const nextApp = next({ dev: false, dir: __dirname });";
                 "const nextAppPrepare = nextApp.prepare();"; ""; "exports["])
    by (vm_compute; reflexivity).
  rewrite E. cbn [hd tl]. rewrite last_app_cons. reflexivity.
Qed.

Lemma last_line_setup (before : string) :
  last (lines (before ++ session_setup_before)) "" = "const firebaseConfig = ".
Proof.
  rewrite lines_app.
  assert (E : exists l, tl (lines session_setup_before)
                        = (l ++ ["const firebaseConfig = "])%list)
    by (exists (removelast (tl (lines session_setup_before))); vm_compute; reflexivity).
  destruct E as [l E]. rewrite E.
  rewrite app_comm_cons, List.app_assoc. apply last_last.
Qed.

Lemma first_line_setup (after : string) :
  hd "" (lines (session_setup_after ++ after)) = ";".
Proof.
  rewrite lines_app.
  assert (E : exists l, removelast (lines session_setup_after) = ";" :: l)
    by (eexists; vm_compute; reflexivity).
  destruct E as [l E]. rewrite E. reflexivity.
Qed.

(** X8.  The function name is written on one line of the script, as a JSON
    string after [exports[]; no other line depends on it.  Whatever
    characters the name has, it adds no line to the script, and the JSON
    string parses back to the name. *)
Theorem name_on_one_line (g : Z) (r : string) (options : value) :
  exists before rest after,
    forall config n text,
      function config = Some {| gen := g; name := n; region := r |} ->
      newServerJs config options = Ok text ->
      lines text
      = (before ++ ("exports[" ++ QuoteJSONString n ++ rest)%string :: after)%list /\
      JSON_parse (QuoteJSONString n) = Ok (VStr n).
Proof.
  pose (imports := if g =? 1 then "const functions = require('firebase-functions');"
                   else "const { onRequest } = require('firebase-functions/v2/https');").
  pose (blk := if truthy options
               then session_setup_before ++ JSON_stringify options ++ session_setup_after
               else "").
  pose (A := "] = " ++ (if g =? 1 then "functions.https.onRequest("
                        else "onRequest({ region: '" ++ r ++ "' }, ")
               ++ "async (req, res) => {"
               ++ (if truthy options then session_bridge else "") ++ server_handler).
  exists (removelast (lines ((imports ++ server_requires ++ blk) ++ server_exports))),
    (hd "" (lines A)), (tl (lines A)).
  intros config n text Hf Htext.
  split; [|exact (JSON_parse_stringify (VStr n) eq_refl)].
  unfold newServerJs in Htext. rewrite Hf in Htext.
  cbn [gen name region] in Htext. apply Ok_inj in Htext. subst text.
  change (JSON_stringify (VStr n)) with (QuoteJSONString n).
  fold imports blk.
  replace (imports ++ server_requires ++ blk ++ server_exports ++ QuoteJSONString n
             ++ "] = " ++ (if g =? 1 then "functions.https.onRequest("
                           else "onRequest({ region: '" ++ r ++ "' }, ")
             ++ "async (req, res) => {"
             ++ (if truthy options then session_bridge else "") ++ server_handler)
    with (((imports ++ server_requires ++ blk) ++ server_exports)
            ++ QuoteJSONString n ++ A)
    by (unfold A; repeat rewrite append_assoc; reflexivity).
  rewrite (lines_around _ (QuoteJSONString n) A (QuoteJSONString_no_LF n)).
  rewrite last_line_exports. reflexivity.
Qed.

Lemma name_on_one_line_witness :
  exists text before rest after,
    newServerJs example_config VNull = Ok text /\
    lines text
    = (before ++ ("exports[" ++ QuoteJSONString "ssr" ++ rest)%string :: after)%list /\
    JSON_parse (QuoteJSONString "ssr") = Ok (VStr "ssr").
Proof.
  destruct (name_on_one_line 2 "us-central1" VNull) as [before [rest [after H]]].
  eexists. exists before, rest, after. split; [reflexivity|].
  apply (H example_config "ssr"); reflexivity.
Defined.

(** X9.  The client options are written on one line of the script, as the
    JSON text of [const firebaseConfig = ...;]; no other line depends on
    them, and the JSON text parses back to the options. *)
Theorem options_on_one_line (f : FunctionTarget) :
  exists before after,
    forall config options text,
      function config = Some f ->
      truthy options = true ->
      newServerJs config options = Ok text ->
      lines text
      = (before ++ ("const firebaseConfig = " ++ JSON_stringify options ++ ";")%string
           :: after)%list /\
      (is_JSON options = true -> JSON_parse (JSON_stringify options) = Ok options).
Proof.
  pose (imports := if gen f =? 1 then "const functions = require('firebase-functions');"
                   else "const { onRequest } = require('firebase-functions/v2/https');").
  pose (S := server_exports ++ JSON_stringify (VStr (name f)) ++ "] = "
               ++ (if gen f =? 1 then "functions.https.onRequest("
                   else "onRequest({ region: '" ++ region f ++ "' }, ")
               ++ "async (req, res) => {" ++ session_bridge ++ server_handler).
  exists (removelast (lines ((imports ++ server_requires) ++ session_setup_before))),
    (tl (lines (session_setup_after ++ S))).
  intros config options text Hf Hopt Htext. split; [|apply JSON_parse_stringify].
  unfold newServerJs in Htext. rewrite Hf, Hopt in Htext.
  apply Ok_inj in Htext. subst text. fold imports.
  replace (imports ++ server_requires
             ++ (session_setup_before ++ JSON_stringify options ++ session_setup_after)
             ++ server_exports ++ JSON_stringify (VStr (name f)) ++ "] = "
             ++ (if gen f =? 1 then "functions.https.onRequest("
                 else "onRequest({ region: '" ++ region f ++ "' }, ")
             ++ "async (req, res) => {" ++ session_bridge ++ server_handler)
    with (((imports ++ server_requires) ++ session_setup_before)
            ++ JSON_stringify options ++ (session_setup_after ++ S))
    by (unfold S; repeat rewrite append_assoc; reflexivity).
  rewrite (lines_around _ (JSON_stringify options) _ (no_LF_JSON_stringify options)).
  rewrite last_line_setup, first_line_setup. reflexivity.
Qed.

Lemma options_on_one_line_witness :
  exists text before after,
    newServerJs example_config (VObj [("apiKey", VStr "k")]) = Ok text /\
    lines text
    = (before ++ ("const firebaseConfig = "
                    ++ JSON_stringify (VObj [("apiKey", VStr "k")]) ++ ";")%string
         :: after)%list /\
    JSON_parse (JSON_stringify (VObj [("apiKey", VStr "k")]))
    = Ok (VObj [("apiKey", VStr "k")]).
Proof.
  destruct (options_on_one_line {| gen := 2; name := "ssr"; region := "us-central1" |})
    as [before [after H]].
  eexists. exists before, after. split; [reflexivity|].
  destruct (H example_config (VObj [("apiKey", VStr "k")]) _ eq_refl eq_refl eq_refl)
    as [Hlines Hparse].
  split; [exact Hlines|exact (Hparse eq_refl)].
Defined.

(** * The package manifest *)

(** ** Assignments of defaults *)

(** What [o[k] ||= d] leaves in an object. *)
Lemma or_assign_object (ps : props) (k : string) (d : string) :
  exists ps',
    or_assign (VObj ps) k (VStr d) = Ok (VObj ps') /\
    lookup k ps' = Some (kept_or_default d (lookup k ps)) /\
    forall k', k' <> k -> lookup k' ps' = lookup k' ps.
Proof.
  unfold or_assign, prop, kept_or_default.
  destruct (lookup k ps) as [x|] eqn:E.
  - destruct (truthy x) eqn:T.
    + exists ps. split; [reflexivity|]. split; [exact E|]. reflexivity.
    + exists (obj_set k (VStr d) ps). split; [reflexivity|].
      split; [apply lookup_obj_set_same|].
      intros k' Hne. apply lookup_obj_set_other, Hne.
  - exists (obj_set k (VStr d) ps). cbn [truthy]. split; [reflexivity|].
    split; [apply lookup_obj_set_same|].
    intros k' Hne. apply lookup_obj_set_other, Hne.
Qed.

(** What [o.field[k] ||= d] leaves in [o], when [o.field] is an object. *)
Lemma or_assign_in_object (o : props) (fld k d : string) (ps : props) :
  lookup fld o = Some (VObj ps) ->
  exists o' ps',
    or_assign_in o fld k (VStr d) = Ok o' /\
    lookup fld o' = Some (VObj ps') /\
    (forall f', f' <> fld -> lookup f' o' = lookup f' o) /\
    lookup k ps' = Some (kept_or_default d (lookup k ps)) /\
    (forall k', k' <> k -> lookup k' ps' = lookup k' ps) /\
    or_assign (VObj ps) k (VStr d) = Ok (VObj ps').
Proof.
  intros Hfld. unfold or_assign_in, prop. rewrite Hfld.
  destruct (or_assign_object ps k d) as [ps' [E [Hk Hother]]].
  rewrite E. cbn [bind].
  exists (replace fld (VObj ps') o), ps'. split; [reflexivity|].
  split; [apply lookup_replace_same; congruence|].
  split; [intros f' Hne; apply lookup_replace_other, Hne|].
  split; [assumption|]. split; [assumption|reflexivity].
Qed.

(** ** The patched package manifest *)

Lemma default_version_cases (k : string) :
  (k = "firebase-admin" /\ default_version k = Some FIREBASE_ADMIN_VERSION) \/
  (k = "firebase-functions" /\ default_version k = Some FIREBASE_FUNCTIONS_VERSION) \/
  (k = "cookie" /\ default_version k = Some COOKIE_VERSION) \/
  (k = "lru-cache" /\ default_version k = Some LRU_CACHE_VERSION) \/
  (k <> "firebase-admin" /\ k <> "firebase-functions" /\ k <> "cookie"
   /\ k <> "lru-cache" /\ default_version k = None).
Proof.
  unfold default_version.
  destruct (k =? "firebase-admin")%string eqn:E1;
    [apply String.eqb_eq in E1; auto|apply String.eqb_neq in E1].
  destruct (k =? "firebase-functions")%string eqn:E2;
    [apply String.eqb_eq in E2; auto|apply String.eqb_neq in E2].
  destruct (k =? "cookie")%string eqn:E3;
    [apply String.eqb_eq in E3; auto|apply String.eqb_neq in E3].
  destruct (k =? "lru-cache")%string eqn:E4;
    [apply String.eqb_eq in E4; auto 6|apply String.eqb_neq in E4].
  auto 10.
Qed.

(** The four dependency defaults, one after the other. *)
Lemma dependencies_filled (o deps : props) :
  lookup "dependencies" o = Some (VObj deps) ->
  exists o' deps',
    (o1 <- or_assign_in o "dependencies" "firebase-admin" (VStr FIREBASE_ADMIN_VERSION) ;;
     o2 <- or_assign_in o1 "dependencies" "firebase-functions"
             (VStr FIREBASE_FUNCTIONS_VERSION) ;;
     o3 <- or_assign_in o2 "dependencies" "cookie" (VStr COOKIE_VERSION) ;;
     or_assign_in o3 "dependencies" "lru-cache" (VStr LRU_CACHE_VERSION)) = Ok o' /\
    lookup "dependencies" o' = Some (VObj deps') /\
    (forall f, f <> "dependencies" -> lookup f o' = lookup f o) /\
    forall k, lookup k deps'
              = match default_version k with
                | Some d => Some (kept_or_default d (lookup k deps))
                | None => lookup k deps
                end.
Proof.
  intros H0.
  destruct (or_assign_in_object o "dependencies" "firebase-admin"
              FIREBASE_ADMIN_VERSION deps H0) as [o1 [d1 [E1 [L1 [F1 [K1 [O1 _]]]]]]].
  destruct (or_assign_in_object o1 "dependencies" "firebase-functions"
              FIREBASE_FUNCTIONS_VERSION d1 L1) as [o2 [d2 [E2 [L2 [F2 [K2 [O2 _]]]]]]].
  destruct (or_assign_in_object o2 "dependencies" "cookie"
              COOKIE_VERSION d2 L2) as [o3 [d3 [E3 [L3 [F3 [K3 [O3 _]]]]]]].
  destruct (or_assign_in_object o3 "dependencies" "lru-cache"
              LRU_CACHE_VERSION d3 L3) as [o4 [d4 [E4 [L4 [F4 [K4 [O4 _]]]]]]].
  exists o4, d4. rewrite E1; cbn [bind]. rewrite E2; cbn [bind].
  rewrite E3; cbn [bind]. split; [exact E4|]. split; [exact L4|].
  split.
  - intros f Hf. rewrite F4, F3, F2, F1 by exact Hf. reflexivity.
  - intros k.
    destruct (default_version_cases k)
      as [[-> ->]|[[-> ->]|[[-> ->]|[[-> ->]|[N1 [N2 [N3 [N4 ->]]]]]]]].
    + rewrite O4, O3, O2 by discriminate. exact K1.
    + rewrite O4, O3 by discriminate. rewrite K2, O1 by discriminate. reflexivity.
    + rewrite O4 by discriminate. rewrite K3, O2, O1 by discriminate. reflexivity.
    + rewrite K4, O3, O2, O1 by discriminate. reflexivity.
    + rewrite O4, O3, O2, O1 by assumption. reflexivity.
Qed.

(** The patched manifest, when [dependencies] is an object. *)
Lemma patched_object (node : string) (ps deps : props) :
  lookup "dependencies" ps = Some (VObj deps) ->
  engines_fillable ps = true ->
  exists o deps' engines',
    patched node (VObj ps) = Ok o /\
    lookup "dependencies" o = Some (VObj deps') /\
    (forall k, lookup k deps'
               = match default_version k with
                 | Some d => Some (kept_or_default d (lookup k deps))
                 | None => lookup k deps
                 end) /\
    lookup "engines" o = Some (VObj engines') /\
    lookup "node" engines'
    = Some (kept_or_default (NODE_VERSION node) (engines_node ps)) /\
    or_assign (VObj match lookup "engines" ps with
                    | Some (VObj engines) => engines
                    | _ => []
                    end) "node" (VStr (NODE_VERSION node))
    = Ok (VObj engines').
Proof.
  intros Hdeps Heng. unfold patched. cbn [spread].
  assert (H0 : lookup "dependencies" (obj_set "main" (VStr "server.js") ps)
               = Some (VObj deps))
    by (rewrite lookup_obj_set_other by discriminate; exact Hdeps).
  destruct (dependencies_filled _ deps H0) as [o4 [d4 [E [L [F K]]]]].
  unfold bind in E |- *.
  destruct (or_assign_in _ "dependencies" "firebase-admin" _) as [o1|]; [|discriminate].
  destruct (or_assign_in o1 "dependencies" "firebase-functions" _) as [o2|];
    [|discriminate].
  destruct (or_assign_in o2 "dependencies" "cookie" _) as [o3|]; [|discriminate].
  rewrite E. clear E o1 o2 o3.
  assert (Le : lookup "engines" o4 = lookup "engines" ps)
    by (rewrite F by discriminate; apply lookup_obj_set_other; discriminate).
  unfold engines_fillable in Heng. unfold engines_node. unfold prop at 1.
  rewrite Le.
  destruct (lookup "engines" ps) as [e|] eqn:Ee.
  - destruct (is_object e) eqn:Io.
    + destruct e as [| | | | | |eps]; try discriminate Io. cbn [truthy].
      destruct (or_assign_in_object o4 "engines" "node" (NODE_VERSION node) eps Le)
        as [o5 [e5 [E5 [L5 [F5 [K5 [_ A5]]]]]]].
      exists o5, d4, e5. split; [exact E5|].
      split; [rewrite F5 by discriminate; exact L|].
      split; [exact K|]. split; [exact L5|]. split; [exact K5|exact A5].
    + cbn [orb] in Heng. apply negb_true_iff in Heng. rewrite Heng.
      destruct (or_assign_in_object (obj_set "engines" (VObj []) o4)
                  "engines" "node" (NODE_VERSION node) []
                  (lookup_obj_set_same _ _ _))
        as [o5 [e5 [E5 [L5 [F5 [K5 [_ A5]]]]]]].
      exists o5, d4, e5. split; [exact E5|].
      split; [rewrite F5, lookup_obj_set_other by discriminate; exact L|].
      split; [exact K|]. split; [exact L5|].
      destruct e; try discriminate Io; (split; [exact K5|exact A5]).
  - destruct (or_assign_in_object (obj_set "engines" (VObj []) o4)
                "engines" "node" (NODE_VERSION node) []
                (lookup_obj_set_same _ _ _))
      as [o5 [e5 [E5 [L5 [F5 [K5 [_ A5]]]]]]].
    exists o5, d4, e5. split; [exact E5|].
    split; [rewrite F5, lookup_obj_set_other by discriminate; exact L|].
    split; [exact K|]. split; [exact L5|]. split; [exact K5|exact A5].
Qed.

(** C3 fails as stated: a firebase-admin entry that is present with the empty
    version range is overwritten with the default. *)
Lemma pinned_empty_version_overwritten :
  has_own (field pinned_empty "dependencies") "firebase-admin" = true /\
  field (field pinned_empty "dependencies") "firebase-admin" = VStr "" /\
  (exists o,
     patched "16.13.0" pinned_empty = Ok o /\
     field (prop o "dependencies") "firebase-admin" = VStr "^10.0.0") /\
  newPackageJson "16.13.0" pinned_empty
  = Ok (json_text "{
  'name': 'app',
  'dependencies': {
    'firebase-admin': '^10.0.0',
    'next': '12.1.0',
    'firebase-functions': '^3.16.0',
    'cookie': '^0.4.2',
    'lru-cache': '^7.3.1'
  },
  'main': 'server.js',
  'engines': {
    'node': '16'
  }
}").
Proof.
  split; [reflexivity|]. split; [reflexivity|]. split.
  - eexists. split; [vm_compute; reflexivity|]. reflexivity.
  - vm_compute. reflexivity.
Qed.

(** ** A package manifest without dependencies *)

Lemma Number_toString_not_dependencies (n : Z) :
  ("dependencies" =? Number_toString n)%string = false.
Proof.
  destruct n as [|p|p]; simpl; try reflexivity.
  destruct (Pos.to_uint p); reflexivity.
Qed.

Lemma lookup_indexed (i : nat) (xs : list value) :
  lookup "dependencies" (indexed i xs) = None.
Proof.
  revert i. induction xs as [|x xs IH]; intros i; cbn [indexed lookup]; [reflexivity|].
  rewrite Number_toString_not_dependencies. apply IH.
Qed.

Lemma spread_without_dependencies (v : value) :
  has_own v "dependencies" = false -> lookup "dependencies" (spread v) = None.
Proof.
  destruct v as [| | | | s|xs|ps]; simpl; try reflexivity.
  - intros _. apply lookup_indexed.
  - intros _. apply lookup_indexed.
  - destruct (lookup "dependencies" ps); [discriminate|reflexivity].
Qed.

(** C10.  A package manifest with no [dependencies] field makes the call
    fail: the first dependency default reads a property of [undefined].  The
    [engines] map, in contrast, is created when it is absent. *)
Theorem no_dependencies_fails (node : string) (packageJson : value) :
  has_own packageJson "dependencies" = false ->
  newPackageJson node packageJson = Err TypeError /\
  forall ps deps,
    lookup "dependencies" ps = Some (VObj deps) ->
    lookup "engines" ps = None ->
    exists o,
      patched node (VObj ps) = Ok o /\
      lookup "engines" o = Some (VObj [("node", VStr (NODE_VERSION node))]) /\
      newPackageJson node (VObj ps) = Ok (JSON_stringify2 (VObj o)).
Proof.
  intros Hno. split.
  - unfold newPackageJson, patched, or_assign_in, prop.
    rewrite lookup_obj_set_other by discriminate.
    rewrite (spread_without_dependencies packageJson Hno). reflexivity.
  - intros ps deps Hdeps Heng.
    destruct (patched_object node ps deps Hdeps)
      as [o [d' [e' [Ho [_ [_ [Le [_ A]]]]]]]].
    { unfold engines_fillable. rewrite Heng. reflexivity. }
    exists o. split; [exact Ho|]. split.
    + rewrite Heng in A.
      change (or_assign (VObj []) "node" (VStr (NODE_VERSION node)))
        with (Ok (VObj [("node", VStr (NODE_VERSION node))])) in A.
      injection A as <-. exact Le.
    + unfold newPackageJson. rewrite Ho. reflexivity.
Qed.

Lemma no_dependencies_fails_witness :
  has_own (VObj [("name", VStr "app"); ("engines", VObj [])]) "dependencies" = false /\
  newPackageJson "16.13.0" (VObj [("name", VStr "app"); ("engines", VObj [])])
  = Err TypeError.
Proof.
  split; [reflexivity|].
  apply (no_dependencies_fails "16.13.0"
           (VObj [("name", VStr "app"); ("engines", VObj [])])).
  reflexivity.
Defined.

(** ** Patching twice *)

Lemma replace_same (k : string) (v : value) (ps : props) :
  lookup k ps = Some v -> replace k v ps = ps.
Proof.
  induction ps as [|[k' x] ps IH]; cbn [lookup replace]; [reflexivity|].
  destruct (k =? k')%string.
  - intros H. injection H as ->. reflexivity.
  - intros H. rewrite (IH H). reflexivity.
Qed.

Lemma obj_set_same (k : string) (v : value) (ps : props) :
  lookup k ps = Some v -> obj_set k v ps = ps.
Proof. intros H. unfold obj_set. rewrite H. apply replace_same, H. Qed.

Lemma or_assign_settles (o : value) (k : string) (d o' : value) :
  or_assign o k d = Ok o' -> settled o' k d.
Proof.
  destruct o as [| | | | |xs|ps]; cbn [or_assign]; try discriminate.
  - intros H. injection H as <-. exact I.
  - unfold prop. destruct (lookup k ps) as [x|] eqn:E.
    + destruct (truthy x) eqn:T; intros H; injection H as <-; cbn [settled].
      * exists x. split; [exact E|left; exact T].
      * exists d. split; [apply lookup_obj_set_same|right; reflexivity].
    + cbn [truthy]. intros H. injection H as <-. cbn [settled].
      exists d. split; [apply lookup_obj_set_same|right; reflexivity].
Qed.

Lemma or_assign_fixed (o : value) (k : string) (d : value) :
  settled o k d -> or_assign o k d = Ok o.
Proof.
  destruct o as [| | | | |xs|ps]; cbn [settled or_assign]; try contradiction.
  - reflexivity.
  - intros [x [E [T| ->]]]; unfold prop; rewrite E.
    + rewrite T. reflexivity.
    + destruct (truthy d); [reflexivity|]. rewrite (obj_set_same k d ps E). reflexivity.
Qed.

Lemma or_assign_keeps (o : value) (k k' : string) (d d' o' : value) :
  settled o k d -> k <> k' -> or_assign o k' d' = Ok o' -> settled o' k d.
Proof.
  destruct o as [| | | | |xs|ps]; cbn [settled or_assign]; try contradiction.
  - intros _ _ H. injection H as <-. exact I.
  - intros [x [E Hx]] Hne H.
    destruct (truthy (prop ps k')); injection H as <-; cbn [settled].
    + exists x. split; assumption.
    + exists x. split; [|exact Hx]. rewrite lookup_obj_set_other by exact Hne. exact E.
Qed.

Lemma settled_is_there (ps : props) (fld k : string) (d : value) :
  settled (prop ps fld) k d -> lookup fld ps = Some (prop ps fld).
Proof.
  unfold prop. destruct (lookup fld ps); [reflexivity|]. cbn [settled]. contradiction.
Qed.

Lemma or_assign_in_lookup (o o' : props) (fld k : string) (d : value) :
  or_assign_in o fld k d = Ok o' ->
  exists t, or_assign (prop o fld) k d = Ok t /\
            lookup fld o' = Some t /\
            forall f, f <> fld -> lookup f o' = lookup f o.
Proof.
  unfold or_assign_in. destruct (or_assign (prop o fld) k d) as [t|e] eqn:E;
    cbn [bind]; [|discriminate].
  intros H. injection H as <-. exists t. split; [reflexivity|]. split.
  - apply lookup_replace_same. unfold prop in E.
    destruct (lookup fld o); [discriminate|]. discriminate E.
  - intros f Hf. apply lookup_replace_other, Hf.
Qed.

Lemma or_assign_in_settles (o o' : props) (fld k : string) (d : value) :
  or_assign_in o fld k d = Ok o' -> settled (prop o' fld) k d.
Proof.
  intros H. destruct (or_assign_in_lookup o o' fld k d H) as [t [E [L _]]].
  unfold prop. rewrite L. exact (or_assign_settles _ _ _ _ E).
Qed.

Lemma or_assign_in_fixed (o : props) (fld k : string) (d : value) :
  settled (prop o fld) k d -> or_assign_in o fld k d = Ok o.
Proof.
  intros H. unfold or_assign_in. rewrite (or_assign_fixed _ _ _ H). cbn [bind].
  rewrite (replace_same fld _ o (settled_is_there o fld k d H)). reflexivity.
Qed.

Lemma or_assign_in_keeps (o o' : props) (fld k k' : string) (d d' : value) :
  settled (prop o fld) k d -> k <> k' ->
  or_assign_in o fld k' d' = Ok o' -> settled (prop o' fld) k d.
Proof.
  intros H Hne H'. destruct (or_assign_in_lookup o o' fld k' d' H') as [t [E [L _]]].
  unfold prop at 1. rewrite L. exact (or_assign_keeps _ _ _ _ _ _ H Hne E).
Qed.

Lemma or_assign_in_elsewhere (o o' : props) (fld fld' k' : string) (d' : value) :
  fld <> fld' -> or_assign_in o fld' k' d' = Ok o' -> prop o' fld = prop o fld.
Proof.
  intros Hne H'. destruct (or_assign_in_lookup o o' fld' k' d' H') as [t [_ [_ F]]].
  unfold prop. rewrite (F fld Hne). reflexivity.
Qed.

(** The object that was serialized is patched into itself. *)
Lemma patched_fixed (node : string) (packageJson : value) (o : props) :
  patched node packageJson = Ok o -> patched node (VObj o) = Ok o.
Proof.
  unfold patched. cbn [spread].
  set (o0 := obj_set "main" (VStr "server.js") (spread packageJson)).
  destruct (or_assign_in o0 "dependencies" "firebase-admin" _) as [o1|] eqn:E1;
    cbn [bind]; [|discriminate].
  destruct (or_assign_in o1 "dependencies" "firebase-functions" _) as [o2|] eqn:E2;
    cbn [bind]; [|discriminate].
  destruct (or_assign_in o2 "dependencies" "cookie" _) as [o3|] eqn:E3;
    cbn [bind]; [|discriminate].
  destruct (or_assign_in o3 "dependencies" "lru-cache" _) as [o4|] eqn:E4;
    cbn [bind]; [|discriminate].
  set (o5 := if truthy (prop o4 "engines") then o4
             else obj_set "engines" (VObj []) o4).
  intros E7.
  (* what the first pass leaves *)
  assert (M0 : prop o0 "main" = VStr "server.js")
    by (unfold prop, o0; rewrite lookup_obj_set_same; reflexivity).
  assert (M4 : prop o4 "main" = VStr "server.js").
  { rewrite (or_assign_in_elsewhere o3 o4 "main" "dependencies" _ _ ltac:(discriminate) E4),
      (or_assign_in_elsewhere o2 o3 "main" "dependencies" _ _ ltac:(discriminate) E3),
      (or_assign_in_elsewhere o1 o2 "main" "dependencies" _ _ ltac:(discriminate) E2),
      (or_assign_in_elsewhere o0 o1 "main" "dependencies" _ _ ltac:(discriminate) E1).
    exact M0. }
  assert (P5 : forall f, f <> "engines" -> prop o5 f = prop o4 f).
  { intros f Hf. unfold o5. destruct (truthy (prop o4 "engines")); [reflexivity|].
    apply prop_obj_set_other, Hf. }
  assert (P7 : forall f, f <> "engines" -> prop o f = prop o4 f).
  { intros f Hf. rewrite (or_assign_in_elsewhere o5 o f _ _ _ Hf E7). apply P5, Hf. }
  assert (D1 : settled (prop o "dependencies") "firebase-admin"
                 (VStr FIREBASE_ADMIN_VERSION)).
  { rewrite P7 by discriminate.
    apply (or_assign_in_keeps o3 o4 _ _ _ _ _) with (3 := E4); [|discriminate].
    apply (or_assign_in_keeps o2 o3 _ _ _ _ _) with (3 := E3); [|discriminate].
    apply (or_assign_in_keeps o1 o2 _ _ _ _ _) with (3 := E2); [|discriminate].
    exact (or_assign_in_settles _ _ _ _ _ E1). }
  assert (D2 : settled (prop o "dependencies") "firebase-functions"
                 (VStr FIREBASE_FUNCTIONS_VERSION)).
  { rewrite P7 by discriminate.
    apply (or_assign_in_keeps o3 o4 _ _ _ _ _) with (3 := E4); [|discriminate].
    apply (or_assign_in_keeps o2 o3 _ _ _ _ _) with (3 := E3); [|discriminate].
    exact (or_assign_in_settles _ _ _ _ _ E2). }
  assert (D3 : settled (prop o "dependencies") "cookie" (VStr COOKIE_VERSION)).
  { rewrite P7 by discriminate.
    apply (or_assign_in_keeps o3 o4 _ _ _ _ _) with (3 := E4); [|discriminate].
    exact (or_assign_in_settles _ _ _ _ _ E3). }
  assert (D4 : settled (prop o "dependencies") "lru-cache" (VStr LRU_CACHE_VERSION)).
  { rewrite P7 by discriminate. exact (or_assign_in_settles _ _ _ _ _ E4). }
  assert (N : settled (prop o "engines") "node" (VStr (NODE_VERSION node)))
    by exact (or_assign_in_settles _ _ _ _ _ E7).
  assert (M : lookup "main" o = Some (VStr "server.js")).
  { assert (Hm : prop o "main" = VStr "server.js")
      by (rewrite P7 by discriminate; exact M4).
    unfold prop in Hm. destruct (lookup "main" o); [rewrite Hm; reflexivity|discriminate]. }
  (* the second pass *)
  rewrite (obj_set_same "main" _ o M).
  rewrite (or_assign_in_fixed o _ _ _ D1). cbn [bind].
  rewrite (or_assign_in_fixed o _ _ _ D2). cbn [bind].
  rewrite (or_assign_in_fixed o _ _ _ D3). cbn [bind].
  rewrite (or_assign_in_fixed o _ _ _ D4). cbn [bind].
  assert (T : truthy (prop o "engines") = true)
    by (destruct (prop o "engines"); try contradiction; reflexivity).
  rewrite T. exact (or_assign_in_fixed o _ _ _ N).
Qed.

(** ** The patched object is the value of a JSON text *)

Lemma or_assign_JSON (o : value) (k : string) (d o' : value) :
  array_index k = None ->
  is_JSON o = true -> is_JSON d = true ->
  or_assign o k d = Ok o' -> is_JSON o' = true.
Proof.
  intros Hk Ho Hd. destruct o as [| | | | |xs|ps]; cbn [or_assign]; try discriminate.
  - intros H. injection H as <-. exact Ho.
  - destruct (truthy (prop ps k)); intros H; injection H as <-; [exact Ho|].
    apply obj_set_JSON; assumption.
Qed.

Lemma or_assign_in_JSON (o o' : props) (fld k : string) (d : value) :
  array_index k = None ->
  is_JSON (VObj o) = true -> is_JSON d = true ->
  or_assign_in o fld k d = Ok o' -> is_JSON (VObj o') = true.
Proof.
  intros Hk Ho Hd. unfold or_assign_in.
  destruct (or_assign (prop o fld) k d) as [t|e] eqn:E; cbn [bind]; [|discriminate].
  intros H. injection H as <-. apply replace_JSON; [exact Ho|].
  unfold prop in E. destruct (lookup fld o) as [t0|] eqn:L; [|discriminate E].
  exact (or_assign_JSON t0 k d t Hk (lookup_JSON fld o t0 Ho L) Hd E).
Qed.

Lemma patched_needs_dependencies (node : string) (packageJson : value) :
  has_own packageJson "dependencies" = false ->
  patched node packageJson = Err TypeError.
Proof.
  intros Hno. unfold patched, or_assign_in, prop.
  rewrite lookup_obj_set_other by discriminate.
  rewrite (spread_without_dependencies packageJson Hno). reflexivity.
Qed.

Lemma patched_JSON (node : string) (packageJson : value) (o : props) :
  is_JSON packageJson = true ->
  patched node packageJson = Ok o -> is_JSON (VObj o) = true.
Proof.
  intros Hj. destruct packageJson as [| | | | | |ps];
    try (rewrite patched_needs_dependencies by reflexivity; discriminate).
  unfold patched. cbn [spread].
  assert (J0 : is_JSON (VObj (obj_set "main" (VStr "server.js") ps)) = true)
    by (apply obj_set_JSON; [reflexivity|exact Hj|reflexivity]).
  destruct (or_assign_in _ "dependencies" "firebase-admin" _) as [o1|] eqn:E1;
    cbn [bind]; [|discriminate].
  pose proof (or_assign_in_JSON _ _ "dependencies" "firebase-admin" (VStr FIREBASE_ADMIN_VERSION)
                eq_refl J0 eq_refl E1) as J1.
  destruct (or_assign_in o1 "dependencies" "firebase-functions" _) as [o2|] eqn:E2;
    cbn [bind]; [|discriminate].
  pose proof (or_assign_in_JSON _ _ "dependencies" "firebase-functions" (VStr FIREBASE_FUNCTIONS_VERSION)
                eq_refl J1 eq_refl E2) as J2.
  destruct (or_assign_in o2 "dependencies" "cookie" _) as [o3|] eqn:E3;
    cbn [bind]; [|discriminate].
  pose proof (or_assign_in_JSON _ _ "dependencies" "cookie" (VStr COOKIE_VERSION)
                eq_refl J2 eq_refl E3) as J3.
  destruct (or_assign_in o3 "dependencies" "lru-cache" _) as [o4|] eqn:E4;
    cbn [bind]; [|discriminate].
  pose proof (or_assign_in_JSON _ _ "dependencies" "lru-cache" (VStr LRU_CACHE_VERSION)
                eq_refl J3 eq_refl E4) as J4.
  intros E7.
  apply (or_assign_in_JSON _ _ "engines" "node" (VStr (NODE_VERSION node)) eq_refl)
    with (3 := E7); [|reflexivity].
  destruct (truthy (prop o4 "engines")); [exact J4|].
  apply obj_set_JSON; [reflexivity|exact J4|reflexivity].
Qed.

(** The manifest is patched into the same text, however it was read. *)
Lemma newPackageJson_again (node : string) (packageJson : value) (text : string) :
  is_JSON packageJson = true ->
  newPackageJson node packageJson = Ok text ->
  exists o,
    patched node packageJson = Ok o /\
    JSON_parse text = Ok (VObj o) /\
    newPackageJson node (VObj o) = Ok text.
Proof.
  intros Hj. unfold newPackageJson.
  destruct (patched node packageJson) as [o|e] eqn:Ho; cbn [bind]; [|discriminate].
  intros H. injection H as <-. exists o. split; [reflexivity|]. split.
  - apply JSON_parse_stringify2. exact (patched_JSON node packageJson o Hj Ho).
  - rewrite (patched_fixed node packageJson o Ho). reflexivity.
Qed.

(** C4.  Patching is idempotent: the text that newPackageJson returns for a
    package manifest (the value of a JSON text) parses, and newPackageJson
    returns the same text for what it parses to. *)
Theorem newPackageJson_idempotent (node : string) (packageJson : value)
  (text : string) :
  is_JSON packageJson = true ->
  newPackageJson node packageJson = Ok text ->
  exists again,
    JSON_parse text = Ok again /\ newPackageJson node again = Ok text.
Proof.
  intros Hj Htext.
  destruct (newPackageJson_again node packageJson text Hj Htext) as [o [_ [Hp Ha]]].
  exists (VObj o). split; [exact Hp|exact Ha].
Qed.

Lemma newPackageJson_idempotent_witness :
  is_JSON (VObj pinned_admin) = true /\
  newPackageJson "16.13.0" (VObj pinned_admin)
  = Ok (json_text "{
  'name': 'app',
  'main': 'server.js',
  'dependencies': {
    'firebase-admin': '9.9.9',
    'next': '12.1.0',
    'firebase-functions': '^3.16.0',
    'cookie': '^0.4.2',
    'lru-cache': '^7.3.1'
  },
  'engines': {
    'npm': '8',
    'node': '16'
  }
}") /\
  exists again,
    JSON_parse (json_text "{
  'name': 'app',
  'main': 'server.js',
  'dependencies': {
    'firebase-admin': '9.9.9',
    'next': '12.1.0',
    'firebase-functions': '^3.16.0',
    'cookie': '^0.4.2',
    'lru-cache': '^7.3.1'
  },
  'engines': {
    'npm': '8',
    'node': '16'
  }
}") = Ok again /\
    newPackageJson "16.13.0" again
    = Ok (json_text "{
  'name': 'app',
  'main': 'server.js',
  'dependencies': {
    'firebase-admin': '9.9.9',
    'next': '12.1.0',
    'firebase-functions': '^3.16.0',
    'cookie': '^0.4.2',
    'lru-cache': '^7.3.1'
  },
  'engines': {
    'npm': '8',
    'node': '16'
  }
}").
Proof.
  split; [reflexivity|]. split; [vm_compute; reflexivity|].
  apply (newPackageJson_idempotent "16.13.0" (VObj pinned_admin)).
  - reflexivity.
  - vm_compute. reflexivity.
Defined.

(** ** Package manifests of any shape *)

(** *** The manifests that are patched *)

Lemma or_assign_assignable (t : value) (k : string) (d : value) :
  assignable t = true ->
  exists t', or_assign t k d = Ok t' /\ assignable t' = true.
Proof.
  destruct t; try discriminate; intros _; cbn [or_assign].
  - eexists. split; reflexivity.
  - destruct (truthy (prop ps k)); eexists; split; reflexivity.
Qed.

Lemma or_assign_unassignable (t : value) (k : string) (d : value) :
  assignable t = false -> or_assign t k d = Err TypeError.
Proof. destruct t; try discriminate; reflexivity. Qed.

Lemma assignable_is_there (o : props) (fld : string) :
  assignable (prop o fld) = true -> lookup fld o <> None.
Proof. unfold prop. destruct (lookup fld o); [discriminate|]. discriminate. Qed.

Lemma or_assign_in_assignable (o : props) (fld k : string) (d : value) :
  assignable (prop o fld) = true ->
  exists o',
    or_assign_in o fld k d = Ok o' /\
    assignable (prop o' fld) = true /\
    forall f, f <> fld -> prop o' f = prop o f.
Proof.
  intros H. unfold or_assign_in.
  destruct (or_assign_assignable _ k d H) as [t' [E Ht']]. rewrite E. cbn [bind].
  exists (replace fld t' o). split; [reflexivity|]. split.
  - unfold prop. rewrite lookup_replace_same by exact (assignable_is_there o fld H).
    exact Ht'.
  - intros f Hf. unfold prop. rewrite lookup_replace_other by exact Hf. reflexivity.
Qed.

Lemma or_assign_in_unassignable (o : props) (fld k : string) (d : value) :
  assignable (prop o fld) = false -> or_assign_in o fld k d = Err TypeError.
Proof.
  intros H. unfold or_assign_in. rewrite (or_assign_unassignable _ k d H). reflexivity.
Qed.

(** The patch of an object, by what its [dependencies] and [engines] are. *)
Lemma patched_any_object (node : string) (ps : props) :
  if patchable (VObj ps)
  then exists o, patched node (VObj ps) = Ok o
  else patched node (VObj ps) = Err TypeError.
Proof.
  unfold patchable, patched. cbn [spread field].
  set (o0 := obj_set "main" (VStr "server.js") ps).
  assert (Hd : prop o0 "dependencies" = prop ps "dependencies")
    by (apply prop_obj_set_other; discriminate).
  assert (He : prop o0 "engines" = prop ps "engines")
    by (apply prop_obj_set_other; discriminate).
  destruct (assignable (prop ps "dependencies")) eqn:Ad; cbn [andb].
  - rewrite <- Hd in Ad.
    destruct (or_assign_in_assignable o0 "dependencies" "firebase-admin"
                (VStr FIREBASE_ADMIN_VERSION) Ad) as [o1 [E1 [A1 F1]]].
    destruct (or_assign_in_assignable o1 "dependencies" "firebase-functions"
                (VStr FIREBASE_FUNCTIONS_VERSION) A1) as [o2 [E2 [A2 F2]]].
    destruct (or_assign_in_assignable o2 "dependencies" "cookie"
                (VStr COOKIE_VERSION) A2) as [o3 [E3 [A3 F3]]].
    destruct (or_assign_in_assignable o3 "dependencies" "lru-cache"
                (VStr LRU_CACHE_VERSION) A3) as [o4 [E4 [A4 F4]]].
    rewrite E1; cbn [bind]. rewrite E2; cbn [bind]. rewrite E3; cbn [bind].
    rewrite E4; cbn [bind].
    assert (He4 : prop o4 "engines" = prop ps "engines")
      by (rewrite F4, F3, F2, F1, He by discriminate; reflexivity).
    rewrite He4.
    destruct (truthy (prop ps "engines")) eqn:Te; cbn [negb orb].
    + destruct (assignable (prop ps "engines")) eqn:Ae.
      * rewrite <- He4 in Ae.
        destruct (or_assign_in_assignable o4 "engines" "node"
                    (VStr (NODE_VERSION node)) Ae) as [o5 [E5 _]].
        exists o5. exact E5.
      * rewrite <- He4 in Ae. apply or_assign_in_unassignable, Ae.
    + assert (Ae : assignable (prop (obj_set "engines" (VObj []) o4) "engines") = true)
        by (unfold prop; rewrite lookup_obj_set_same; reflexivity).
      destruct (or_assign_in_assignable _ "engines" "node"
                  (VStr (NODE_VERSION node)) Ae) as [o5 [E5 _]].
      exists o5. exact E5.
  - rewrite <- Hd in Ad.
    rewrite (or_assign_in_unassignable o0 "dependencies" "firebase-admin" _ Ad).
    reflexivity.
Qed.

Lemma patched_any (node : string) (packageJson : value) :
  if patchable packageJson
  then exists o, patched node packageJson = Ok o
  else patched node packageJson = Err TypeError.
Proof.
  destruct packageJson as [| | | | | |ps];
    try (cbn [patchable field assignable is_object Array_isArray orb andb];
         apply patched_needs_dependencies; reflexivity).
  apply patched_any_object.
Qed.

(** X10.  newPackageJson returns for the package manifests whose
    [dependencies] is an object or an array and whose [engines] is absent,
    falsy, an object or an array.  For every other package manifest it fails
    with a type error: [dependencies] or a truthy [engines] that is a string,
    a number or a boolean cannot be assigned to. *)
Theorem patch_returns_or_type_error (node : string) (packageJson : value) :
  ((exists text, newPackageJson node packageJson = Ok text)
   <-> patchable packageJson = true) /\
  (newPackageJson node packageJson = Err TypeError
   <-> patchable packageJson = false).
Proof.
  pose proof (patched_any node packageJson) as H. unfold newPackageJson.
  destruct (patchable packageJson).
  - destruct H as [o Ho]. rewrite Ho. cbn [bind].
    split; split; try discriminate; try reflexivity.
    intros _. eexists. reflexivity.
  - rewrite H. cbn [bind]. split; split; try discriminate; try reflexivity.
    intros [text Ht]. discriminate Ht.
Qed.

(** *** What the patch leaves as it was *)

Lemma or_assign_in_keys (o o' : props) (fld k : string) (d : value) :
  or_assign_in o fld k d = Ok o' -> map fst o' = map fst o.
Proof.
  unfold or_assign_in. destruct (or_assign (prop o fld) k d) as [t|e];
    cbn [bind]; [|discriminate].
  intros H. apply Ok_inj in H. subst o'. apply map_fst_replace.
Qed.

Lemma obj_set_keys (k : string) (v : value) (ps : props) :
  array_index k = None ->
  map fst (obj_set k v ps)
  = (map fst ps ++ missing (VObj ps) [k])%list.
Proof.
  intros Hk. unfold obj_set, missing. cbn [filter has_own].
  destruct (lookup k ps); cbn [negb].
  - rewrite map_fst_replace, List.app_nil_r. reflexivity.
  - rewrite Hk, map_app. reflexivity.
Qed.

(** The dependency defaults and the engine default leave the other fields
    and the order of the fields as they are. *)
Lemma defaults_elsewhere (node : string) (o0 o : props) :
  (o1 <- or_assign_in o0 "dependencies" "firebase-admin" (VStr FIREBASE_ADMIN_VERSION) ;;
   o2 <- or_assign_in o1 "dependencies" "firebase-functions"
           (VStr FIREBASE_FUNCTIONS_VERSION) ;;
   o3 <- or_assign_in o2 "dependencies" "cookie" (VStr COOKIE_VERSION) ;;
   o4 <- or_assign_in o3 "dependencies" "lru-cache" (VStr LRU_CACHE_VERSION) ;;
   let o5 := if truthy (prop o4 "engines") then o4
             else obj_set "engines" (VObj []) o4 in
   or_assign_in o5 "engines" "node" (VStr (NODE_VERSION node))) = Ok o ->
  (forall k, k <> "dependencies" -> k <> "engines" -> lookup k o = lookup k o0) /\
  map fst o = (map fst o0 ++ missing (VObj o0) ["engines"])%list.
Proof.
  succeeded (or_assign_in o0 "dependencies" "firebase-admin" (VStr FIREBASE_ADMIN_VERSION))
    o1 E1.
  succeeded (or_assign_in o1 "dependencies" "firebase-functions"
               (VStr FIREBASE_FUNCTIONS_VERSION)) o2 E2.
  succeeded (or_assign_in o2 "dependencies" "cookie" (VStr COOKIE_VERSION)) o3 E3.
  succeeded (or_assign_in o3 "dependencies" "lru-cache" (VStr LRU_CACHE_VERSION)) o4 E4.
  cbv zeta. intros E5.
  destruct (or_assign_in_lookup _ _ _ _ _ E1) as [_ [_ [_ F1]]].
  destruct (or_assign_in_lookup _ _ _ _ _ E2) as [_ [_ [_ F2]]].
  destruct (or_assign_in_lookup _ _ _ _ _ E3) as [_ [_ [_ F3]]].
  destruct (or_assign_in_lookup _ _ _ _ _ E4) as [_ [_ [_ F4]]].
  destruct (or_assign_in_lookup _ _ _ _ _ E5) as [t5 [A5 [_ F5]]].
  assert (F04 : forall k, k <> "dependencies" -> lookup k o4 = lookup k o0)
    by (intros k Hk; rewrite F4, F3, F2, F1 by exact Hk; reflexivity).
  assert (K04 : map fst o4 = map fst o0).
  { rewrite (or_assign_in_keys _ _ _ _ _ E4), (or_assign_in_keys _ _ _ _ _ E3),
      (or_assign_in_keys _ _ _ _ _ E2), (or_assign_in_keys _ _ _ _ _ E1).
    reflexivity. }
  rewrite (or_assign_in_keys _ _ _ _ _ E5). split.
  - intros k Hd He. rewrite F5 by exact He.
    destruct (truthy (prop o4 "engines")).
    + apply F04, Hd.
    + rewrite lookup_obj_set_other by exact He. apply F04, Hd.
  - unfold missing. cbn [filter has_own]. rewrite <- (F04 "engines") by discriminate.
    destruct (truthy (prop o4 "engines")) eqn:Te.
    + unfold prop in Te. destruct (lookup "engines" o4); [|discriminate Te].
      cbn [negb]. rewrite List.app_nil_r. exact K04.
    + rewrite obj_set_keys by reflexivity. unfold missing. cbn [filter has_own].
      rewrite K04. reflexivity.
Qed.

(** The patched object, field by field and key by key. *)
Lemma patched_layout (node : string) (packageJson : value) (o : props) :
  patched node packageJson = Ok o ->
  lookup "main" o = Some (VStr "server.js") /\
  (forall k, k <> "main" -> k <> "dependencies" -> k <> "engines" ->
     lookup k o = lookup k (spread packageJson)) /\
  map fst o
  = (map fst (spread packageJson)
       ++ missing (VObj (spread packageJson)) ["main"; "engines"])%list.
Proof.
  unfold patched. intros H.
  destruct (defaults_elsewhere node _ o H) as [F K]. split; [|split].
  - rewrite F by discriminate. apply lookup_obj_set_same.
  - intros k Hm Hd He. rewrite F by assumption. apply lookup_obj_set_other, Hm.
  - rewrite K, obj_set_keys by reflexivity. rewrite <- List.app_assoc. f_equal.
    unfold missing. cbn [filter has_own].
    rewrite lookup_obj_set_other by discriminate.
    destruct (lookup "main" (spread packageJson)), (lookup "engines" (spread packageJson));
      reflexivity.
Qed.

Lemma missing_one (ps : props) (k : string) :
  missing (VObj ps) [k] = match lookup k ps with Some _ => [] | None => [k] end.
Proof. unfold missing. cbn [filter has_own]. destruct (lookup k ps); reflexivity. Qed.

Lemma or_assign_object_keys (ps : props) (k : string) (d : value) :
  array_index k = None ->
  exists ps',
    or_assign (VObj ps) k d = Ok (VObj ps') /\
    map fst ps' = (map fst ps ++ missing (VObj ps) [k])%list /\
    forall k', k' <> k -> lookup k' ps' = lookup k' ps.
Proof.
  intros Hk. cbn [or_assign]. destruct (truthy (prop ps k)) eqn:T.
  - exists ps. split; [reflexivity|]. split; [|reflexivity].
    rewrite missing_one. unfold prop in T.
    destruct (lookup k ps); [|discriminate T]. rewrite List.app_nil_r. reflexivity.
  - exists (obj_set k d ps). split; [reflexivity|].
    split; [apply obj_set_keys, Hk|].
    intros k' Hne. apply lookup_obj_set_other, Hne.
Qed.

Lemma or_assign_in_object_keys (o : props) (fld k : string) (d : value) (deps : props) :
  array_index k = None ->
  lookup fld o = Some (VObj deps) ->
  exists o' deps',
    or_assign_in o fld k d = Ok o' /\
    lookup fld o' = Some (VObj deps') /\
    map fst deps' = (map fst deps ++ missing (VObj deps) [k])%list /\
    forall k', k' <> k -> lookup k' deps' = lookup k' deps.
Proof.
  intros Hk Hfld. unfold or_assign_in, prop. rewrite Hfld.
  destruct (or_assign_object_keys deps k d Hk) as [deps' [E [K F]]].
  rewrite E. cbn [bind]. exists (replace fld (VObj deps') o), deps'.
  split; [reflexivity|]. split; [apply lookup_replace_same; congruence|].
  split; assumption.
Qed.

(** The dependencies after the patch: the ones there were, in their order,
    then the defaults that were missing, in the order of the code. *)
Lemma patched_dependencies (node : string) (ps deps o : props) :
  lookup "dependencies" ps = Some (VObj deps) ->
  patched node (VObj ps) = Ok o ->
  exists deps',
    lookup "dependencies" o = Some (VObj deps') /\
    map fst deps'
    = (map fst deps
         ++ missing (VObj deps)
              ["firebase-admin"; "firebase-functions"; "cookie"; "lru-cache"])%list.
Proof.
  intros Hdeps. unfold patched. cbn [spread].
  assert (H0 : lookup "dependencies" (obj_set "main" (VStr "server.js") ps)
               = Some (VObj deps))
    by (rewrite lookup_obj_set_other by discriminate; exact Hdeps).
  destruct (or_assign_in_object_keys _ "dependencies" "firebase-admin"
              (VStr FIREBASE_ADMIN_VERSION) deps eq_refl H0)
    as [o1 [d1 [E1 [L1 [K1 F1]]]]].
  destruct (or_assign_in_object_keys o1 "dependencies" "firebase-functions"
              (VStr FIREBASE_FUNCTIONS_VERSION) d1 eq_refl L1)
    as [o2 [d2 [E2 [L2 [K2 F2]]]]].
  destruct (or_assign_in_object_keys o2 "dependencies" "cookie"
              (VStr COOKIE_VERSION) d2 eq_refl L2)
    as [o3 [d3 [E3 [L3 [K3 F3]]]]].
  destruct (or_assign_in_object_keys o3 "dependencies" "lru-cache"
              (VStr LRU_CACHE_VERSION) d3 eq_refl L3)
    as [o4 [d4 [E4 [L4 [K4 F4]]]]].
  rewrite E1; cbn [bind]. rewrite E2; cbn [bind]. rewrite E3; cbn [bind].
  rewrite E4; cbn [bind]. intros E5.
  destruct (or_assign_in_lookup _ _ _ _ _ E5) as [_ [_ [_ F5]]].
  exists d4. split.
  - rewrite F5 by discriminate.
    destruct (truthy (prop o4 "engines")); [exact L4|].
    rewrite lookup_obj_set_other by discriminate. exact L4.
  - rewrite K4, K3, K2, K1, !missing_one.
    rewrite F3, F2, F1 by discriminate. rewrite F2, F1 by discriminate.
    rewrite F1 by discriminate.
    unfold missing. cbn [filter has_own].
    destruct (lookup "firebase-admin" deps), (lookup "firebase-functions" deps),
      (lookup "cookie" deps), (lookup "lru-cache" deps);
      cbn [negb]; repeat rewrite <- List.app_assoc; reflexivity.
Qed.

Lemma patched_of_object (node : string) (packageJson : value) (o : props) :
  patched node packageJson = Ok o -> exists ps, packageJson = VObj ps.
Proof.
  destruct packageJson as [| | | | | |ps];
    try (rewrite patched_needs_dependencies by reflexivity; discriminate).
  intros _. exists ps. reflexivity.
Qed.

Section PatchedText.

(** The package manifest is the value of a JSON text, and it is patched. *)
Variable node : string.
Variable packageJson : value.
Variable text : string.
Hypothesis Hjson : is_JSON packageJson = true.
Hypothesis Htext : newPackageJson node packageJson = Ok text.

Lemma newPackageJson_text :
  exists ps o,
    packageJson = VObj ps /\ patched node (VObj ps) = Ok o /\
    JSON_parse text = Ok (VObj o).
Proof.
  destruct (newPackageJson_again node packageJson text Hjson Htext) as [o [Ho [Hp _]]].
  destruct (patched_of_object node packageJson o Ho) as [ps ->].
  exists ps, o. repeat split; assumption.
Qed.

(** X11.  The text newPackageJson returns is a JSON text of an object
    whose [main] is server.js, whatever [main] the package manifest had;
    every field other than [main], [dependencies] and [engines] is in it as
    it was in the package manifest, and no such field is added. *)
Theorem main_replaced_rest_kept :
  exists ps o,
    packageJson = VObj ps /\
    JSON_parse text = Ok (VObj o) /\
    lookup "main" o = Some (VStr "server.js") /\
    forall k, k <> "main" -> k <> "dependencies" -> k <> "engines" ->
      lookup k o = lookup k ps.
Proof.
  destruct newPackageJson_text as [ps [o [-> [Ho Hp]]]].
  destruct (patched_layout node (VObj ps) o Ho) as [Hmain [Hrest _]].
  exists ps, o. repeat split; assumption.
Qed.

(** X12.  The patch appends and never reorders.  The fields of the text are
    the fields of the package manifest in their order, then [main] and
    [engines] if they were missing; its dependencies are the dependencies of
    the package manifest in their order, then the missing ones among
    firebase-admin, firebase-functions, cookie and lru-cache, in that
    order. *)
Theorem patch_appends_in_order (deps : props) :
  field packageJson "dependencies" = VObj deps ->
  exists o deps',
    JSON_parse text = Ok (VObj o) /\
    map fst o
    = (map fst (spread packageJson) ++ missing packageJson ["main"; "engines"])%list /\
    lookup "dependencies" o = Some (VObj deps') /\
    map fst deps'
    = (map fst deps
         ++ missing (VObj deps)
              ["firebase-admin"; "firebase-functions"; "cookie"; "lru-cache"])%list.
Proof.
  intros Hdeps.
  destruct newPackageJson_text as [ps [o [-> [Ho Hp]]]].
  destruct (patched_layout node (VObj ps) o Ho) as [_ [_ Hkeys]].
  assert (Hd : lookup "dependencies" ps = Some (VObj deps)).
  { cbn [field] in Hdeps. unfold prop in Hdeps.
    destruct (lookup "dependencies" ps); [rewrite Hdeps; reflexivity|discriminate]. }
  destruct (patched_dependencies node ps deps o Hd Ho) as [deps' [Ld Kd]].
  exists o, deps'. repeat split; assumption.
Qed.

End PatchedText.

Lemma main_replaced_rest_kept_witness :
  exists ps o,
    VObj pinned_admin = VObj ps /\
    JSON_parse pinned_admin_patched = Ok (VObj o) /\
    lookup "main" o = Some (VStr "server.js") /\
    forall k, k <> "main" -> k <> "dependencies" -> k <> "engines" ->
      lookup k o = lookup k ps.
Proof.
  apply (main_replaced_rest_kept "16.13.0" (VObj pinned_admin) pinned_admin_patched).
  - reflexivity.
  - vm_compute. reflexivity.
Defined.

Lemma patch_appends_in_order_witness :
  exists o deps',
    JSON_parse pinned_admin_patched = Ok (VObj o) /\
    map fst o = ["name"; "main"; "dependencies"; "engines"] /\
    lookup "dependencies" o = Some (VObj deps') /\
    map fst deps'
    = ["firebase-admin"; "next"; "firebase-functions"; "cookie"; "lru-cache"].
Proof.
  apply (patch_appends_in_order "16.13.0" (VObj pinned_admin) pinned_admin_patched
           eq_refl)
    with (deps := [("firebase-admin", VStr "9.9.9"); ("next", VStr "12.1.0")]).
  - vm_compute. reflexivity.
  - reflexivity.
Defined.

(** *** The version of the running toolchain *)

Lemma leading_digits_uint (u : uint) (acc : Z) (rest : string) :
  leading_digits (Some acc) (NilEmpty.string_of_uint u ++ rest)
  = leading_digits (Some (uint_val acc u)) rest.
Proof.
  revert acc. induction u; intros acc; cbn [NilEmpty.string_of_uint append uint_val];
    [reflexivity|..]; apply IHu.
Qed.

Lemma parseInt10_positive (p : positive) (rest : string) :
  parseInt10 (NilEmpty.string_of_uint (Pos.to_uint p) ++ rest)
  = leading_digits (Some (Z.pos p)) rest.
Proof.
  pose proof (DecimalPos.Unsigned.of_to p) as Hval.
  pose proof (to_uint_no_leading_zero p) as Hnz.
  pose proof (DecimalPos.Unsigned.to_uint_nonnil p) as Hnn.
  destruct (Pos.to_uint p) as [|u|u|u|u|u|u|u|u|u|u];
    [contradiction|exfalso; exact (Hnz u eq_refl)|..];
    cbn [Pos.of_uint] in Hval; injection Hval as Hval;
    rewrite <- Hval, uint_val_of_uint_acc;
    exact (leading_digits_uint u _ rest).
Qed.

(** X13.  The engine version is the major version of the running
    toolchain: for a version text major.minor.patch, whatever follows the
    first dot, NODE_VERSION is the decimal text of the major version. *)
Theorem NODE_VERSION_is_major (major : Z) (rest : string) :
  0 <= major <= MAX_SAFE_INTEGER ->
  NODE_VERSION (Number_toString major ++ "." ++ rest) = Number_toString major.
Proof.
  intros [Hmajor _]. unfold NODE_VERSION.
  destruct major as [|p|p]; [reflexivity| |lia].
  cbn [Number_toString]. rewrite parseInt10_positive. reflexivity.
Qed.

Lemma NODE_VERSION_is_major_witness : NODE_VERSION "18.12.1" = "18".
Proof.
  apply (NODE_VERSION_is_major 18 "12.1"). vm_compute. split; discriminate.
Defined.

(** * newPackageJson on objects that are shared *)

(** ** The steps of a call that returns *)

Lemma newPackageJson_in_steps (node : string) (st : store) (packageJson : ref_value) :
  newPackageJson_in node st packageJson
  = let newPackageJSON := List.length st in
    let st := (st ++ [SObj (r_spread st packageJson)])%list in
    let st := write st newPackageJSON "main" (RStr "server.js") in
    st <- r_or_assign st (read st newPackageJSON "dependencies") "firebase-admin"
            (RStr FIREBASE_ADMIN_VERSION) ;;
    st <- r_or_assign st (read st newPackageJSON "dependencies") "firebase-functions"
            (RStr FIREBASE_FUNCTIONS_VERSION) ;;
    st <- r_or_assign st (read st newPackageJSON "dependencies") "cookie"
            (RStr COOKIE_VERSION) ;;
    st <- r_or_assign st (read st newPackageJSON "dependencies") "lru-cache"
            (RStr LRU_CACHE_VERSION) ;;
    let st :=
      if r_truthy (read st newPackageJSON "engines") then st
      else write (st ++ [SObj []])%list newPackageJSON "engines"
             (RRef (List.length st)) in
    st <- r_or_assign st (read st newPackageJSON "engines") "node"
            (RStr (NODE_VERSION node)) ;;
    text <- r_stringify2 st (RRef newPackageJSON) ;;
    Ok (st, text).
Proof.
  unfold newPackageJson_in, newPackageJson_st. cbv zeta.
  repeat match goal with
         | |- context [step _ ?r _] =>
             destruct r; cbn [step bind fst snd]; [|reflexivity]
         end.
  reflexivity.
Qed.

(** ** Own properties in the store *)

Lemma r_lookup_replace_same (k : string) (v : ref_value) (ps : ref_props) :
  r_lookup k ps <> None -> r_lookup k (r_replace k v ps) = Some v.
Proof.
  induction ps as [|[k' x] ps IH]; cbn [r_lookup r_replace]; [congruence|].
  destruct (k =? k')%string eqn:E; cbn [r_lookup]; rewrite E; [reflexivity|exact IH].
Qed.

Lemma r_lookup_replace_other (k k' : string) (v : ref_value) (ps : ref_props) :
  k' <> k -> r_lookup k' (r_replace k v ps) = r_lookup k' ps.
Proof.
  intros Hne. induction ps as [|[k0 x] ps IH]; cbn [r_lookup r_replace]; [reflexivity|].
  destruct (k =? k0)%string eqn:E; cbn [r_lookup].
  - apply String.eqb_eq in E. subst k0.
    apply String.eqb_neq in Hne. rewrite Hne. reflexivity.
  - destruct (k' =? k0)%string; [reflexivity|exact IH].
Qed.

Lemma r_lookup_app (k : string) (ps qs : ref_props) :
  r_lookup k (ps ++ qs)%list
  = match r_lookup k ps with Some x => Some x | None => r_lookup k qs end.
Proof.
  induction ps as [|[k' x] ps IH]; cbn [r_lookup List.app]; [reflexivity|].
  destruct (k =? k')%string; [reflexivity|exact IH].
Qed.

Lemma r_lookup_insert_index (k' : string) (i : N) (k : string) (v : ref_value)
  (ps : ref_props) :
  r_lookup k ps = None ->
  r_lookup k' (r_insert_index i k v ps)
  = if (k' =? k)%string then Some v else r_lookup k' ps.
Proof.
  induction ps as [|[k0 x] ps IH]; cbn [r_lookup r_insert_index].
  - destruct (k' =? k)%string; reflexivity.
  - destruct (k =? k0)%string eqn:Ek; [discriminate|]. intros Hnone.
    specialize (IH Hnone).
    destruct (array_index k0) as [j|]; [destruct (j <=? i)%N|]; cbn [r_lookup];
      destruct (k' =? k)%string eqn:E; try rewrite IH;
      destruct (k' =? k0)%string eqn:E0; try reflexivity.
    apply String.eqb_eq in E, E0. subst. rewrite String.eqb_refl in Ek.
    discriminate.
Qed.

Lemma r_lookup_set_same (k : string) (v : ref_value) (ps : ref_props) :
  r_lookup k (r_set k v ps) = Some v.
Proof.
  unfold r_set. destruct (r_lookup k ps) eqn:E.
  - apply r_lookup_replace_same. congruence.
  - destruct (array_index k).
    + rewrite r_lookup_insert_index, String.eqb_refl by exact E. reflexivity.
    + rewrite r_lookup_app, E. cbn [r_lookup]. rewrite String.eqb_refl. reflexivity.
Qed.

Lemma r_lookup_set_other (k k' : string) (v : ref_value) (ps : ref_props) :
  k' <> k -> r_lookup k' (r_set k v ps) = r_lookup k' ps.
Proof.
  intros Hne. unfold r_set. destruct (r_lookup k ps) eqn:E.
  - apply r_lookup_replace_other, Hne.
  - apply String.eqb_neq in Hne. destruct (array_index k).
    + rewrite r_lookup_insert_index, Hne by exact E. reflexivity.
    + rewrite r_lookup_app. cbn [r_lookup]. rewrite Hne.
      destruct (r_lookup k' ps); reflexivity.
Qed.

(** ** Objects in the store *)

Lemma update_length (l : nat) (o : stored) (st : store) :
  List.length (update l o st) = List.length st.
Proof.
  revert l. induction st as [|x st IH]; intros [|l]; cbn [update List.length];
    try reflexivity.
  rewrite IH. reflexivity.
Qed.

Lemma nth_error_update_same (l : nat) (o : stored) (st : store) :
  (l < List.length st)%nat -> nth_error (update l o st) l = Some o.
Proof.
  revert l. induction st as [|x st IH]; intros [|l]; cbn [update List.length nth_error];
    intros H; try lia; [reflexivity|].
  apply IH. lia.
Qed.

Lemma nth_error_update_other (l l' : nat) (o : stored) (st : store) :
  l' <> l -> nth_error (update l o st) l' = nth_error st l'.
Proof.
  revert l l'. induction st as [|x st IH]; intros [|l] [|l'] H;
    cbn [update nth_error]; try reflexivity; try congruence.
  apply IH. congruence.
Qed.

Lemma nth_error_in_store (st : store) (l : nat) (o : stored) :
  nth_error st l = Some o -> (l < List.length st)%nat.
Proof. intros H. apply nth_error_Some. congruence. Qed.

(** What [t[k] ||= d] does to the store, when [t] refers to an object. *)
Lemma r_or_assign_object (st : store) (l : nat) (ps : ref_props) (k d : string) :
  nth_error st l = Some (SObj ps) ->
  exists st' ps',
    r_or_assign st (RRef l) k (RStr d) = Ok st' /\
    nth_error st' l = Some (SObj ps') /\
    r_lookup k ps' = Some (r_kept_or_default d (r_lookup k ps)) /\
    (forall k', k' <> k -> r_lookup k' ps' = r_lookup k' ps) /\
    (forall l', l' <> l -> nth_error st' l' = nth_error st l') /\
    List.length st' = List.length st.
Proof.
  intros Hl. cbn [r_or_assign]. rewrite Hl. unfold r_prop, r_kept_or_default.
  destruct (r_lookup k ps) as [x|] eqn:E.
  - destruct (r_truthy x) eqn:T.
    + exists st, ps. repeat split; try reflexivity; assumption.
    + exists (update l (SObj (r_set k (RStr d) ps)) st), (r_set k (RStr d) ps).
      split; [reflexivity|].
      split; [apply nth_error_update_same, (nth_error_in_store st l _ Hl)|].
      split; [apply r_lookup_set_same|].
      split; [intros k' Hk; apply r_lookup_set_other, Hk|].
      split; [intros l' Hl'; apply nth_error_update_other, Hl'|apply update_length].
  - cbn [r_truthy].
    exists (update l (SObj (r_set k (RStr d) ps)) st), (r_set k (RStr d) ps).
    split; [reflexivity|].
    split; [apply nth_error_update_same, (nth_error_in_store st l _ Hl)|].
    split; [apply r_lookup_set_same|].
    split; [intros k' Hk; apply r_lookup_set_other, Hk|].
    split; [intros l' Hl'; apply nth_error_update_other, Hl'|apply update_length].
Qed.

(** What [t[k] ||= d] does to the store, whatever [t] is: it writes to the
    object [t] refers to, if to any. *)
Lemma r_or_assign_frame (st st' : store) (t : ref_value) (k : string) (d : ref_value) :
  r_or_assign st t k d = Ok st' ->
  List.length st' = List.length st /\
  forall l', t <> RRef l' -> nth_error st' l' = nth_error st l'.
Proof.
  destruct t as [| | | | |l]; cbn [r_or_assign]; try discriminate.
  destruct (nth_error st l) as [[ps|xs]|] eqn:Hl; [| |discriminate].
  - destruct (r_truthy (r_prop ps k)); intros H; apply Ok_inj in H; subst st'.
    + split; reflexivity.
    + split; [apply update_length|].
      intros l' Hne. apply nth_error_update_other. congruence.
  - intros H. apply Ok_inj in H. subst st'. split; reflexivity.
Qed.

Lemma read_object (st : store) (l : nat) (ps : ref_props) (k : string) :
  nth_error st l = Some (SObj ps) -> read st l k = r_prop ps k.
Proof. intros H. unfold read. rewrite H. reflexivity. Qed.

(** The four dependency defaults, one after the other, on the copy [r] of a
    package manifest whose [dependencies] is the object [d]. *)
Lemma r_dependencies_filled {X} (st : store) (r d : nat) (copy deps : ref_props)
  (rest : store -> result X) :
  nth_error st r = Some (SObj copy) ->
  r_lookup "dependencies" copy = Some (RRef d) ->
  nth_error st d = Some (SObj deps) ->
  r <> d ->
  exists st' deps',
    (st1 <- r_or_assign st (read st r "dependencies") "firebase-admin"
              (RStr FIREBASE_ADMIN_VERSION) ;;
     st2 <- r_or_assign st1 (read st1 r "dependencies") "firebase-functions"
              (RStr FIREBASE_FUNCTIONS_VERSION) ;;
     st3 <- r_or_assign st2 (read st2 r "dependencies") "cookie"
              (RStr COOKIE_VERSION) ;;
     st4 <- r_or_assign st3 (read st3 r "dependencies") "lru-cache"
              (RStr LRU_CACHE_VERSION) ;;
     rest st4) = rest st' /\
    nth_error st' d = Some (SObj deps') /\
    (forall k, r_lookup k deps'
               = match default_version k with
                 | Some dv => Some (r_kept_or_default dv (r_lookup k deps))
                 | None => r_lookup k deps
                 end) /\
    (forall l, l <> d -> nth_error st' l = nth_error st l) /\
    List.length st' = List.length st.
Proof.
  intros Hr Hcopy Hd Hne.
  assert (Hread : forall s, nth_error s r = nth_error st r ->
                            read s r "dependencies" = RRef d).
  { intros s Hs. unfold read. rewrite Hs, Hr. unfold r_prop. rewrite Hcopy. reflexivity. }
  destruct (r_or_assign_object st d deps "firebase-admin" FIREBASE_ADMIN_VERSION Hd)
    as [st1 [d1 [E1 [L1 [K1 [O1 [F1 N1]]]]]]].
  destruct (r_or_assign_object st1 d d1 "firebase-functions" FIREBASE_FUNCTIONS_VERSION L1)
    as [st2 [d2 [E2 [L2 [K2 [O2 [F2 N2]]]]]]].
  destruct (r_or_assign_object st2 d d2 "cookie" COOKIE_VERSION L2)
    as [st3 [d3 [E3 [L3 [K3 [O3 [F3 N3]]]]]]].
  destruct (r_or_assign_object st3 d d3 "lru-cache" LRU_CACHE_VERSION L3)
    as [st4 [d4 [E4 [L4 [K4 [O4 [F4 N4]]]]]]].
  exists st4, d4.
  rewrite (Hread st eq_refl), E1. cbn [bind].
  rewrite (Hread st1 (F1 r Hne)), E2. cbn [bind].
  rewrite (Hread st2 (eq_trans (F2 r Hne) (F1 r Hne))), E3. cbn [bind].
  rewrite (Hread st3 (eq_trans (F3 r Hne) (eq_trans (F2 r Hne) (F1 r Hne)))), E4.
  cbn [bind]. split; [reflexivity|]. split; [exact L4|]. split; [|split].
  - intros k.
    destruct (default_version_cases k)
      as [[-> ->]|[[-> ->]|[[-> ->]|[[-> ->]|[M1 [M2 [M3 [M4 ->]]]]]]]].
    + rewrite O4, O3, O2 by discriminate. exact K1.
    + rewrite O4, O3 by discriminate. rewrite K2, O1 by discriminate. reflexivity.
    + rewrite O4 by discriminate. rewrite K3, O2, O1 by discriminate. reflexivity.
    + rewrite K4, O3, O2, O1 by discriminate. reflexivity.
    + rewrite O4, O3, O2, O1 by assumption. reflexivity.
  - intros l Hl. rewrite F4, F3, F2, F1 by exact Hl. reflexivity.
  - rewrite N4, N3, N2, N1. reflexivity.
Qed.

Lemma write_object (st : store) (l : nat) (k : string) (v : ref_value) (ps : ref_props) :
  nth_error st l = Some (SObj ps) ->
  write st l k v = update l (SObj (r_set k v ps)) st.
Proof. intros H. unfold write. rewrite H. reflexivity. Qed.

Lemma nth_error_new (st : store) (o : stored) :
  nth_error (st ++ [o])%list (List.length st) = Some o.
Proof. rewrite nth_error_app2, Nat.sub_diag by lia. reflexivity. Qed.

Lemma default_version_not_node (k dv : string) :
  default_version k = Some dv -> k <> "node".
Proof. intros H ->. discriminate H. Qed.

(** X14.  The defaults are assigned to the objects of the caller.  The
    copy newPackageJson makes of the package manifest shares its
    [dependencies] and [engines] with it: after a call that returns, the
    [dependencies] object of the caller has the four runtime dependencies,
    each with the truthy value it had or with its default, the [engines]
    object of the caller, if there is one, has its [node] likewise, and no
    other object of the caller is written to: the package manifest itself
    does not get the [main] of the copy. *)
Theorem caller_objects_assigned (node : string) (st st' : store) (p d : nat)
  (ps deps : ref_props) (text : string) :
  nth_error st p = Some (SObj ps) ->
  r_lookup "dependencies" ps = Some (RRef d) ->
  nth_error st d = Some (SObj deps) ->
  newPackageJson_in node st (RRef p) = Ok (st', text) ->
  (exists deps',
     nth_error st' d = Some (SObj deps') /\
     forall k dv, default_version k = Some dv ->
       r_lookup k deps' = Some (r_kept_or_default dv (r_lookup k deps))) /\
  (forall e eng,
     r_lookup "engines" ps = Some (RRef e) ->
     nth_error st e = Some (SObj eng) ->
     exists eng',
       nth_error st' e = Some (SObj eng') /\
       r_lookup "node" eng'
       = Some (r_kept_or_default (NODE_VERSION node) (r_lookup "node" eng))) /\
  (forall l, (l < List.length st)%nat -> l <> d -> r_prop ps "engines" <> RRef l ->
     nth_error st' l = nth_error st l).
Proof.
  intros Hp Hdep Hd Hcall.
  pose proof (nth_error_in_store st d _ Hd) as Hd_in.
  rewrite newPackageJson_in_steps in Hcall. cbv zeta in Hcall.
  cbn [r_spread] in Hcall. rewrite Hp in Hcall.
  rewrite (write_object _ _ "main" (RStr "server.js") ps (nth_error_new st (SObj ps)))
    in Hcall.
  set (r := List.length st) in *.
  set (copy := r_set "main" (RStr "server.js") ps) in *.
  set (st2 := update r (SObj copy) (st ++ [SObj ps])%list) in *.
  assert (R2 : nth_error st2 r = Some (SObj copy)).
  { apply nth_error_update_same. rewrite length_app. cbn [List.length]. lia. }
  assert (F2 : forall l, (l < r)%nat -> nth_error st2 l = nth_error st l).
  { intros l Hl. unfold st2. rewrite nth_error_update_other by lia.
    apply nth_error_app1. exact Hl. }
  assert (N2 : List.length st2 = S r).
  { unfold st2. rewrite update_length, length_app. cbn [List.length]. lia. }
  assert (Hcopy : r_lookup "dependencies" copy = Some (RRef d))
    by (unfold copy; rewrite r_lookup_set_other by discriminate; exact Hdep).
  assert (Heng : r_prop copy "engines" = r_prop ps "engines")
    by (unfold copy, r_prop; rewrite r_lookup_set_other by discriminate; reflexivity).
  assert (D2 : nth_error st2 d = Some (SObj deps)) by (rewrite F2 by exact Hd_in; exact Hd).
  assert (Hrd : r <> d) by lia.
  match type of Hcall with
  | bind _ (fun _ => bind _ (fun _ => bind _ (fun _ => bind _ ?rest))) = _ =>
      destruct (r_dependencies_filled st2 r d copy deps rest R2 Hcopy D2 Hrd)
        as [st6 [deps4 [E [L6 [K6 [F6 N6]]]]]]
  end.
  rewrite E in Hcall. clear E. cbv beta in Hcall.
  assert (R6 : nth_error st6 r = Some (SObj copy)) by (rewrite F6 by exact Hrd; exact R2).
  rewrite (read_object st6 r copy "engines" R6), Heng in Hcall.
  assert (F06 : forall l, (l < r)%nat -> l <> d -> nth_error st6 l = nth_error st l)
    by (intros l Hl Hne; rewrite F6 by exact Hne; apply F2, Hl).
  destruct (r_truthy (r_prop ps "engines")) eqn:Te.
  - rewrite (read_object st6 r copy "engines" R6), Heng in Hcall. revert Hcall.
    succeeded (r_or_assign st6 (r_prop ps "engines") "node" (RStr (NODE_VERSION node)))
      st8 E8.
    succeeded (r_stringify2 st8 (RRef r)) text' Et.
    intros Hout. apply Ok_inj in Hout. injection Hout as <- _.
    destruct (r_or_assign_frame _ _ _ _ _ E8) as [N8 F8].
    split; [|split].
    + destruct (r_prop ps "engines") as [| | | | |e] eqn:Ev;
        try (exists deps4; split;
             [rewrite F8 by discriminate; exact L6|];
             intros k dv Hk; rewrite K6, Hk; reflexivity).
      destruct (Nat.eq_dec e d) as [->|Hne].
      * destruct (r_or_assign_object st6 d deps4 "node" (NODE_VERSION node) L6)
          as [st9 [deps5 [E9 [L9 [_ [O9 _]]]]]].
        rewrite E9 in E8. apply Ok_inj in E8. subst st9.
        exists deps5. split; [exact L9|].
        intros k dv Hk. rewrite O9 by exact (default_version_not_node k dv Hk).
        rewrite K6, Hk. reflexivity.
      * exists deps4. split; [rewrite F8 by congruence; exact L6|].
        intros k dv Hk. rewrite K6, Hk. reflexivity.
    + intros e eng He Heng_in.
      assert (Ev : r_prop ps "engines" = RRef e) by (unfold r_prop; rewrite He; reflexivity).
      rewrite Ev in E8.
      assert (H6 : exists eng0, nth_error st6 e = Some (SObj eng0) /\
                                r_lookup "node" eng0 = r_lookup "node" eng).
      { destruct (Nat.eq_dec e d) as [->|Hne].
        - exists deps4. split; [exact L6|].
          rewrite Hd in Heng_in. injection Heng_in as <-. apply K6.
        - exists eng. split; [|reflexivity].
          rewrite F06; [exact Heng_in|exact (nth_error_in_store st e _ Heng_in)|exact Hne]. }
      destruct H6 as [eng0 [L0 K0]].
      destruct (r_or_assign_object st6 e eng0 "node" (NODE_VERSION node) L0)
        as [st9 [eng' [E9 [L9 [K9 _]]]]].
      rewrite E9 in E8. apply Ok_inj in E8. subst st9.
      exists eng'. split; [exact L9|]. rewrite K9, K0. reflexivity.
    + intros l Hl Hld Hle. rewrite F8 by exact Hle. apply F06; assumption.
  - assert (R7 : nth_error (st6 ++ [SObj []])%list r = Some (SObj copy))
      by (rewrite nth_error_app1 by lia; exact R6).
    rewrite (write_object _ _ "engines" (RRef (List.length st6)) copy R7) in Hcall.
    set (st7 := update r (SObj (r_set "engines" (RRef (List.length st6)) copy))
                  (st6 ++ [SObj []])%list) in *.
    assert (R7' : nth_error st7 r
                  = Some (SObj (r_set "engines" (RRef (List.length st6)) copy))).
    { apply nth_error_update_same. rewrite length_app. cbn [List.length]. lia. }
    rewrite (read_object st7 r _ "engines" R7') in Hcall.
    unfold r_prop in Hcall at 1. rewrite r_lookup_set_same in Hcall. revert Hcall.
    succeeded (r_or_assign st7 (RRef (List.length st6)) "node"
                 (RStr (NODE_VERSION node))) st8 E8.
    succeeded (r_stringify2 st8 (RRef r)) text' Et.
    intros Hout. apply Ok_inj in Hout. injection Hout as <- _.
    destruct (r_or_assign_frame _ _ _ _ _ E8) as [N8 F8].
    assert (F78 : forall l, (l < r)%nat -> nth_error st8 l = nth_error st6 l).
    { intros l Hl. rewrite F8 by (intros H; injection H as H; lia).
      unfold st7. rewrite nth_error_update_other by lia.
      apply nth_error_app1. lia. }
    split; [|split].
    + exists deps4. split; [rewrite F78 by exact Hd_in; exact L6|].
      intros k dv Hk. rewrite K6, Hk. reflexivity.
    + intros e eng He _. unfold r_prop in Te. rewrite He in Te. discriminate Te.
    + intros l Hl Hld _. rewrite F78 by exact Hl. apply F06; assumption.
Qed.

Lemma caller_objects_assigned_witness :
  exists st',
    newPackageJson_in "16.13.0" pinned_admin_store (RRef 2)
    = Ok (st', pinned_admin_patched) /\
    (exists deps',
       nth_error st' 0 = Some (SObj deps') /\
       forall k dv, default_version k = Some dv ->
         r_lookup k deps'
         = Some (r_kept_or_default dv
                   (r_lookup k [("firebase-admin", RStr "9.9.9");
                                ("next", RStr "12.1.0")]))) /\
    nth_error st' 2 = nth_error pinned_admin_store 2.
Proof.
  eexists. split; [vm_compute; reflexivity|].
  match goal with
  | |- context [nth_error ?s 0] =>
      destruct (caller_objects_assigned "16.13.0" pinned_admin_store s 2 0
                  [("name", RStr "app"); ("main", RStr "index.js");
                   ("dependencies", RRef 0); ("engines", RRef 1)]
                  [("firebase-admin", RStr "9.9.9"); ("next", RStr "12.1.0")]
                  pinned_admin_patched eq_refl eq_refl eq_refl)
        as [Hdeps [_ Hframe]]
  end.
  - vm_compute. reflexivity.
  - split; [exact Hdeps|].
    apply Hframe; [cbn [List.length pinned_admin_store]; lia|discriminate|discriminate].
Defined.

(** ** Package manifests that share no object *)

(** *** The store of a value *)

Section Loaded.
Context {A : Type}.
Variable val : A -> value.

Lemma load_all_extends (l : list A) :
  Forall (fun x => forall st, exists block,
              snd (load (val x) st) = (st ++ block)%list /\
              List.length block = cells (val x)) l ->
  forall st, exists block,
    snd (load_all (fun x => load (val x)) l st) = (st ++ block)%list /\
    List.length block = list_sum (map (fun x => cells (val x)) l).
Proof.
  induction 1 as [|x l Hx _ IH]; intros st; cbn [load_all map list_sum].
  - exists []. rewrite List.app_nil_r. split; reflexivity.
  - destruct (Hx st) as [b1 [E1 N1]].
    destruct (load (val x) st) as [r s1]. cbn [snd] in E1. subst s1.
    destruct (IH (st ++ b1)%list) as [b2 [E2 N2]].
    destruct (load_all _ l (st ++ b1)%list) as [rs s2]. cbn [snd] in *. subst s2.
    exists (b1 ++ b2)%list. rewrite List.app_assoc, length_app, N1, N2.
    split; reflexivity.
Qed.

End Loaded.

Lemma load_extends (v : value) :
  forall st, exists block,
    snd (load v st) = (st ++ block)%list /\ List.length block = cells v.
Proof.
  induction v as [| |b|n|s|xs IH|ps IH] using value_ind; intros st;
    try (exists []; rewrite List.app_nil_r; split; reflexivity).
  - destruct (load_all_extends (fun x => x) xs IH st) as [b [E N]].
    cbn [load cells].
    change (load_all (fun x => load x) xs st) with (load_all load xs st) in E.
    destruct (load_all load xs st) as [rs s1]. cbn [snd] in *. subst s1.
    eexists. rewrite <- List.app_assoc. split; [reflexivity|].
    assert (N' : List.length b = list_sum (map cells xs)) by exact N.
    rewrite length_app, N'. cbn [List.length]. lia.
  - destruct (load_all_extends snd ps IH st) as [b [E N]].
    cbn [load cells].
    destruct (load_all _ ps st) as [rs s1]. cbn [snd] in *. subst s1.
    eexists. rewrite <- List.app_assoc. split; [reflexivity|].
    rewrite length_app, N. cbn [List.length]. lia.
Qed.

Lemma load_length (v : value) (st : store) :
  List.length (snd (load v st)) = (List.length st + cells v)%nat.
Proof.
  destruct (load_extends v st) as [b [E N]]. rewrite E, length_app, N. reflexivity.
Qed.

Lemma load_before (v : value) (st : store) (l : nat) :
  (l < List.length st)%nat -> nth_error (snd (load v st)) l = nth_error st l.
Proof.
  intros H. destruct (load_extends v st) as [b [E _]]. rewrite E.
  apply nth_error_app1, H.
Qed.

Lemma load_all_length {A} (val : A -> value) (l : list A) (st : store) :
  List.length (snd (load_all (fun x => load (val x)) l st))
  = (List.length st + list_sum (map (fun x => cells (val x)) l))%nat.
Proof.
  destruct (load_all_extends val l) with (st := st) as [b [E N]].
  - apply Forall_forall. intros x _ st'. apply load_extends.
  - rewrite E, length_app, N. reflexivity.
Qed.

Lemma load_all_before {A} (val : A -> value) (l : list A) (st : store) (i : nat) :
  (i < List.length st)%nat ->
  nth_error (snd (load_all (fun x => load (val x)) l st)) i = nth_error st i.
Proof.
  intros H. destruct (load_all_extends val l) with (st := st) as [b [E N]].
  - apply Forall_forall. intros x _ st'. apply load_extends.
  - rewrite E. apply nth_error_app1, H.
Qed.

Lemma load_all_count {A} (val : A -> value) (l : list A) (st : store) :
  List.length (fst (load_all (fun x => load (val x)) l st)) = List.length l.
Proof.
  revert st. induction l as [|x l IH]; intros st; cbn [load_all]; [reflexivity|].
  destruct (load (val x) st) as [r s1]. specialize (IH s1).
  destruct (load_all _ l s1) as [rs s2]. cbn [fst List.length] in *. rewrite IH.
  reflexivity.
Qed.

Lemma traverse_entries {A B} (f : A -> option B) (ks : list string) (rs : list A)
  (vs : list B) :
  traverse f rs = Some vs ->
  traverse (on_entry f) (combine ks rs) = Some (combine ks vs).
Proof.
  revert rs vs. induction ks as [|k ks IH]; intros rs vs; [reflexivity|].
  destruct rs as [|r rs]; cbn [combine traverse].
  - intros H. injection H as <-. reflexivity.
  - unfold on_entry. cbn [fst snd option_map].
    destruct (f r) as [y|]; [|discriminate].
    destruct (traverse f rs) as [ys|] eqn:E; [|discriminate].
    intros H. injection H as <-. cbn [option_map combine].
    fold (on_entry f). rewrite (IH rs ys E). reflexivity.
Qed.

Lemma combine_fst_snd {A B} (l : list (A * B)) : combine (map fst l) (map snd l) = l.
Proof.
  induction l as [|[a b] l IH]; cbn [map combine fst snd]; [reflexivity|].
  rewrite IH. reflexivity.
Qed.


Lemma list_sum_cons (a : nat) (l : list nat) :
  list_sum (a :: l) = (a + list_sum l)%nat.
Proof. reflexivity. Qed.

Lemma shows_all {A} (val : A -> value) (l : list A) :
  Forall (fun x => shows (val x)) l ->
  forall st sf n,
    (list_sum (map (fun x => cells (val x)) l) <= n)%nat ->
    (forall i, (List.length st <= i
                < List.length st + list_sum (map (fun x => cells (val x)) l))%nat ->
       nth_error sf i = nth_error (snd (load_all (fun x => load (val x)) l st)) i) ->
    traverse (view n sf) (fst (load_all (fun x => load (val x)) l st))
    = Some (map val l).
Proof.
  induction 1 as [|x l Hx _ IH]; intros st sf n Hn Hsf; [reflexivity|].
  cbn [map] in Hn, Hsf. rewrite list_sum_cons in Hn, Hsf. cbn [load_all] in *.
  pose proof (load_length (val x) st) as N1.
  pose proof (Hx st sf n) as Hhead.
  destruct (load (val x) st) as [r s1]. cbn [fst snd] in *.
  pose proof (load_all_before val l s1) as Hbefore.
  specialize (IH s1 sf n).
  destruct (load_all _ l s1) as [rs s2]. cbn [fst snd map traverse] in *.
  assert (H1 : view n sf r = Some (val x)).
  { apply Hhead; [lia|]. intros i Hi. rewrite Hsf by lia. apply Hbefore. lia. }
  assert (H2 : traverse (view n sf) rs = Some (map val l)).
  { apply IH; [lia|]. intros i Hi. apply Hsf. lia. }
  rewrite H1, H2. reflexivity.
Qed.

Lemma load_shows (v : value) : shows v.
Proof.
  induction v as [| |b|n0|s|xs IH|ps IH] using value_ind; intros st sf n Hn Hsf;
    try (destruct n; reflexivity).
  - cbn [load cells] in *.
    pose proof (shows_all (fun x => x) xs IH st sf) as Hall.
    pose proof (load_all_length (fun x => x) xs st) as N1.
    change (load_all (fun x => load x) xs st) with (load_all load xs st) in Hall, N1.
    destruct (load_all load xs st) as [rs s1]. cbn [fst snd] in *.
    assert (N1' : List.length s1 = (List.length st + list_sum (map cells xs))%nat)
      by exact N1.
    destruct n as [|n]; [lia|]. cbn [view].
    rewrite Hsf, nth_error_new by lia.
    rewrite Hall.
    + rewrite map_id. reflexivity.
    + change (list_sum (map cells xs) <= n)%nat. lia.
    + intros i Hi. rewrite Hsf.
      * apply nth_error_app1. lia.
      * assert (Hi' : (List.length st <= i
                       < List.length st + list_sum (map cells xs))%nat) by exact Hi.
        lia.
  - cbn [load cells] in *.
    pose proof (shows_all snd ps IH st sf) as Hall.
    pose proof (load_all_length snd ps st) as N1.
    destruct (load_all _ ps st) as [rs s1]. cbn [fst snd] in *.
    destruct n as [|n]; [lia|]. cbn [view].
    rewrite Hsf, nth_error_new by lia.
    rewrite (traverse_entries _ (map fst ps) rs (map snd ps)).
    + rewrite combine_fst_snd. reflexivity.
    + apply Hall; [lia|].
      intros i Hi. rewrite Hsf by lia. apply nth_error_app1. lia.
Qed.

(** *** Own properties, in the store and as values *)

Lemma view_primitive (n : nat) (st : store) (r : ref_value) :
  (forall l, r <> RRef l) ->
  view n st r
  = Some match r with
         | RUndefined => VUndefined
         | RNull => VNull
         | RBool b => VBool b
         | RNum z => VNum z
         | RStr s => VStr s
         | RRef _ => VUndefined
         end.
Proof.
  intros H. destruct r; try (destruct n; reflexivity). destruct (H l eq_refl).
Qed.

Lemma view_truthy (n : nat) (st : store) (r : ref_value) (x : value) :
  view n st r = Some x -> r_truthy r = truthy x.
Proof.
  destruct r as [| | | | |l];
    try (rewrite view_primitive by discriminate; intros H; injection H as <-; reflexivity).
  destruct n as [|n]; cbn [view]; [discriminate|].
  destruct (nth_error st l) as [[ps|xs]|]; [| |discriminate].
  - destruct (traverse _ ps); cbn [option_map]; [|discriminate].
    intros H. injection H as <-. reflexivity.
  - destruct (traverse _ xs); cbn [option_map]; [|discriminate].
    intros H. injection H as <-. reflexivity.
Qed.

Section Viewed.
Variable f : ref_value -> option value.

Lemma traverse_cons (kr : string * ref_value) (rps : ref_props) (vs : props) :
  traverse (on_entry f) (kr :: rps) = Some vs ->
  exists x vs', f (snd kr) = Some x /\ traverse (on_entry f) rps = Some vs' /\
                vs = (fst kr, x) :: vs'.
Proof.
  cbn [traverse]. unfold on_entry at 1.
  destruct (f (snd kr)) as [x|]; cbn [option_map]; [|discriminate].
  destruct (traverse (on_entry f) rps) as [vs'|]; [|discriminate].
  intros H. injection H as <-. exists x, vs'. repeat split.
Qed.

Lemma traverse_cons_intro (k : string) (r : ref_value) (x : value) (rps : ref_props)
  (vs : props) :
  f r = Some x -> traverse (on_entry f) rps = Some vs ->
  traverse (on_entry f) ((k, r) :: rps) = Some ((k, x) :: vs).
Proof.
  intros Hr Hrps. cbn [traverse]. unfold on_entry at 1. cbn [fst snd].
  rewrite Hr, Hrps. reflexivity.
Qed.

Lemma traverse_lookup (rps : ref_props) (vs : props) (k : string) :
  traverse (on_entry f) rps = Some vs ->
  match r_lookup k rps with
  | Some r => exists x, f r = Some x /\ lookup k vs = Some x
  | None => lookup k vs = None
  end.
Proof.
  revert vs. induction rps as [|[k' r] rps IH]; intros vs H.
  - injection H as <-. reflexivity.
  - apply traverse_cons in H as [x [vs' [Hx [Hvs ->]]]]. cbn [fst snd] in *.
    cbn [r_lookup lookup]. destruct (k =? k')%string.
    + exists x. split; [exact Hx|reflexivity].
    + apply IH, Hvs.
Qed.

Lemma traverse_replace (rps : ref_props) (vs : props) (k : string) (r : ref_value)
  (x : value) :
  traverse (on_entry f) rps = Some vs -> f r = Some x ->
  traverse (on_entry f) (r_replace k r rps) = Some (replace k x vs).
Proof.
  intros H Hr. revert vs H. induction rps as [|[k' r'] rps IH]; intros vs H.
  - injection H as <-. reflexivity.
  - apply traverse_cons in H as [x' [vs' [Hx [Hvs ->]]]]. cbn [fst snd] in *.
    cbn [r_replace replace]. destruct (k =? k')%string.
    + apply traverse_cons_intro; assumption.
    + apply traverse_cons_intro; [assumption|]. apply IH, Hvs.
Qed.

Lemma traverse_insert_index (rps : ref_props) (vs : props) (i : N) (k : string)
  (r : ref_value) (x : value) :
  traverse (on_entry f) rps = Some vs -> f r = Some x ->
  traverse (on_entry f) (r_insert_index i k r rps) = Some (insert_index i k x vs).
Proof.
  intros H Hr. revert vs H. induction rps as [|[k' r'] rps IH]; intros vs H.
  - injection H as <-. apply traverse_cons_intro; [assumption|reflexivity].
  - pose proof H as H0.
    apply traverse_cons in H as [x' [vs' [Hx [Hvs ->]]]]. cbn [fst snd] in *.
    cbn [r_insert_index insert_index].
    destruct (array_index k') as [j|]; [destruct (j <=? i)%N|].
    + apply traverse_cons_intro; [assumption|]. apply IH, Hvs.
    + apply traverse_cons_intro; assumption.
    + apply traverse_cons_intro; assumption.
Qed.

Lemma traverse_snoc (rps : ref_props) (vs : props) (k : string) (r : ref_value)
  (x : value) :
  traverse (on_entry f) rps = Some vs -> f r = Some x ->
  traverse (on_entry f) (rps ++ [(k, r)])%list = Some (vs ++ [(k, x)])%list.
Proof.
  intros H Hr. revert vs H. induction rps as [|[k' r'] rps IH]; intros vs H.
  - injection H as <-. apply traverse_cons_intro; [assumption|reflexivity].
  - apply traverse_cons in H as [x' [vs' [Hx [Hvs ->]]]]. cbn [fst snd] in *.
    cbn [List.app]. apply traverse_cons_intro; [assumption|]. apply IH, Hvs.
Qed.

Lemma traverse_set (rps : ref_props) (vs : props) (k : string) (r : ref_value)
  (x : value) :
  traverse (on_entry f) rps = Some vs -> f r = Some x ->
  traverse (on_entry f) (r_set k r rps) = Some (obj_set k x vs).
Proof.
  intros H Hr. unfold r_set, obj_set.
  pose proof (traverse_lookup rps vs k H) as Hk.
  destruct (r_lookup k rps) as [r0|].
  - destruct Hk as [x0 [_ ->]]. apply traverse_replace; assumption.
  - rewrite Hk. destruct (array_index k).
    + apply traverse_insert_index; assumption.
    + apply traverse_snoc; assumption.
Qed.

End Viewed.

Lemma assign_views (n : nat) (st : store) (rps : ref_props) (vs : props)
  (k d : string) :
  traverse (on_entry (view n st)) rps = Some vs ->
  traverse (on_entry (view n st)) (r_assign k (RStr d) rps)
  = Some (assign k (VStr d) vs).
Proof.
  intros H. unfold r_assign, assign, r_prop, prop.
  pose proof (traverse_lookup (view n st) rps vs k H) as Hk.
  assert (Ht : r_truthy match r_lookup k rps with Some x => x | None => RUndefined end
               = truthy match lookup k vs with Some x => x | None => VUndefined end).
  { destruct (r_lookup k rps) as [r0|].
    - destruct Hk as [x0 [Hx0 ->]]. exact (view_truthy n st r0 x0 Hx0).
    - rewrite Hk. reflexivity. }
  rewrite Ht. destruct (truthy _); [exact H|].
  apply traverse_set; [exact H|]. apply view_primitive. discriminate.
Qed.

Lemma assign_cell_views (st : store) (k d : string) :
  keeps_views st (r_assign_cell k (RStr d)) (assign_value k (VStr d)).
Proof.
  intros m [rps|rs] [| | | | |xs|vs]; cbn [cell_views r_assign_cell assign_value];
    try contradiction; try (intros H; exact H).
  apply assign_views.
Qed.

Lemma fill_dependencies_views (st : store) :
  keeps_views st r_fill_dependencies fill_dependencies.
Proof.
  intros m c t H. unfold r_fill_dependencies, fill_dependencies.
  repeat apply assign_cell_views. exact H.
Qed.

Lemma view_cell (m : nat) (st : store) (l : nat) (c : stored) (t : value) :
  nth_error st l = Some c -> cell_views m st c t -> view (S m) st (RRef l) = Some t.
Proof.
  intros Hl. cbn [view]. rewrite Hl.
  destruct c as [rps|rs], t as [| | | | |xs|vs]; cbn [cell_views]; try contradiction;
    intros ->; reflexivity.
Qed.

(** The object a loaded value is in: the last one of the store, which shows
    the value wherever the objects before it are as they were loaded. *)
Lemma loaded_cell (v : value) (st : store) (c : nat) :
  fst (load v st) = RRef c ->
  (List.length st <= c)%nat /\
  S c = (List.length st + cells v)%nat /\
  exists cell,
    nth_error (snd (load v st)) c = Some cell /\
    forall sf m,
      (cells v <= S m)%nat ->
      (forall l, (List.length st <= l < c)%nat ->
         nth_error sf l = nth_error (snd (load v st)) l) ->
      cell_views m sf cell v.
Proof.
  destruct v as [| | | | |xs|ps]; try discriminate; cbn [load cells].
  - pose proof (shows_all (fun x => x) xs) as Hall.
    pose proof (load_all_length (fun x => x) xs st) as N1.
    change (load_all (fun x => load x) xs st) with (load_all load xs st) in Hall, N1.
    assert (Hall' : forall sf n,
               (list_sum (map cells xs) <= n)%nat ->
               (forall i, (List.length st <= i < List.length st + list_sum (map cells xs))%nat ->
                  nth_error sf i = nth_error (snd (load_all load xs st)) i) ->
               traverse (view n sf) (fst (load_all load xs st)) = Some xs).
    { intros sf n Hn Hsf. rewrite <- (map_id xs) at 2.
      apply (Hall (proj2 (Forall_forall _ xs) (fun x _ => load_shows x)) st sf n);
        assumption. }
    clear Hall.
    assert (N1' : List.length (snd (load_all load xs st))
                  = (List.length st + list_sum (map cells xs))%nat) by exact N1.
    clear N1.
    destruct (load_all load xs st) as [rs s1]. cbn [fst snd] in *.
    intros H. injection H as <-. split; [lia|]. split; [lia|].
    exists (SArr rs). split; [apply nth_error_new|].
    intros sf m Hm Hsf. cbn [cell_views]. apply Hall'; [lia|].
    intros i Hi. rewrite Hsf by lia. apply nth_error_app1. lia.
  - pose proof (shows_all snd ps (proj2 (Forall_forall _ ps) (fun x _ => load_shows (snd x)))
                  st) as Hall.
    pose proof (load_all_length snd ps st) as N1.
    destruct (load_all _ ps st) as [rs s1]. cbn [fst snd] in *.
    intros H. injection H as <-. split; [lia|]. split; [lia|].
    exists (SObj (combine (map fst ps) rs)). split; [apply nth_error_new|].
    intros sf m Hm Hsf. cbn [cell_views].
    rewrite (traverse_entries _ (map fst ps) rs (map snd ps)).
    + rewrite combine_fst_snd. reflexivity.
    + apply Hall; [lia|].
      intros i Hi. rewrite Hsf by lia. apply nth_error_app1. lia.
Qed.

Lemma loaded_primitive (v : value) (st : store) :
  cells v = O -> snd (load v st) = st /\ forall l, fst (load v st) <> RRef l.
Proof. destruct v; try discriminate; intros _; split; try reflexivity; discriminate. Qed.

(** *** The properties of a loaded object, after the call *)

Lemma entry_in_store (ps : props) :
  forall st k c,
    r_lookup k (combine (map fst ps)
                  (fst (load_all (fun kv => load (snd kv)) ps st))) = Some (RRef c) ->
    (List.length st <= c
     < List.length st + list_sum (map (fun kv => cells (snd kv)) ps))%nat.
Proof.
  induction ps as [|[k' v] ps IH]; intros st k c; [discriminate|].
  cbn [map load_all fst snd]. rewrite list_sum_cons.
  pose proof (loaded_cell v st c) as Hcell.
  pose proof (load_length v st) as N1.
  destruct (load v st) as [r s1]. cbn [fst snd] in *.
  specialize (IH s1 k c).
  destruct (load_all _ ps s1) as [rs s2]. cbn [fst snd combine r_lookup] in *.
  destruct (k =? k')%string.
  - intros H. injection H as ->. destruct (Hcell eq_refl) as [Hc0 [Hc _]]. lia.
  - intros H. specialize (IH H). lia.
Qed.

Lemma shows_entries (ps : props) :
  forall (st sf : store) (n : nat) (x : string -> option exception),
    (list_sum (map (fun kv => cells (snd kv)) ps) <= n)%nat ->
    (forall k c tr g, x k = Some (c, tr, g) ->
       r_lookup k (combine (map fst ps)
                     (fst (load_all (fun kv => load (snd kv)) ps st))) = Some (RRef c) /\
       keeps_views sf tr g /\
       forall cell,
         nth_error (snd (load_all (fun kv => load (snd kv)) ps st)) c = Some cell ->
         nth_error sf c = Some (tr cell)) ->
    (forall l,
       (List.length st <= l
        < List.length st + list_sum (map (fun kv => cells (snd kv)) ps))%nat ->
       (forall k c tr g, x k = Some (c, tr, g) -> l <> c) ->
       nth_error sf l = nth_error (snd (load_all (fun kv => load (snd kv)) ps st)) l) ->
    traverse (on_entry (view n sf))
      (combine (map fst ps) (fst (load_all (fun kv => load (snd kv)) ps st)))
    = Some (repl_all x ps).
Proof.
  induction ps as [|[k v] ps IH]; intros st sf n x Hn Hx Hsf; [reflexivity|].
  cbn [map load_all fst snd repl_all] in *. rewrite list_sum_cons in Hn, Hsf.
  pose proof (loaded_cell v st) as Hcell.
  pose proof (load_shows v st sf n) as Hshow.
  pose proof (load_length v st) as N1.
  destruct (load v st) as [r s1]. cbn [fst snd] in *.
  pose proof (IH s1 sf n (without k x)) as IHt.
  pose proof (load_all_before snd ps s1) as Hbefore.
  pose proof (entry_in_store ps s1) as Hin.
  destruct (load_all _ ps s1) as [rs s2]. cbn [fst snd combine] in *.
  assert (Hother : forall k' c' tr' g', x k' = Some (c', tr', g') -> k' <> k ->
                                        (List.length s1 <= c')%nat).
  { intros k' c' tr' g' E Hne. destruct (Hx k' c' tr' g' E) as [Hl _].
    cbn [r_lookup] in Hl. apply String.eqb_neq in Hne. rewrite Hne in Hl.
    apply Hin in Hl. lia. }
  assert (Hhead : forall c tr g, x k = Some (c, tr, g) -> r = RRef c).
  { intros c tr g E. destruct (Hx k c tr g E) as [Hl _].
    cbn [r_lookup] in Hl. rewrite String.eqb_refl in Hl. injection Hl as ->.
    reflexivity. }
  apply traverse_cons_intro.
  - destruct (x k) as [[[c tr] g]|] eqn:Ex.
    + pose proof (Hhead c tr g eq_refl) as ->.
      destruct (Hx k c tr g Ex) as [_ [Hkeep Hcellsf]].
      destruct (Hcell c eq_refl) as [Hc0 [Hc [cell [Hcell0 Hviews]]]].
      destruct n as [|m]; [lia|].
      apply (view_cell m sf c (tr cell)).
      * apply Hcellsf. rewrite Hbefore by lia. exact Hcell0.
      * apply Hkeep, Hviews; [lia|].
        intros l Hl. rewrite Hsf; [apply Hbefore; lia|lia|].
        intros k' c' tr' g' E.
        destruct (String.eqb_spec k' k) as [->|Hne].
        -- rewrite Ex in E. injection E as <- _ _. lia.
        -- pose proof (Hother k' c' tr' g' E Hne). lia.
    + apply Hshow; [lia|].
      intros l Hl. rewrite Hsf; [apply Hbefore; lia|lia|].
      intros k' c' tr' g' E.
      destruct (String.eqb_spec k' k) as [->|Hne]; [congruence|].
      pose proof (Hother k' c' tr' g' E Hne). lia.
  - apply IHt; [lia| |].
    + intros k' c' tr' g' E. unfold without in E.
      destruct (String.eqb_spec k' k) as [->|Hne]; [discriminate|].
      destruct (Hx k' c' tr' g' E) as [Hl Hrest].
      cbn [r_lookup] in Hl. apply String.eqb_neq in Hne. rewrite Hne in Hl.
      split; assumption.
    + intros l Hl Hexc. apply Hsf; [lia|].
      intros k' c' tr' g' E.
      destruct (String.eqb_spec k' k) as [->|Hne].
      * pose proof (Hhead c' tr' g' E) as ->.
        destruct (Hcell c' eq_refl) as [_ [Hc _]]. lia.
      * apply (Hexc k' c' tr' g'). unfold without.
        apply String.eqb_neq in Hne. rewrite Hne. exact E.
Qed.

(** *** Values changed at the first occurrence of a key *)

Lemma repl_all_ext (x y : string -> option exception) (ps : props) :
  (forall k, x k = y k) -> repl_all x ps = repl_all y ps.
Proof.
  revert x y. induction ps as [|[k v] ps IH]; intros x y H; cbn [repl_all]; [reflexivity|].
  rewrite (H k). f_equal. apply IH. intros k'. unfold without. rewrite (H k'). reflexivity.
Qed.

Lemma repl_all_none (x : string -> option exception) (ps : props) :
  (forall k, x k = None) -> repl_all x ps = ps.
Proof.
  revert x. induction ps as [|[k v] ps IH]; intros x H; cbn [repl_all]; [reflexivity|].
  rewrite (H k). f_equal. apply IH. intros k'. unfold without. rewrite (H k').
  destruct (k' =? k)%string; reflexivity.
Qed.

Lemma changed_same (k : string) (g : value -> value) (v : value) (ps : props) :
  changed k g ((k, v) :: ps) = (k, g v) :: ps.
Proof. unfold changed. cbn [lookup replace]. rewrite String.eqb_refl. reflexivity. Qed.

Lemma changed_other (k k' : string) (g : value -> value) (v : value) (ps : props) :
  k' <> k -> changed k' g ((k, v) :: ps) = (k, v) :: changed k' g ps.
Proof.
  intros H. apply String.eqb_neq in H. unfold changed. cbn [lookup]. rewrite H.
  destruct (lookup k' ps); [|reflexivity]. cbn [replace]. rewrite H. reflexivity.
Qed.

Lemma repl_all_one (x : string -> option exception) (k1 : string) (c : nat)
  (tr : stored -> stored) (g : value -> value) (ps : props) :
  x k1 = Some (c, tr, g) ->
  (forall k, k <> k1 -> x k = None) ->
  repl_all x ps = changed k1 g ps.
Proof.
  revert x. induction ps as [|[k v] ps IH]; intros x H1 Hnone; [reflexivity|].
  cbn [repl_all]. destruct (String.eqb_spec k k1) as [->|Hne].
  - rewrite H1, changed_same. f_equal. apply repl_all_none.
    intros k'. unfold without. destruct (String.eqb_spec k' k1) as [->|Hne']; [reflexivity|].
    apply Hnone, Hne'.
  - rewrite (Hnone k Hne), changed_other by congruence. f_equal. apply IH.
    + unfold without. destruct (String.eqb_spec k1 k) as [->|_]; [contradiction|exact H1].
    + intros k' Hk'. unfold without. destruct (k' =? k)%string; [reflexivity|].
      apply Hnone, Hk'.
Qed.

Lemma repl_all_two (x : string -> option exception) (k1 k2 : string) (c1 c2 : nat)
  (tr1 tr2 : stored -> stored) (g1 g2 : value -> value) (ps : props) :
  k1 <> k2 ->
  x k1 = Some (c1, tr1, g1) ->
  x k2 = Some (c2, tr2, g2) ->
  (forall k, k <> k1 -> k <> k2 -> x k = None) ->
  repl_all x ps = changed k2 g2 (changed k1 g1 ps).
Proof.
  intros H12. revert x. induction ps as [|[k v] ps IH]; intros x H1 H2 Hnone;
    [reflexivity|].
  cbn [repl_all]. destruct (String.eqb_spec k k1) as [->|Hne1].
  - rewrite H1, changed_same, changed_other by congruence. f_equal.
    apply (repl_all_one _ k2 c2 tr2 g2).
    + unfold without. destruct (String.eqb_spec k2 k1) as [->|_]; [contradiction|exact H2].
    + intros k' Hk'. unfold without.
      destruct (String.eqb_spec k' k1) as [->|Hne']; [reflexivity|].
      apply Hnone; assumption.
  - destruct (String.eqb_spec k k2) as [->|Hne2].
    + rewrite H2, changed_other, changed_same by congruence. f_equal.
      apply (repl_all_one _ k1 c1 tr1 g1).
      * unfold without. destruct (String.eqb_spec k1 k2) as [->|_]; [contradiction|exact H1].
      * intros k' Hk'. unfold without.
        destruct (String.eqb_spec k' k2) as [->|Hne']; [reflexivity|].
        apply Hnone; assumption.
    + rewrite (Hnone k Hne1 Hne2), !changed_other by congruence. f_equal. apply IH.
      * unfold without. destruct (String.eqb_spec k1 k) as [->|_]; [contradiction|exact H1].
      * unfold without. destruct (String.eqb_spec k2 k) as [->|_]; [contradiction|exact H2].
      * intros k' Hk1 Hk2. unfold without. destruct (k' =? k)%string; [reflexivity|].
        apply Hnone; assumption.
Qed.

Lemma replace_replace (k : string) (x y : value) (ps : props) :
  replace k y (replace k x ps) = replace k y ps.
Proof.
  induction ps as [|[k' v] ps IH]; cbn [replace]; [reflexivity|].
  destruct (k =? k')%string eqn:E; cbn [replace]; rewrite E; [reflexivity|].
  rewrite IH. reflexivity.
Qed.

Lemma replace_comm (k k' : string) (x y : value) (ps : props) :
  k <> k' -> replace k x (replace k' y ps) = replace k' y (replace k x ps).
Proof.
  intros Hne. induction ps as [|[k0 v] ps IH]; cbn [replace]; [reflexivity|].
  destruct (k' =? k0)%string eqn:E'; destruct (k =? k0)%string eqn:E;
    cbn [replace]; rewrite ?E, ?E'; try reflexivity.
  - apply String.eqb_eq in E, E'. congruence.
  - rewrite IH. reflexivity.
Qed.

Lemma replace_snoc (k k' : string) (x v : value) (ps : props) :
  k <> k' -> replace k' x (ps ++ [(k, v)])%list = (replace k' x ps ++ [(k, v)])%list.
Proof.
  intros Hne. induction ps as [|[k0 w] ps IH]; cbn [replace List.app].
  - apply not_eq_sym in Hne. apply String.eqb_neq in Hne. rewrite Hne. reflexivity.
  - destruct (k' =? k0)%string; [reflexivity|]. rewrite IH. reflexivity.
Qed.

Lemma replace_absent (k : string) (x : value) (ps : props) :
  lookup k ps = None -> replace k x ps = ps.
Proof.
  induction ps as [|[k0 w] ps IH]; cbn [lookup replace]; [reflexivity|].
  destruct (k =? k0)%string; [discriminate|]. intros H. rewrite (IH H). reflexivity.
Qed.

Lemma replace_new (k : string) (x v : value) (ps : props) :
  lookup k ps = None -> replace k x (ps ++ [(k, v)])%list = (ps ++ [(k, x)])%list.
Proof.
  induction ps as [|[k0 w] ps IH]; cbn [lookup replace List.app].
  - rewrite String.eqb_refl. reflexivity.
  - destruct (k =? k0)%string; [discriminate|]. intros H. rewrite (IH H). reflexivity.
Qed.

Lemma obj_set_replace (k k' : string) (v t : value) (ps : props) :
  array_index k = None -> k <> k' ->
  obj_set k v (replace k' t ps) = replace k' t (obj_set k v ps).
Proof.
  intros Hk Hne. unfold obj_set. rewrite lookup_replace_other, Hk by exact Hne.
  destruct (lookup k ps).
  - apply replace_comm, Hne.
  - symmetry. apply replace_snoc, Hne.
Qed.

Lemma obj_set_changed (k k' : string) (v : value) (g : value -> value) (ps : props) :
  array_index k = None -> k <> k' ->
  obj_set k v (changed k' g ps) = changed k' g (obj_set k v ps).
Proof.
  intros Hk Hne. unfold changed.
  rewrite lookup_obj_set_other by congruence.
  destruct (lookup k' ps); [|reflexivity]. apply obj_set_replace; assumption.
Qed.

Lemma replace_obj_set_same (k : string) (v w : value) (ps : props) :
  array_index k = None -> replace k w (obj_set k v ps) = obj_set k w ps.
Proof.
  intros Hk. unfold obj_set. rewrite Hk. destruct (lookup k ps) eqn:E.
  - apply replace_replace.
  - apply replace_new, E.
Qed.

Lemma lookup_changed_same (k : string) (g : value -> value) (ps : props) (t : value) :
  lookup k ps = Some t -> lookup k (changed k g ps) = Some (g t).
Proof.
  intros H. unfold changed. rewrite H. apply lookup_replace_same. congruence.
Qed.

Lemma lookup_changed_other (k k' : string) (g : value -> value) (ps : props) :
  k' <> k -> lookup k' (changed k g ps) = lookup k' ps.
Proof.
  intros H. unfold changed. destruct (lookup k ps); [|reflexivity].
  apply lookup_replace_other, H.
Qed.

Lemma changed_twice (k : string) (g1 g2 : value -> value) (ps : props) :
  changed k g2 (changed k g1 ps) = changed k (fun t => g2 (g1 t)) ps.
Proof.
  destruct (lookup k ps) as [t|] eqn:E.
  - unfold changed at 1. rewrite (lookup_changed_same k g1 ps t E).
    unfold changed. rewrite E. apply replace_replace.
  - unfold changed. rewrite E, E. reflexivity.
Qed.

Lemma or_assign_assign (t : value) (k : string) (d : value) :
  assignable t = true -> or_assign t k d = Ok (assign_value k d t).
Proof.
  destruct t; try discriminate; intros _; cbn [or_assign assign_value]; [reflexivity|].
  unfold assign. destruct (truthy (prop ps k)); reflexivity.
Qed.

Lemma assign_value_assignable (k : string) (d t : value) :
  assignable (assign_value k d t) = assignable t.
Proof. destruct t; reflexivity. Qed.

Lemma or_assign_in_changed (o : props) (fld k : string) (d t : value) :
  lookup fld o = Some t -> assignable t = true ->
  or_assign_in o fld k d = Ok (changed fld (assign_value k d) o).
Proof.
  intros Hl Ha. unfold or_assign_in, prop, changed. rewrite Hl.
  rewrite (or_assign_assign t k d Ha). reflexivity.
Qed.

(** The patch of an object, in one expression. *)
Lemma patched_closed (node : string) (ps : props) :
  patched node (VObj ps)
  = if assignable (prop ps "dependencies") then
      if truthy (prop ps "engines") then
        if assignable (prop ps "engines") then
          Ok (changed "engines" (assign_value "node" (VStr (NODE_VERSION node)))
                (changed "dependencies" fill_dependencies
                   (obj_set "main" (VStr "server.js") ps)))
        else Err TypeError
      else
        Ok (obj_set "engines" (VObj (assign "node" (VStr (NODE_VERSION node)) []))
              (changed "dependencies" fill_dependencies
                 (obj_set "main" (VStr "server.js") ps)))
    else Err TypeError.
Proof.
  unfold patched. cbn [spread].
  set (o0 := obj_set "main" (VStr "server.js") ps).
  assert (Hd : prop o0 "dependencies" = prop ps "dependencies")
    by (apply prop_obj_set_other; discriminate).
  assert (He : prop o0 "engines" = prop ps "engines")
    by (apply prop_obj_set_other; discriminate).
  destruct (assignable (prop ps "dependencies")) eqn:Ad.
  - rewrite <- Hd in Ad.
    assert (L0 : lookup "dependencies" o0 = Some (prop o0 "dependencies")).
    { pose proof (assignable_is_there o0 "dependencies" Ad) as H. unfold prop.
      destruct (lookup "dependencies" o0); [reflexivity|contradiction]. }
    set (D := prop o0 "dependencies") in *.
    rewrite (or_assign_in_changed o0 "dependencies" "firebase-admin" _ D L0 Ad).
    cbn [bind].
    rewrite (or_assign_in_changed _ "dependencies" "firebase-functions" _ _
               (lookup_changed_same _ _ _ _ L0))
      by (rewrite assign_value_assignable; exact Ad).
    cbn [bind]. rewrite changed_twice.
    rewrite (or_assign_in_changed _ "dependencies" "cookie" _ _
               (lookup_changed_same _ _ _ _ L0))
      by (rewrite !assign_value_assignable; exact Ad).
    cbn [bind]. rewrite changed_twice.
    rewrite (or_assign_in_changed _ "dependencies" "lru-cache" _ _
               (lookup_changed_same _ _ _ _ L0))
      by (rewrite !assign_value_assignable; exact Ad).
    cbn [bind]. rewrite changed_twice.
    change (fun t => assign_value "lru-cache" (VStr LRU_CACHE_VERSION)
                       (assign_value "cookie" (VStr COOKIE_VERSION)
                          (assign_value "firebase-functions"
                             (VStr FIREBASE_FUNCTIONS_VERSION)
                             (assign_value "firebase-admin"
                                (VStr FIREBASE_ADMIN_VERSION) t))))
      with fill_dependencies.
    set (o4 := changed "dependencies" fill_dependencies o0).
    assert (He4 : prop o4 "engines" = prop ps "engines").
    { unfold prop at 1. unfold o4. rewrite lookup_changed_other by discriminate.
      exact He. }
    rewrite He4. destruct (truthy (prop ps "engines")) eqn:Te.
    + destruct (assignable (prop ps "engines")) eqn:Ae.
      * rewrite <- He4 in Ae.
        assert (L4 : lookup "engines" o4 = Some (prop o4 "engines")).
        { pose proof (assignable_is_there o4 "engines" Ae) as H. unfold prop.
          destruct (lookup "engines" o4); [reflexivity|contradiction]. }
        exact (or_assign_in_changed o4 "engines" "node" _ _ L4 Ae).
      * rewrite <- He4 in Ae. apply or_assign_in_unassignable, Ae.
    + rewrite (or_assign_in_changed _ "engines" "node" _ (VObj [])
                 (lookup_obj_set_same _ _ _) eq_refl).
      unfold changed. rewrite lookup_obj_set_same. cbn [assign_value].
      rewrite replace_obj_set_same by reflexivity. reflexivity.
  - rewrite <- Hd in Ad.
    rewrite (or_assign_in_unassignable o0 "dependencies" "firebase-admin" _ Ad).
    reflexivity.
Qed.

(** *** The call on a loaded object *)

Lemma update_same (l : nat) (c : stored) (st : store) :
  nth_error st l = Some c -> update l c st = st.
Proof.
  revert l. induction st as [|x st IH]; intros [|l]; cbn [nth_error update];
    try discriminate.
  - intros H. injection H as ->. reflexivity.
  - intros H. rewrite (IH l H). reflexivity.
Qed.

Lemma update_update (l : nat) (c1 c2 : stored) (st : store) :
  update l c2 (update l c1 st) = update l c2 st.
Proof.
  revert l. induction st as [|x st IH]; intros [|l]; cbn [update]; try reflexivity.
  rewrite IH. reflexivity.
Qed.

Lemma r_or_assign_cell (st : store) (l : nat) (c : stored) (k : string) (d : ref_value) :
  nth_error st l = Some c ->
  r_or_assign st (RRef l) k d = Ok (update l (r_assign_cell k d c) st).
Proof.
  intros Hl. cbn [r_or_assign]. rewrite Hl. destruct c as [ps|xs]; cbn [r_assign_cell].
  - unfold r_assign. destruct (r_truthy (r_prop ps k)); [|reflexivity].
    rewrite (update_same l _ st Hl). reflexivity.
  - rewrite (update_same l _ st Hl). reflexivity.
Qed.

Lemma r_or_assign_primitive (st : store) (t : ref_value) (k : string) (d : ref_value) :
  (forall l, t <> RRef l) -> r_or_assign st t k d = Err TypeError.
Proof. intros H. destruct t; try reflexivity. destruct (H l eq_refl). Qed.

(** The four dependency defaults on the copy [r], all at once. *)
Lemma r_dependencies_assigned {X} (s : store) (r d : nat) (copy : ref_props)
  (cell : stored) (rest : store -> result X) :
  nth_error s r = Some (SObj copy) ->
  r_lookup "dependencies" copy = Some (RRef d) ->
  nth_error s d = Some cell ->
  r <> d ->
  (st1 <- r_or_assign s (read s r "dependencies") "firebase-admin"
            (RStr FIREBASE_ADMIN_VERSION) ;;
   st2 <- r_or_assign st1 (read st1 r "dependencies") "firebase-functions"
            (RStr FIREBASE_FUNCTIONS_VERSION) ;;
   st3 <- r_or_assign st2 (read st2 r "dependencies") "cookie"
            (RStr COOKIE_VERSION) ;;
   st4 <- r_or_assign st3 (read st3 r "dependencies") "lru-cache"
            (RStr LRU_CACHE_VERSION) ;;
   rest st4) = rest (update d (r_fill_dependencies cell) s).
Proof.
  intros Hr Hcopy Hd Hne.
  pose proof (nth_error_in_store s d _ Hd) as Hin.
  assert (Hread : forall c, read (update d c s) r "dependencies" = RRef d).
  { intros c. unfold read. rewrite nth_error_update_other, Hr by exact Hne.
    unfold r_prop. rewrite Hcopy. reflexivity. }
  assert (Hstep : forall c k v,
             r_or_assign (update d c s) (RRef d) k v
             = Ok (update d (r_assign_cell k v c) s)).
  { intros c k v.
    rewrite (r_or_assign_cell (update d c s) d c k v (nth_error_update_same d c s Hin)).
    rewrite update_update. reflexivity. }
  rewrite <- (update_same d cell s Hd) at 1 2.
  rewrite Hread, Hstep. cbn [bind].
  rewrite Hread, Hstep. cbn [bind].
  rewrite Hread, Hstep. cbn [bind].
  rewrite Hread, Hstep. cbn [bind]. reflexivity.
Qed.

(** What the copy of a loaded object holds for a key. *)
Lemma loaded_prop (ps : props) :
  forall st k,
    r_truthy (r_prop (combine (map fst ps)
                        (fst (load_all (fun kv => load (snd kv)) ps st))) k)
    = truthy (prop ps k) /\
    if assignable (prop ps k)
    then exists c,
        r_lookup k (combine (map fst ps)
                      (fst (load_all (fun kv => load (snd kv)) ps st))) = Some (RRef c)
    else forall l,
        r_prop (combine (map fst ps)
                  (fst (load_all (fun kv => load (snd kv)) ps st))) k <> RRef l.
Proof.
  induction ps as [|[k' v] ps IH]; intros st k.
  - split; [reflexivity|]. cbn. discriminate.
  - cbn [map load_all fst snd].
    assert (Hv : r_truthy (fst (load v st)) = truthy v /\
                 if assignable v then exists c, fst (load v st) = RRef c
                 else forall l, fst (load v st) <> RRef l).
    { destruct v as [| | | | |xs|qs]; cbn [load]; try (split; [reflexivity|discriminate]).
      - destruct (load_all load xs st) as [rs s1]. split; [reflexivity|].
        eexists. reflexivity.
      - destruct (load_all _ qs st) as [rs s1]. split; [reflexivity|].
        eexists. reflexivity. }
    destruct (load v st) as [r s1]. cbn [fst] in Hv.
    specialize (IH s1 k).
    destruct (load_all _ ps s1) as [rs s2]. cbn [fst snd combine] in *.
    unfold r_prop, prop in *. cbn [r_lookup lookup].
    destruct (k =? k')%string; [|exact IH].
    destruct Hv as [Ht Ha]. split; [exact Ht|].
    destruct (assignable v).
    + destruct Ha as [c ->]. exists c. reflexivity.
    + exact Ha.
Qed.

Lemma entries_apart (ps : props) :
  forall st k1 k2 c1 c2,
    k1 <> k2 ->
    r_lookup k1 (combine (map fst ps)
                   (fst (load_all (fun kv => load (snd kv)) ps st))) = Some (RRef c1) ->
    r_lookup k2 (combine (map fst ps)
                   (fst (load_all (fun kv => load (snd kv)) ps st))) = Some (RRef c2) ->
    c1 <> c2.
Proof.
  induction ps as [|[k v] ps IH]; intros st k1 k2 c1 c2 Hne; [discriminate|].
  cbn [map load_all fst snd].
  pose proof (loaded_cell v st) as Hcell.
  pose proof (load_length v st) as N1.
  destruct (load v st) as [r s1]. cbn [fst snd] in *.
  specialize (IH s1 k1 k2 c1 c2 Hne).
  pose proof (entry_in_store ps s1) as Hin.
  destruct (load_all _ ps s1) as [rs s2]. cbn [fst snd combine r_lookup] in *.
  destruct (String.eqb_spec k1 k) as [->|H1]; destruct (String.eqb_spec k2 k) as [->|H2].
  - contradiction.
  - intros E1 E2. injection E1 as ->. destruct (Hcell c1 eq_refl) as [_ [Hc _]].
    apply Hin in E2. lia.
  - intros E1 E2. injection E2 as ->. destruct (Hcell c2 eq_refl) as [_ [Hc _]].
    apply Hin in E1. lia.
  - exact IH.
Qed.

Lemma nth_error_stored (st : store) (l : nat) :
  (l < List.length st)%nat -> exists c, nth_error st l = Some c.
Proof.
  intros H. destruct (nth_error st l) as [c|] eqn:E; [exists c; reflexivity|].
  apply nth_error_None in E. lia.
Qed.

Lemma loaded_object_patched (node : string) (ps : props) :
  text_of_call
    (newPackageJson_in node (snd (load (VObj ps) [])) (fst (load (VObj ps) [])))
  = newPackageJson node (VObj ps).
Proof.
  unfold newPackageJson. rewrite patched_closed. cbn [load].
  destruct (loaded_prop ps [] "dependencies") as [_ AD].
  destruct (loaded_prop ps [] "engines") as [TE AE].
  pose proof (entries_apart ps [] "dependencies" "engines") as Hapart.
  pose proof (entry_in_store ps []) as Hin.
  pose proof (shows_entries ps []) as Hshow.
  pose proof (load_all_length snd ps []) as N1.
  destruct (load_all (fun kv => load (snd kv)) ps []) as [rs s1].
  cbn [fst snd List.length Nat.add] in *.
  set (copy := combine (map fst ps) rs) in *.
  set (n := list_sum (map (fun kv => cells (snd kv)) ps)) in *.
  rewrite newPackageJson_in_steps. cbv zeta. cbn [r_spread].
  rewrite nth_error_new.
  set (st0 := (s1 ++ [SObj copy])%list).
  assert (N0 : List.length st0 = S n)
    by (unfold st0; rewrite length_app, N1; cbn [List.length]; lia).
  rewrite (write_object _ _ "main" (RStr "server.js") copy
             (nth_error_new st0 (SObj copy))).
  rewrite N0.
  set (copy1 := r_set "main" (RStr "server.js") copy).
  set (s2 := update (S n) (SObj copy1) (st0 ++ [SObj copy])%list).
  assert (R2 : nth_error s2 (S n) = Some (SObj copy1)).
  { apply nth_error_update_same. rewrite length_app, N0. cbn [List.length]. lia. }
  assert (F2 : forall l, (l < n)%nat -> nth_error s2 l = nth_error s1 l).
  { intros l Hl. unfold s2. rewrite nth_error_update_other by lia.
    rewrite nth_error_app1 by lia. unfold st0. apply nth_error_app1. lia. }
  assert (N2 : List.length s2 = S (S n)).
  { unfold s2. rewrite update_length, length_app, N0. cbn [List.length]. lia. }
  assert (Hdeps1 : r_lookup "dependencies" copy1 = r_lookup "dependencies" copy)
    by (apply r_lookup_set_other; discriminate).
  assert (Heng1 : r_prop copy1 "engines" = r_prop copy "engines")
    by (unfold r_prop, copy1; rewrite r_lookup_set_other by discriminate; reflexivity).
  destruct (assignable (prop ps "dependencies")).
  - destruct AD as [d Hd].
    pose proof (Hin _ _ Hd) as Hd_in.
    destruct (nth_error_stored s1 d) as [cellD HcellD]; [lia|].
    match goal with
    | |- text_of_call
           (bind _ (fun _ => bind _ (fun _ => bind _ (fun _ => bind _ ?rest)))) = _ =>
        rewrite (r_dependencies_assigned s2 (S n) d copy1 cellD rest R2
                   (eq_trans Hdeps1 Hd) (eq_trans (F2 d ltac:(lia)) HcellD) ltac:(lia))
    end.
    set (s6 := update d (r_fill_dependencies cellD) s2).
    assert (R6 : nth_error s6 (S n) = Some (SObj copy1))
      by (unfold s6; rewrite nth_error_update_other by lia; exact R2).
    assert (D6 : nth_error s6 d = Some (r_fill_dependencies cellD))
      by (apply nth_error_update_same; lia).
    assert (F6 : forall l, (l < n)%nat -> l <> d -> nth_error s6 l = nth_error s1 l).
    { intros l Hl Hne. unfold s6. rewrite nth_error_update_other by exact Hne.
      apply F2, Hl. }
    assert (N6 : List.length s6 = S (S n)) by (unfold s6; rewrite update_length; exact N2).
    rewrite (read_object s6 (S n) copy1 "engines" R6), Heng1, TE.
    destruct (truthy (prop ps "engines")).
    + rewrite (read_object s6 (S n) copy1 "engines" R6), Heng1.
      destruct (assignable (prop ps "engines")).
      * destruct AE as [e He].
        pose proof (Hin _ _ He) as He_in.
        pose proof (Hapart d e ltac:(discriminate) Hd He) as Hde.
        destruct (nth_error_stored s1 e) as [cellE HcellE]; [lia|].
        unfold r_prop. rewrite He.
        rewrite (r_or_assign_cell s6 e cellE "node" (RStr (NODE_VERSION node)))
          by (rewrite F6 by lia; exact HcellE).
        cbn [bind].
        set (sf := update e (r_assign_cell "node" (RStr (NODE_VERSION node)) cellE) s6).
        assert (Nf : List.length sf = S (S n))
          by (unfold sf; rewrite update_length; exact N6).
        assert (Hcopy :
                 traverse (on_entry (view (S (S n)) sf)) copy
                 = Some (changed "engines" (assign_value "node" (VStr (NODE_VERSION node)))
                           (changed "dependencies" fill_dependencies ps))).
        { rewrite <- (repl_all_two
                        (excepting "dependencies" (d, r_fill_dependencies, fill_dependencies)
                           "engines"
                           (Some (e, r_assign_cell "node" (RStr (NODE_VERSION node)),
                                  assign_value "node" (VStr (NODE_VERSION node)))))
                        "dependencies" "engines" d e _ _ _ _ ps
                        ltac:(discriminate) eq_refl eq_refl).
          - apply Hshow; [lia| |].
            + intros k c tr g. unfold excepting.
              destruct (String.eqb_spec k "dependencies") as [->|_].
              * intros E. injection E as <- <- <-.
                split; [exact Hd|]. split; [apply fill_dependencies_views|].
                intros cell Hcell. rewrite HcellD in Hcell. injection Hcell as <-.
                unfold sf. rewrite nth_error_update_other by lia. exact D6.
              * destruct (String.eqb_spec k "engines") as [->|_]; [|discriminate].
                intros E. injection E as <- <- <-.
                split; [exact He|]. split; [apply assign_cell_views|].
                intros cell Hcell. rewrite HcellE in Hcell. injection Hcell as <-.
                apply nth_error_update_same. lia.
            + intros l Hl Hexc.
              pose proof (Hexc "dependencies" d _ _ eq_refl) as Hld.
              pose proof (Hexc "engines" e _ _ eq_refl) as Hle.
              unfold sf. rewrite nth_error_update_other by exact Hle.
              apply F6; [lia|exact Hld].
          - intros k Hk1 Hk2. unfold excepting.
            apply String.eqb_neq in Hk1, Hk2. rewrite Hk1, Hk2. reflexivity. }
        assert (Rf : nth_error sf (S n) = Some (SObj copy1))
          by (unfold sf; rewrite nth_error_update_other by lia; exact R6).
        unfold r_stringify2. rewrite Nf.
        assert (Hcell :
                 cell_views (S (S n)) sf (SObj copy1)
                   (VObj (obj_set "main" (VStr "server.js")
                            (changed "engines"
                               (assign_value "node" (VStr (NODE_VERSION node)))
                               (changed "dependencies" fill_dependencies ps)))))
          by exact (traverse_set _ copy _ "main" (RStr "server.js") (VStr "server.js")
                      Hcopy eq_refl).
        rewrite (view_cell _ _ _ _ _ Rf Hcell).
        cbn [bind text_of_call snd].
        rewrite !obj_set_changed by (reflexivity || discriminate). reflexivity.
      * rewrite (r_or_assign_primitive s6 _ "node" _ AE). reflexivity.
    + assert (R7 : nth_error (s6 ++ [SObj []])%list (S n) = Some (SObj copy1))
        by (rewrite nth_error_app1 by lia; exact R6).
      rewrite (write_object _ _ "engines" (RRef (List.length s6)) copy1 R7), N6.
      set (copyF := r_set "engines" (RRef (S (S n))) copy1).
      set (s7 := update (S n) (SObj copyF) (s6 ++ [SObj []])%list).
      assert (R7' : nth_error s7 (S n) = Some (SObj copyF)).
      { apply nth_error_update_same. rewrite length_app, N6. cbn [List.length]. lia. }
      assert (E7 : nth_error s7 (S (S n)) = Some (SObj [])).
      { unfold s7. rewrite nth_error_update_other by lia.
        rewrite <- N6. apply nth_error_new. }
      rewrite (read_object s7 (S n) copyF "engines" R7').
      unfold r_prop at 1. unfold copyF at 1. rewrite r_lookup_set_same.
      rewrite (r_or_assign_cell s7 (S (S n)) (SObj []) "node"
                 (RStr (NODE_VERSION node)) E7).
      cbn [bind].
      set (sf := update (S (S n))
                   (r_assign_cell "node" (RStr (NODE_VERSION node)) (SObj [])) s7).
      assert (N7 : List.length s7 = S (S (S n))).
      { unfold s7. rewrite update_length, length_app, N6. cbn [List.length]. lia. }
      assert (Nf : List.length sf = S (S (S n)))
        by (unfold sf; rewrite update_length; exact N7).
      assert (Ff : forall l, (l < S (S n))%nat -> nth_error sf l = nth_error s7 l)
        by (intros l Hl; unfold sf; apply nth_error_update_other; lia).
      assert (Hcopy :
               traverse (on_entry (view (S (S (S n))) sf)) copy
               = Some (changed "dependencies" fill_dependencies ps)).
      { rewrite <- (repl_all_one
                      (excepting "dependencies" (d, r_fill_dependencies, fill_dependencies)
                         "engines" None)
                      "dependencies" d r_fill_dependencies fill_dependencies ps eq_refl).
        - apply Hshow; [lia| |].
          + intros k c tr g. unfold excepting.
            destruct (String.eqb_spec k "dependencies") as [->|_].
            * intros E. injection E as <- <- <-.
              split; [exact Hd|]. split; [apply fill_dependencies_views|].
              intros cell Hcell. rewrite HcellD in Hcell. injection Hcell as <-.
              rewrite Ff by lia. unfold s7. rewrite nth_error_update_other by lia.
              rewrite nth_error_app1 by lia. exact D6.
            * destruct (k =? "engines")%string; discriminate.
          + intros l Hl Hexc.
            pose proof (Hexc "dependencies" d _ _ eq_refl) as Hld.
            rewrite Ff by lia. unfold s7. rewrite nth_error_update_other by lia.
            rewrite nth_error_app1 by lia. apply F6; [lia|exact Hld].
        - intros k Hk. unfold excepting. apply String.eqb_neq in Hk. rewrite Hk.
          destruct (k =? "engines")%string; reflexivity. }
      assert (Hnew : view (S (S (S n))) sf (RRef (S (S n)))
                     = Some (VObj (assign "node" (VStr (NODE_VERSION node)) []))).
      { apply (view_cell (S (S n)) sf (S (S n))
                 (r_assign_cell "node" (RStr (NODE_VERSION node)) (SObj []))
                 (assign_value "node" (VStr (NODE_VERSION node)) (VObj []))).
        - apply nth_error_update_same. lia.
        - apply assign_cell_views. reflexivity. }
      assert (Rf : nth_error sf (S n) = Some (SObj copyF))
        by (rewrite Ff by lia; exact R7').
      unfold r_stringify2. rewrite Nf.
      assert (Hcell :
               cell_views (S (S (S n))) sf (SObj copyF)
                 (VObj (obj_set "engines"
                          (VObj (assign "node" (VStr (NODE_VERSION node)) []))
                          (obj_set "main" (VStr "server.js")
                             (changed "dependencies" fill_dependencies ps)))))
        by exact (traverse_set _ _ _ "engines" _ _
                    (traverse_set _ copy _ "main" (RStr "server.js") (VStr "server.js")
                       Hcopy eq_refl) Hnew).
      rewrite (view_cell _ _ _ _ _ Rf Hcell).
      cbn [bind text_of_call snd].
      rewrite obj_set_changed by (reflexivity || discriminate). reflexivity.
  - rewrite (read_object s2 (S n) copy1 "dependencies" R2).
    assert (Hprim : forall l, r_prop copy1 "dependencies" <> RRef l)
      by (unfold r_prop; rewrite Hdeps1; exact AD).
    rewrite (r_or_assign_primitive s2 _ "firebase-admin" _ Hprim). reflexivity.
Qed.

Lemma r_lookup_indexed (i : nat) (xs : list ref_value) :
  r_lookup "dependencies" (r_indexed i xs) = None.
Proof.
  revert i. induction xs as [|x xs IH]; intros i; cbn [r_indexed r_lookup]; [reflexivity|].
  rewrite Number_toString_not_dependencies. apply IH.
Qed.

(** Without [dependencies] among the properties that are copied, the first
    default fails. *)
Lemma store_needs_dependencies (node : string) (st : store) (packageJson : ref_value) :
  r_lookup "dependencies" (r_spread st packageJson) = None ->
  newPackageJson_in node st packageJson = Err TypeError.
Proof.
  intros H. rewrite newPackageJson_in_steps. cbv zeta.
  set (copy := r_spread st packageJson) in *.
  rewrite (write_object _ _ "main" (RStr "server.js") copy (nth_error_new st (SObj copy))).
  set (s2 := update _ _ _).
  assert (R2 : nth_error s2 (List.length st)
               = Some (SObj (r_set "main" (RStr "server.js") copy))).
  { apply nth_error_update_same. rewrite length_app. cbn [List.length]. lia. }
  rewrite (read_object s2 _ _ "dependencies" R2).
  unfold r_prop. rewrite r_lookup_set_other, H by discriminate. reflexivity.
Qed.

(** X15.  On a package manifest that shares no object, as JSON.parse
    builds it, the sharing between the copy and the package manifest does
    not show in the result: the call on the store returns the text, or fails
    with the error, of newPackageJson on the value. *)
Theorem unshared_manifest_patched (node : string) (packageJson : value) :
  text_of_call
    (newPackageJson_in node (snd (load packageJson [])) (fst (load packageJson [])))
  = newPackageJson node packageJson.
Proof.
  destruct packageJson as [| | | | s|xs|ps]; try apply loaded_object_patched;
    unfold newPackageJson; rewrite patched_needs_dependencies by reflexivity;
    rewrite store_needs_dependencies; try reflexivity.
  - apply r_lookup_indexed.
  - cbn [load]. destruct (load_all load xs []) as [rs s1]. cbn [fst snd r_spread].
    rewrite nth_error_new. apply r_lookup_indexed.
Qed.

(** ** The defaults, on a package manifest that shares no object *)

Lemma text_of_call_returns (r : result (store * string)) (text : string) :
  text_of_call r = Ok text -> exists st', r = Ok (st', text).
Proof.
  destruct r as [[st' t]|e]; cbn [text_of_call bind snd]; intros H;
    [|discriminate H].
  exists st'. congruence.
Qed.

(** C3, as the code has it.  Take a package manifest that shares no object,
    as JSON.parse builds it, so that its [dependencies] and its [engines]
    are two objects; let [dependencies] be an object and [engines] be
    absent, falsy or an object.  Then the call returns, and its text is the
    text of an object in which each of the four runtime dependencies keeps
    the value it had if that value is truthy and gets its default version
    constraint if it is absent or falsy, every other dependency is as it
    was, and [engines.node] likewise keeps a truthy value and is set to the
    major version of the running toolchain otherwise. *)
Theorem defaults_fill_absent_or_falsy (node : string) (ps deps : props) :
  lookup "dependencies" ps = Some (VObj deps) ->
  engines_fillable ps = true ->
  exists o deps' engines' st',
    newPackageJson_in node (snd (load (VObj ps) [])) (fst (load (VObj ps) []))
    = Ok (st', JSON_stringify2 (VObj o)) /\
    patched node (VObj ps) = Ok o /\
    lookup "dependencies" o = Some (VObj deps') /\
    (forall k, lookup k deps'
               = match default_version k with
                 | Some d => Some (kept_or_default d (lookup k deps))
                 | None => lookup k deps
                 end) /\
    lookup "engines" o = Some (VObj engines') /\
    lookup "node" engines'
    = Some (kept_or_default (NODE_VERSION node) (engines_node ps)).
Proof.
  intros Hdeps Heng.
  destruct (patched_object node ps deps Hdeps Heng)
    as [o [deps' [engines' [Ho [Ld [Hk [Le [Ln _]]]]]]]].
  pose proof (loaded_object_patched node ps) as Hcall.
  unfold newPackageJson in Hcall. rewrite Ho in Hcall. cbn [bind] in Hcall.
  destruct (text_of_call_returns _ _ Hcall) as [st' Hst].
  exists o, deps', engines', st'. repeat (split; [assumption|]). exact Ln.
Qed.

Lemma defaults_fill_absent_or_falsy_witness :
  lookup "dependencies" pinned_admin
  = Some (VObj [("firebase-admin", VStr "9.9.9"); ("next", VStr "12.1.0")]) /\
  engines_fillable pinned_admin = true /\
  exists o deps' engines' st',
    newPackageJson_in "16.13.0" (snd (load (VObj pinned_admin) []))
      (fst (load (VObj pinned_admin) []))
    = Ok (st', JSON_stringify2 (VObj o)) /\
    patched "16.13.0" (VObj pinned_admin) = Ok o /\
    lookup "dependencies" o = Some (VObj deps') /\
    (forall k, lookup k deps'
               = match default_version k with
                 | Some d =>
                     Some (kept_or_default d
                             (lookup k [("firebase-admin", VStr "9.9.9");
                                        ("next", VStr "12.1.0")]))
                 | None =>
                     lookup k [("firebase-admin", VStr "9.9.9"); ("next", VStr "12.1.0")]
                 end) /\
    lookup "engines" o = Some (VObj engines') /\
    lookup "node" engines' = Some (VStr "16").
Proof.
  split; [reflexivity|]. split; [reflexivity|].
  apply (defaults_fill_absent_or_falsy "16.13.0" pinned_admin
           [("firebase-admin", VStr "9.9.9"); ("next", VStr "12.1.0")]);
    reflexivity.
Defined.

(** The two objects have to be two.  When [dependencies] and [engines] are
    one object of the caller, [engines.node] is assigned to that object, and
    the text has a dependency [node] that the package manifest did not
    have. *)
Lemma shared_engines_node_among_dependencies :
  exists st',
    newPackageJson_in "16.13.0" shared_engines_store (RRef 1)
    = Ok (st', json_text "{
  'name': 'app',
  'dependencies': {
    'next': '12.1.0',
    'firebase-admin': '^10.0.0',
    'firebase-functions': '^3.16.0',
    'cookie': '^0.4.2',
    'lru-cache': '^7.3.1',
    'node': '16'
  },
  'engines': {
    'next': '12.1.0',
    'firebase-admin': '^10.0.0',
    'firebase-functions': '^3.16.0',
    'cookie': '^0.4.2',
    'lru-cache': '^7.3.1',
    'node': '16'
  },
  'main': 'server.js'
}") /\
    nth_error shared_engines_store 0 = Some (SObj [("next", RStr "12.1.0")]) /\
    nth_error st' 0
    = Some (SObj [("next", RStr "12.1.0"); ("firebase-admin", RStr "^10.0.0");
                  ("firebase-functions", RStr "^3.16.0"); ("cookie", RStr "^0.4.2");
                  ("lru-cache", RStr "^7.3.1"); ("node", RStr "16")]).
Proof.
  eexists. split; [vm_compute; reflexivity|]. split; reflexivity.
Qed.

(** ** A call that throws *)

Lemma r_lookup_assign_same (k d : string) (ps : ref_props) :
  r_lookup k (r_assign k (RStr d) ps) = Some (r_kept_or_default d (r_lookup k ps)).
Proof.
  unfold r_assign, r_prop, r_kept_or_default.
  destruct (r_lookup k ps) as [x|] eqn:E.
  - destruct (r_truthy x); [exact E|apply r_lookup_set_same].
  - cbn [r_truthy]. apply r_lookup_set_same.
Qed.

Lemma r_lookup_assign_other (k k' : string) (d : ref_value) (ps : ref_props) :
  k' <> k -> r_lookup k' (r_assign k d ps) = r_lookup k' ps.
Proof.
  intros H. unfold r_assign. destruct (r_truthy (r_prop ps k)); [reflexivity|].
  apply r_lookup_set_other, H.
Qed.

Lemma r_fill_dependencies_lookup (deps : ref_props) :
  exists deps',
    r_fill_dependencies (SObj deps) = SObj deps' /\
    forall k dv, default_version k = Some dv ->
      r_lookup k deps' = Some (r_kept_or_default dv (r_lookup k deps)).
Proof.
  eexists. split; [reflexivity|]. intros k dv Hk.
  destruct (default_version_cases k)
    as [[-> E]|[[-> E]|[[-> E]|[[-> E]|[_ [_ [_ [_ E]]]]]]]];
    rewrite E in Hk; try discriminate Hk; injection Hk as <-.
  - rewrite !r_lookup_assign_other by discriminate. apply r_lookup_assign_same.
  - rewrite !r_lookup_assign_other by discriminate.
    rewrite r_lookup_assign_same, r_lookup_assign_other by discriminate. reflexivity.
  - rewrite r_lookup_assign_other by discriminate.
    rewrite r_lookup_assign_same, !r_lookup_assign_other by discriminate. reflexivity.
  - rewrite r_lookup_assign_same, !r_lookup_assign_other by discriminate. reflexivity.
Qed.

(** The four dependency defaults as steps of the call. *)
Lemma r_dependencies_stepped {X} (s : store) (r d : nat) (copy : ref_props)
  (cell : stored) (rest : store -> store * result X) :
  nth_error s r = Some (SObj copy) ->
  r_lookup "dependencies" copy = Some (RRef d) ->
  nth_error s d = Some cell ->
  r <> d ->
  step s (r_or_assign s (read s r "dependencies") "firebase-admin"
            (RStr FIREBASE_ADMIN_VERSION)) (fun st1 =>
  step st1 (r_or_assign st1 (read st1 r "dependencies") "firebase-functions"
              (RStr FIREBASE_FUNCTIONS_VERSION)) (fun st2 =>
  step st2 (r_or_assign st2 (read st2 r "dependencies") "cookie"
              (RStr COOKIE_VERSION)) (fun st3 =>
  step st3 (r_or_assign st3 (read st3 r "dependencies") "lru-cache"
              (RStr LRU_CACHE_VERSION)) (fun st4 => rest st4))))
  = rest (update d (r_fill_dependencies cell) s).
Proof.
  intros Hr Hcopy Hd Hne.
  pose proof (nth_error_in_store s d _ Hd) as Hin.
  assert (Hread : forall c, read (update d c s) r "dependencies" = RRef d).
  { intros c. unfold read. rewrite nth_error_update_other, Hr by exact Hne.
    unfold r_prop. rewrite Hcopy. reflexivity. }
  assert (Hstep : forall c k v,
             r_or_assign (update d c s) (RRef d) k v
             = Ok (update d (r_assign_cell k v c) s)).
  { intros c k v.
    rewrite (r_or_assign_cell (update d c s) d c k v (nth_error_update_same d c s Hin)).
    rewrite update_update. reflexivity. }
  rewrite <- (update_same d cell s Hd) at 1 2 3.
  rewrite Hread, Hstep. cbn [step].
  rewrite Hread, Hstep. cbn [step].
  rewrite Hread, Hstep. cbn [step].
  rewrite Hread, Hstep. cbn [step]. reflexivity.
Qed.

(** X16.  A call that throws has written already.  When [dependencies] is
    an object and [engines] is a truthy value that is no object (a text, a
    number, [true]), the call fails with a type error at the engine default,
    after the four dependency defaults: the [dependencies] object of the
    caller is left with them. *)
Theorem failed_call_has_written (node : string) (st : store) (p d : nat)
  (ps deps : ref_props) :
  nth_error st p = Some (SObj ps) ->
  r_lookup "dependencies" ps = Some (RRef d) ->
  nth_error st d = Some (SObj deps) ->
  r_truthy (r_prop ps "engines") = true ->
  (forall l, r_prop ps "engines" <> RRef l) ->
  snd (newPackageJson_st node (RRef p) st) = Err TypeError /\
  newPackageJson_in node st (RRef p) = Err TypeError /\
  exists deps',
    nth_error (fst (newPackageJson_st node (RRef p) st)) d = Some (SObj deps') /\
    forall k dv, default_version k = Some dv ->
      r_lookup k deps' = Some (r_kept_or_default dv (r_lookup k deps)).
Proof.
  intros Hp Hdep Hd Htruthy Hprim.
  pose proof (nth_error_in_store st d _ Hd) as Hd_in.
  assert (Hrun : newPackageJson_st node (RRef p) st
                 = (update d (r_fill_dependencies (SObj deps))
                      (update (List.length st)
                         (SObj (r_set "main" (RStr "server.js") ps))
                         (st ++ [SObj ps])%list),
                    Err TypeError)).
  { unfold newPackageJson_st. cbv zeta. cbn [r_spread]. rewrite Hp.
    rewrite (write_object _ _ "main" (RStr "server.js") ps (nth_error_new st (SObj ps))).
    set (r := List.length st) in *.
    set (copy := r_set "main" (RStr "server.js") ps).
    set (s2 := update r (SObj copy) (st ++ [SObj ps])%list).
    assert (R2 : nth_error s2 r = Some (SObj copy)).
    { apply nth_error_update_same. rewrite length_app. cbn [List.length]. lia. }
    assert (D2 : nth_error s2 d = Some (SObj deps)).
    { unfold s2. rewrite nth_error_update_other by lia.
      rewrite nth_error_app1 by exact Hd_in. exact Hd. }
    assert (Hcopy : r_lookup "dependencies" copy = Some (RRef d))
      by (unfold copy; rewrite r_lookup_set_other by discriminate; exact Hdep).
    assert (Heng : r_prop copy "engines" = r_prop ps "engines")
      by (unfold copy, r_prop; rewrite r_lookup_set_other by discriminate; reflexivity).
    match goal with
    | |- step _ _ (fun _ => step _ _ (fun _ => step _ _ (fun _ => step _ _ ?rest))) = _ =>
        rewrite (r_dependencies_stepped s2 r d copy (SObj deps) rest R2 Hcopy D2
                   ltac:(lia))
    end.
    set (s6 := update d (r_fill_dependencies (SObj deps)) s2).
    assert (R6 : nth_error s6 r = Some (SObj copy))
      by (unfold s6; rewrite nth_error_update_other by lia; exact R2).
    rewrite (read_object s6 r copy "engines" R6), Heng, Htruthy.
    rewrite (read_object s6 r copy "engines" R6), Heng.
    rewrite (r_or_assign_primitive s6 _ "node" _ Hprim). reflexivity. }
  unfold newPackageJson_in. rewrite Hrun. cbn [fst snd bind].
  split; [reflexivity|]. split; [reflexivity|].
  destruct (r_fill_dependencies_lookup deps) as [deps' [E K]].
  exists deps'. split; [|exact K].
  rewrite nth_error_update_same, E; [reflexivity|].
  rewrite update_length, length_app. lia.
Qed.

Lemma failed_call_has_written_witness :
  snd (newPackageJson_st "16.13.0" (RRef 1) engines_text_store) = Err TypeError /\
  newPackageJson_in "16.13.0" engines_text_store (RRef 1) = Err TypeError /\
  exists deps',
    nth_error (fst (newPackageJson_st "16.13.0" (RRef 1) engines_text_store)) 0
    = Some (SObj deps') /\
    forall k dv, default_version k = Some dv ->
      r_lookup k deps'
      = Some (r_kept_or_default dv (r_lookup k [("next", RStr "12.1.0")])).
Proof.
  apply (failed_call_has_written "16.13.0" engines_text_store 1 0
           [("name", RStr "app"); ("dependencies", RRef 0); ("engines", RStr ">=14")]
           [("next", RStr "12.1.0")]);
    try reflexivity.
  discriminate.
Defined.
